(** * Route optimisation pipeline: sweep clustering, nearest neighbour, RVND

    A shallow embedding of [Program/sweep_nn.py] and [Program/rvnd.py], and
    of the per-depot summary of [Program/gui/tabs/hasil.py].

    Modelling conventions.
    - Python numbers (JSON ints and floats) are rationals [Q]; sums are
      taken in the order the code takes them, so results are compared with
      Leibniz equality when both sides run the same operations, and with the
      order of [Q] otherwise.  Rounding of binary floating point is not
      modelled.
    - A raised exception (KeyError, IndexError, ValueError) is [None]; the
      one exception build_clusters raises on purpose is a value of [exn].
    - dicts are [gmap]s filled left to right (a later key overwrites), lists
      are [list]s, indices are [nat] (the move generators only produce
      non-negative indices).
    - [math.atan2] belongs to the C library: build_clusters takes it as a
      parameter, and every statement about the sweep holds for any such
      function.
    - The two while loops without a counter of their own are given a
      bound ([place], [visit]) that is proved sufficient; the search loop
      keeps the round counter of the source. *)

From Stdlib Require Import ZArith QArith Qround Qabs Lqa Lia List String Ascii
  DecimalString DecimalPos Permutation Sorted.
From stdpp Require Import base option list gmap strings.

(** ** Python built-ins used by the two scripts *)
Module Py.

(** [max(a, b)]: the first argument unless the second is strictly larger. *)
Definition max (a b : Q) : Q :=
  match (a ?= b)%Q with Lt => b | _ => a end.

(** [a < b] on numbers. *)
Definition lt (a b : Q) : bool :=
  match (a ?= b)%Q with Lt => true | _ => false end.

(** A dict comprehension [{k: v for ...}]: later keys overwrite. *)
Definition dict `{Countable K} {V} (kvs : list (K * V)) : gmap K V :=
  fold_left (λ m kv, <[kv.1 := kv.2]> m) kvs ∅.

(** [enumerate(l)] *)
Definition enumerate {A} (l : list A) : list (nat * A) :=
  imap (λ idx a, (idx, a)) l.

(** [s.split(":")] *)
Fixpoint split_colon (s : string) : list string :=
  match s with
  | EmptyString => [EmptyString]
  | String c r =>
      if Ascii.eqb c ":" then EmptyString :: split_colon r
      else match split_colon r with
           | h :: t => String c h :: t
           | [] => [String c EmptyString]
           end
  end.

(** White space skipped by [int()] at both ends of an ASCII str: tab to
    carriage return (9 to 13) and the space. *)
Definition is_space (c : ascii) : bool :=
  let n := nat_of_ascii c in
  ((9 <=? n)%nat && (n <=? 13)%nat) || (n =? 32)%nat.

Fixpoint lstrip (l : list ascii) : list ascii :=
  match l with
  | c :: r => if is_space c then lstrip r else l
  | [] => []
  end.

Definition strip (l : list ascii) : list ascii :=
  rev (lstrip (rev (lstrip l))).

Definition digit_val (c : ascii) : option Z :=
  let n := nat_of_ascii c in
  if ((48 <=? n)%nat && (n <=? 57)%nat) then Some (Z.of_nat (n - 48)) else None.

(** Decimal digits, single underscores allowed between two digits. *)
Fixpoint digits (l : list ascii) (acc : Z) (after_digit : bool) : option Z :=
  match l with
  | [] => if after_digit then Some acc else None
  | c :: r =>
      match digit_val c with
      | Some d => digits r (10 * acc + d)%Z true
      | None =>
          if Ascii.eqb c "_" && after_digit then digits r acc false else None
      end
  end.

(** [int(s)] for a str of ASCII characters; [None] is ValueError. *)
Definition int (s : string) : option Z :=
  match strip (list_ascii_of_string s) with
  | c :: r =>
      if Ascii.eqb c "-" then Z.opp <$> digits r 0 false
      else if Ascii.eqb c "+" then digits r 0 false
      else digits (c :: r) 0 false
  | [] => None
  end.

(** [round(q)] to an integer, ties to even. *)
Definition round (q : Q) : Z :=
  let f := Qfloor q in
  match (q - inject_Z f ?= 1 # 2)%Q with
  | Lt => f
  | Gt => (f + 1)%Z
  | Eq => if Z.even f then f else (f + 1)%Z
  end.

(** [format(n, "02d")]: zero padded to width two, the sign counts. *)
Definition fmt_02d (n : Z) : string :=
  let s := NilZero.string_of_int (Z.to_int n) in
  if (String.length s <? 2)%nat then String "0" s else s.

(** [q // 60] and [q % 60] on numbers. *)
Definition floordiv60 (q : Q) : Z := Qfloor (q / 60).
Definition mod60 (q : Q) : Q := (q - 60 * inject_Z (floordiv60 q))%Q.

End Py.

(** ** Input records (the JSON shapes both scripts read) *)

Record TimeWindow := { tw_start : string; tw_end : string }.

Record Depot := {
  depot_x : Q;
  depot_y : Q;
  depot_time_window : TimeWindow;
  depot_service_time : option Q   (* read with .get("service_time", 0) *)
}.

Record Customer := {
  cust_id : Z;
  cust_x : Q;
  cust_y : Q;
  cust_demand : Q;
  cust_time_window : TimeWindow;
  cust_service_time : Q
}.

Record Fleet := {
  fleet_id : string;
  fleet_capacity : Q;
  fleet_units : Z
}.

Record Instance := {
  depot : Depot;
  customers : list Customer;
  fleet : list Fleet
}.

(** [nodes] keeps the "id" of each entry of distance_data["nodes"], in
    index order. *)
Record DistanceData := {
  nodes : list Z;
  distance_matrix : list (list Q);
  travel_time_matrix : list (list Q)
}.

Record Stop := {
  node_id : Z;
  arrival : Q;
  arrival_str : string;
  departure : Q;
  departure_str : string;
  wait : Q;
  violation : Q
}.

(** A route as rvnd_route receives it: only "sequence" is read. *)
Record Route := {
  r_cluster_id : Z;
  r_vehicle_type : string;
  r_sequence : list Z
}.

(** The tables both scripts build before they walk a sequence. *)
Definition node_index_of (distance_data : DistanceData) : gmap Z nat :=
  Py.dict (map (λ p, (p.2, p.1)) (Py.enumerate (nodes distance_data))).

Definition customers_by_id (instance : Instance) : gmap Z Customer :=
  Py.dict (map (λ c, (cust_id c, c)) (customers instance)).

(** [matrix[node_index[a]][node_index[b]]] *)
Definition matrix_at (node_index : gmap Z nat) (matrix : list (list Q))
    (a b : Z) : option Q :=
  ia ← node_index !! a;
  ib ← node_index !! b;
  row ← matrix !! ia;
  row !! ib.

(** parse_time_to_minutes has the same text in both files. *)
Definition parse_time_to_minutes (value : string) : option Z :=
  match Py.split_colon value with
  | [hours; minutes] =>
      h ← Py.int hours;
      m ← Py.int minutes;
      Some (h * 60 + m)%Z
  | _ => None
  end.

(** What the evaluation loops read: the same preamble opens evaluate_route
    and nearest_neighbor_route. *)
Record Tables := {
  node_index : gmap Z nat;
  t_distance_matrix : list (list Q);
  t_travel_matrix : list (list Q);
  depot_tw_start : Z;
  depot_tw_end : Z;
  depot_service : Q;
  t_customers : gmap Z Customer
}.

Definition tables (instance : Instance) (distance_data : DistanceData)
    : option Tables :=
  s ← parse_time_to_minutes (tw_start (depot_time_window (depot instance)));
  e ← parse_time_to_minutes (tw_end (depot_time_window (depot instance)));
  Some {| node_index := node_index_of distance_data;
          t_distance_matrix := distance_matrix distance_data;
          t_travel_matrix := travel_time_matrix distance_data;
          depot_tw_start := s;
          depot_tw_end := e;
          depot_service := default 0%Q (depot_service_time (depot instance));
          t_customers := customers_by_id instance |}.

(** Window and service time of the node being entered. *)
Definition node_window (tb : Tables) (next_node : Z) : option (Q * Q * Q) :=
  if (next_node =? 0)%Z
  then Some (inject_Z (depot_tw_start tb), inject_Z (depot_tw_end tb),
             depot_service tb)
  else
    customer ← t_customers tb !! next_node;
    s ← parse_time_to_minutes (tw_start (cust_time_window customer));
    e ← parse_time_to_minutes (tw_end (cust_time_window customer));
    Some (inject_Z s, inject_Z e, cust_service_time customer).

(** ** rvnd.py *)
Module Rvnd.

Definition minutes_to_clock (value : Q) : string :=
  let hours := Py.floordiv60 value in
  let minutes := Qfloor (Py.mod60 value) in
  let seconds := Py.round ((value - inject_Z (Qfloor value)) * 60)%Q in
  if (seconds =? 0)%Z
  then (Py.fmt_02d hours +:+ ":" +:+ Py.fmt_02d minutes)
  else (Py.fmt_02d hours +:+ ":" +:+ Py.fmt_02d minutes
        +:+ "+" +:+ Py.fmt_02d seconds +:+ "s").

Record Metrics := {
  sequence : list Z;
  stops : list Stop;
  total_distance : Q;
  total_travel_time : Q;
  total_service_time : Q;
  total_time_component : Q;
  total_tw_violation : Q;
  objective : Q
}.

(** The local variables the for loop of evaluate_route updates. *)
Record Walk := {
  w_stops : list Stop;
  w_total_distance : Q;
  w_travel_time_sum : Q;
  w_service_time_sum : Q;
  w_violation_sum : Q;
  w_prev_node : Z;
  w_current_time : Q
}.

Definition walk_step (tb : Tables) (w : Walk) (next_node : Z) : option Walk :=
  travel ← matrix_at (node_index tb) (t_travel_matrix tb) (w_prev_node w) next_node;
  distance ← matrix_at (node_index tb) (t_distance_matrix tb) (w_prev_node w) next_node;
  let arrival_no_wait := (w_current_time w + travel)%Q in
  '(tw_start, tw_end, service_time) ← node_window tb next_node;
  let arrival := Py.max tw_start arrival_no_wait in
  let wait := Py.max 0 (tw_start - arrival_no_wait) in
  let violation := Py.max 0 (arrival - tw_end) in
  let departure := (arrival + service_time)%Q in
  let customer_node := negb (next_node =? 0)%Z in
  Some {|
    w_stops := w_stops w ++ [ {|
      node_id := next_node;
      arrival := arrival;
      arrival_str := minutes_to_clock arrival;
      departure := departure;
      departure_str := minutes_to_clock departure;
      wait := wait;
      violation := violation |} ];
    w_total_distance := (w_total_distance w + distance)%Q;
    w_travel_time_sum := (w_travel_time_sum w + travel)%Q;
    w_service_time_sum :=
      if customer_node then (w_service_time_sum w + service_time)%Q
      else w_service_time_sum w;
    w_violation_sum :=
      if customer_node then (w_violation_sum w + violation)%Q
      else w_violation_sum w;
    w_prev_node := next_node;
    w_current_time := departure |}.

Fixpoint walk (tb : Tables) (w : Walk) (rest : list Z) : option Walk :=
  match rest with
  | [] => Some w
  | next_node :: rest' => w' ← walk_step tb w next_node; walk tb w' rest'
  end.

Definition walk_start (tb : Tables) (first : Z) : Walk :=
  let start := inject_Z (depot_tw_start tb) in
  let current_time := (start + depot_service tb)%Q in
  {| w_stops := [ {|
       node_id := 0;
       arrival := start;
       arrival_str := minutes_to_clock start;
       departure := current_time;
       departure_str := minutes_to_clock current_time;
       wait := 0;
       violation := 0 |} ];
     w_total_distance := 0;
     w_travel_time_sum := 0;
     w_service_time_sum := 0;
     w_violation_sum := 0;
     w_prev_node := first;
     w_current_time := current_time |}.

Definition evaluate_route (sequence : list Z) (instance : Instance)
    (distance_data : DistanceData) : option Metrics :=
  tb ← tables instance distance_data;
  match sequence with
  | [] => None
  | first :: rest =>
      w ← walk tb (walk_start tb first) rest;
      let time_component := (w_travel_time_sum w + w_service_time_sum w)%Q in
      Some {|
        sequence := sequence;
        stops := w_stops w;
        total_distance := w_total_distance w;
        total_travel_time := w_travel_time_sum w;
        total_service_time := w_service_time_sum w;
        total_time_component := time_component;
        total_tw_violation := w_violation_sum w;
        objective := (w_total_distance w + time_component + w_violation_sum w)%Q
      |}
  end.

(** [range(a, b)] for non-negative [a]; [b] may come from a subtraction
    that Python lets go negative, where the range is empty as here. *)
Definition range (a b : nat) : list nat := seq a (b - a).

Definition two_opt (sequence : list Z) : list (nat * nat) :=
  i ← range 1 (length sequence - 2);
  j ← range (i + 1) (length sequence - 1);
  [(i, j)].

Definition apply_two_opt (sequence : list Z) (i j : nat) : list Z :=
  take i sequence ++ rev (take (j + 1 - i) (drop i sequence))
    ++ drop (j + 1) sequence.

Definition swap_moves (sequence : list Z) : list (nat * nat) :=
  i ← range 1 (length sequence - 2);
  j ← range (i + 1) (length sequence - 1);
  [(i, j)].

(** The tuple assignment reads both cells first, then writes both. *)
Definition apply_swap (sequence : list Z) (i j : nat) : option (list Z) :=
  at_j ← sequence !! j;
  at_i ← sequence !! i;
  Some (<[j := at_i]> (<[i := at_j]> sequence)).

Definition relocate_moves (sequence : list Z) : list (nat * nat) :=
  i ← range 1 (length sequence - 1);
  j ← range 1 (length sequence);
  if (j =? i)%nat || (j =? i + 1)%nat then [] else [(i, j)].

(** [l.insert(k, x)]: past the end it appends. *)
Definition list_insert_at {A} (k : nat) (x : A) (l : list A) : list A :=
  take k l ++ x :: drop k l.

Definition apply_relocate (sequence : list Z) (i j : nat) : option (list Z) :=
  node ← sequence !! i;
  let new_sequence := delete i sequence in
  Some (if (i <? j)%nat then list_insert_at (j - 1) node new_sequence
        else list_insert_at j node new_sequence).

(** The three functions rvnd_route iterates over, as tags. *)
Inductive NeighborhoodFunc := F_two_opt | F_swap_moves | F_relocate_moves.

Definition NEIGHBORHOOD_FUNCS : list NeighborhoodFunc :=
  [F_two_opt; F_swap_moves; F_relocate_moves].

Definition moves_of (f : NeighborhoodFunc) (sequence : list Z)
    : list (nat * nat) :=
  match f with
  | F_two_opt => two_opt sequence
  | F_swap_moves => swap_moves sequence
  | F_relocate_moves => relocate_moves sequence
  end.

Definition apply_move (f : NeighborhoodFunc) (sequence : list Z)
    (move : nat * nat) : option (list Z) :=
  match f with
  | F_two_opt => Some (apply_two_opt sequence move.1 move.2)
  | F_swap_moves => apply_swap sequence move.1 move.2
  | F_relocate_moves => apply_relocate sequence move.1 move.2
  end.

(** Outcome of scanning candidate moves: the first improving candidate
    with its distance, or none. *)
Inductive Scan :=
  | NoMove
  | Accept (new_solution : list Z) (new_distance : Q).

Definition max_iterations : nat := 100.

Section Search.
Variable instance : Instance.
Variable distance_data : DistanceData.

(** The inner [for move in ...] loop with its [break]. *)
Fixpoint scan_moves (f : NeighborhoodFunc) (best_solution : list Z)
    (best_distance : Q) (moves : list (nat * nat)) : option Scan :=
  match moves with
  | [] => Some NoMove
  | move :: moves' =>
      new_solution ← apply_move f best_solution move;
      new_metrics ← evaluate_route new_solution instance distance_data;
      if Py.lt (total_distance new_metrics) best_distance
      then Some (Accept new_solution (total_distance new_metrics))
      else scan_moves f best_solution best_distance moves'
  end.

(** The [for neighborhood_func in ...] loop with its [break]. *)
Fixpoint scan_neighborhoods (fs : list NeighborhoodFunc)
    (best_solution : list Z) (best_distance : Q) : option Scan :=
  match fs with
  | [] => Some NoMove
  | f :: fs' =>
      r ← scan_moves f best_solution best_distance
            (moves_of f best_solution);
      match r with
      | Accept _ _ => Some r
      | NoMove => scan_neighborhoods fs' best_solution best_distance
      end
  end.

(** The while loop; [rounds] is [max_iterations - iterations]. *)
Fixpoint search (rounds : nat) (best_solution : list Z)
    (best_distance : Q) : option (list Z * Q) :=
  match rounds with
  | O => Some (best_solution, best_distance)
  | S rounds' =>
      r ← scan_neighborhoods NEIGHBORHOOD_FUNCS best_solution best_distance;
      match r with
      | NoMove => Some (best_solution, best_distance)
      | Accept new_solution new_distance =>
          search rounds' new_solution new_distance
      end
  end.

(** The successive values of (best_solution, best_distance) after each
    accepted move of the same loop, oldest first. *)
Fixpoint accepted (rounds : nat) (best_solution : list Z)
    (best_distance : Q) : list (list Z * Q) :=
  match rounds with
  | O => []
  | S rounds' =>
      match scan_neighborhoods NEIGHBORHOOD_FUNCS best_solution
              best_distance with
      | Some (Accept new_solution new_distance) =>
          (new_solution, new_distance)
            :: accepted rounds' new_solution new_distance
      | _ => []
      end
  end.

Definition rvnd_route {Random : Type} (route : Route) (rng : Random)
    : option Metrics :=
  let sequence := r_sequence route in
  baseline ← evaluate_route sequence instance distance_data;
  '(best_solution, _) ← search max_iterations sequence
                          (total_distance baseline);
  evaluate_route best_solution instance distance_data.

(** The accepted moves of one call of rvnd_route. *)
Definition rvnd_accepted (route : Route) : list (list Z * Q) :=
  match evaluate_route (r_sequence route) instance distance_data with
  | Some baseline =>
      accepted max_iterations (r_sequence route) (total_distance baseline)
  | None => []
  end.
End Search.

(** *** main: the loop over the routes and the summary *)

Record Summary := {
  distance_before : Q;
  distance_after : Q;
  objective_before : Q;
  objective_after : Q;
  tw_before : Q;
  tw_after : Q
}.

(** An entry of [results]. *)
Record RouteResult := {
  cluster_id : Z;
  vehicle_type : string;
  baseline : Metrics;
  improved : Metrics
}.

Record Output := {
  routes : list RouteResult;
  summary : Summary;
  neighborhoods : list string;
  seed : Z
}.

Definition NEIGHBORHOODS : list string := ["two_opt"; "swap"; "relocate"].

Definition summary_start : Summary :=
  {| distance_before := 0; distance_after := 0;
     objective_before := 0; objective_after := 0;
     tw_before := 0; tw_after := 0 |}.

(** One turn of [for route in acs_data["clusters"]]. *)
Definition main_step {Random : Type} (instance : Instance)
    (distance_data : DistanceData) (rng : Random)
    (acc : list RouteResult * Summary) (route : Route)
    : option (list RouteResult * Summary) :=
  baseline ← evaluate_route (r_sequence route) instance distance_data;
  improved ← rvnd_route instance distance_data route rng;
  let summary := acc.2 in
  Some (acc.1 ++ [ {| cluster_id := r_cluster_id route;
                      vehicle_type := r_vehicle_type route;
                      baseline := baseline;
                      improved := improved |} ],
        {| distance_before :=
             (distance_before summary + total_distance baseline)%Q;
           distance_after :=
             (distance_after summary + total_distance improved)%Q;
           objective_before :=
             (objective_before summary + objective baseline)%Q;
           objective_after :=
             (objective_after summary + objective improved)%Q;
           tw_before :=
             (tw_before summary + total_tw_violation baseline)%Q;
           tw_after :=
             (tw_after summary + total_tw_violation improved)%Q |}).

Fixpoint main_loop {Random : Type} (instance : Instance)
    (distance_data : DistanceData) (rng : Random)
    (acc : list RouteResult * Summary) (clusters : list Route)
    : option (list RouteResult * Summary) :=
  match clusters with
  | [] => Some acc
  | route :: clusters' =>
      acc' ← main_step instance distance_data rng acc route;
      main_loop instance distance_data rng acc' clusters'
  end.

(** What main writes out, from the three inputs it loads; [rng] stands
    for [random.Random(84)]. *)
Definition main {Random : Type} (instance : Instance)
    (distance_data : DistanceData) (clusters : list Route) (rng : Random)
    : option Output :=
  '(results, summary) ← main_loop instance distance_data rng
                          ([], summary_start) clusters;
  Some {| routes := results;
          summary := summary;
          neighborhoods := NEIGHBORHOODS;
          seed := 84 |}.

End Rvnd.

(** ** sweep_nn.py *)
Module SweepNN.

(** This file's minutes_to_clock: the seconds suffix is dropped below
    1e-6 seconds, and printed with format "02.0f" (rounded, ties to even)
    otherwise. *)
Definition minutes_to_clock (value : Q) : string :=
  let hours := Py.floordiv60 value in
  let minutes := Qfloor (Py.mod60 value) in
  let seconds := ((value - inject_Z (Qfloor value)) * 60)%Q in
  if Py.lt seconds (1 # 1000000)
  then (Py.fmt_02d hours +:+ ":" +:+ Py.fmt_02d minutes)
  else (Py.fmt_02d hours +:+ ":" +:+ Py.fmt_02d minutes
        +:+ "+" +:+ Py.fmt_02d (Py.round seconds) +:+ "s").

(** [math.pi], the double nearest to pi. *)
Definition math_pi : Q := 884279719003555 # 281474976710656.

Inductive exn :=
  | RuntimeError (message : string)
  | TypeError.

(** Result of code that may raise; [OutOfFuel] only marks a loop model
    whose bound was too small. *)
Inductive Res (A : Type) :=
  | Ok (a : A)
  | Raise (e : exn)
  | OutOfFuel.
Arguments Ok {A} a.
Arguments Raise {A} e.
Arguments OutOfFuel {A}.

Record Cluster := {
  cluster_id : Z;
  vehicle_type : string;
  customer_ids : list Z;
  total_demand : Q
}.

(** An item of customer_angles. *)
Record Entry := { e_customer : Customer; e_angle : Q }.

(** The local variables of the sweep loop of build_clusters. *)
Record Sweep := {
  available_units : gmap string Z;
  clusters : list Cluster;
  next_cluster_id : Z;
  current_customers : list Customer;
  current_demand : Q;
  current_vehicle : option Fleet
}.

(** [min(feasible_fleets, key=capacity)]: the first of the smallest. *)
Fixpoint min_capacity (best : Fleet) (rest : list Fleet) : Fleet :=
  match rest with
  | [] => best
  | f :: rest' =>
      min_capacity
        (if Py.lt (fleet_capacity f) (fleet_capacity best) then f else best)
        rest'
  end.

(** [list.sort(key=angle)]: ascending and stable. *)
Fixpoint insert_entry (e : Entry) (sorted : list Entry) : list Entry :=
  match sorted with
  | [] => [e]
  | h :: t =>
      if Py.lt (e_angle h) (e_angle e) then h :: insert_entry e t
      else e :: h :: t
  end.

Definition sort_by_angle (l : list Entry) : list Entry :=
  foldr insert_entry [] l.

Definition no_vehicle_message : string :=
  "No available vehicle can serve customer demand".

Section Sweep.
(** [math.atan2] of the C library, as a function on numbers. *)
Variable atan2 : Q → Q → Q.

(** The sum [angle + 2 * math.pi] is taken exactly here.  In binary
    floating point it is rounded: for a negative angle of very small
    magnitude the result is [2 * math.pi] itself, so the angles of the
    code lie in the closed interval from 0 to [2 * math.pi]. *)
Definition compute_polar_angle (customer : Customer) (depot : Depot) : Q :=
  let angle := atan2 (cust_y customer - depot_y depot)
                     (cust_x customer - depot_x depot) in
  if Py.lt angle 0 then (angle + 2 * math_pi)%Q else angle.

Variable fleets : list Fleet.

Definition feasible_fleets (s : Sweep) (proposed_demand : Q) : list Fleet :=
  filter (λ fleet,
            (0 <? available_units s !!! fleet_id fleet)%Z = true
            ∧ Qle_bool proposed_demand (fleet_capacity fleet) = true)
         fleets.

(** The branch that appends the customer to the open cluster. *)
Definition add_customer (s : Sweep) (customer : Customer)
    (proposed_demand : Q) (chosen : Fleet) : Sweep :=
  {| available_units := available_units s;
     clusters := clusters s;
     next_cluster_id := next_cluster_id s;
     current_customers := current_customers s ++ [customer];
     current_demand := proposed_demand;
     current_vehicle := Some chosen |}.

(** Emit the open cluster for [vehicle] and take one of its units. *)
Definition emit (s : Sweep) (vehicle : Fleet) : Sweep :=
  {| available_units :=
       <[fleet_id vehicle :=
           (available_units s !!! fleet_id vehicle - 1)%Z]>
         (available_units s);
     clusters :=
       clusters s ++ [ {|
         cluster_id := next_cluster_id s;
         vehicle_type := fleet_id vehicle;
         customer_ids := cust_id <$> current_customers s;
         total_demand := current_demand s |} ];
     next_cluster_id := next_cluster_id s;
     current_customers := current_customers s;
     current_demand := current_demand s;
     current_vehicle := current_vehicle s |}.

(** The branch that closes the open cluster and starts an empty one. *)
Definition close_cluster (s : Sweep) (vehicle : Fleet) : Sweep :=
  let s' := emit s vehicle in
  {| available_units := available_units s';
     clusters := clusters s';
     next_cluster_id := (next_cluster_id s + 1)%Z;
     current_customers := [];
     current_demand := 0;
     current_vehicle := None |}.

(** [while not added: ...] for one customer. *)
Fixpoint place (fuel : nat) (s : Sweep) (customer : Customer) : Res Sweep :=
  match fuel with
  | O => OutOfFuel
  | S fuel' =>
      let proposed_demand := (current_demand s + cust_demand customer)%Q in
      match feasible_fleets s proposed_demand with
      | f :: rest =>
          Ok (add_customer s customer proposed_demand
                (min_capacity f rest))
      | [] =>
          match current_customers s with
          | [] => Raise (RuntimeError no_vehicle_message)
          | _ :: _ =>
              match current_vehicle s with
              | Some vehicle => place fuel' (close_cluster s vehicle) customer
              | None => Raise TypeError
              end
          end
      end
  end.

(** [for entry in customer_angles: ...]; two turns of the inner loop
    are all it can take, see [place_fuel]. *)
Fixpoint sweep (s : Sweep) (entries : list Entry) : Res Sweep :=
  match entries with
  | [] => Ok s
  | entry :: entries' =>
      match place 2 s (e_customer entry) with
      | Ok s' => sweep s' entries'
      | Raise e => Raise e
      | OutOfFuel => OutOfFuel
      end
  end.

(** The flush after the loop. *)
Definition flush (s : Sweep) : Res Sweep :=
  match current_customers s with
  | [] => Ok s
  | _ :: _ =>
      match current_vehicle s with
      | Some vehicle => Ok (emit s vehicle)
      | None => Raise TypeError
      end
  end.
End Sweep.

Definition customer_angles (atan2 : Q → Q → Q) (instance : Instance)
    : list Entry :=
  sort_by_angle
    (map (λ customer,
            {| e_customer := customer;
               e_angle := compute_polar_angle atan2 customer (depot instance) |})
         (customers instance)).

Definition sweep_init (fleets : list Fleet) : Sweep :=
  {| available_units :=
       Py.dict (map (λ fleet, (fleet_id fleet, fleet_units fleet)) fleets);
     clusters := [];
     next_cluster_id := 1;
     current_customers := [];
     current_demand := 0;
     current_vehicle := None |}.

Definition used_units (fleets : list Fleet) (s : Sweep) : gmap string Z :=
  (λ instance_fleet,
     (fleet_units instance_fleet
      - available_units s !!! fleet_id instance_fleet)%Z)
    <$> Py.dict (map (λ fleet, (fleet_id fleet, fleet)) fleets).

Definition build_clusters (atan2 : Q → Q → Q) (instance : Instance)
    : Res (list Cluster * gmap string Z) :=
  let fleets := fleet instance in
  match sweep fleets (sweep_init fleets) (customer_angles atan2 instance) with
  | Ok s =>
      match flush s with
      | Ok s' => Ok (clusters s', used_units fleets s')
      | Raise e => Raise e
      | OutOfFuel => OutOfFuel
      end
  | Raise e => Raise e
  | OutOfFuel => OutOfFuel
  end.

(** The dict nearest_neighbor_route returns. *)
Record NNRoute := {
  route_cluster_id : Z;
  route_vehicle_type : string;
  sequence : list Z;
  stops : list Stop;
  total_distance : Q;
  total_tw_violation : Q
}.

(** Order of the keys [(distance, cid)] as Python compares tuples. *)
Definition key_lt (a b : Q * Z) : bool :=
  match (a.1 ?= b.1)%Q with
  | Lt => true
  | Eq => (a.2 <? b.2)%Z
  | Gt => false
  end.

Fixpoint min_key (best : Q * Z) (rest : list (Q * Z)) : Q * Z :=
  match rest with
  | [] => best
  | k :: rest' => min_key (if key_lt k best then k else best) rest'
  end.

(** [min(unvisited, key=lambda cid: (distance[current][cid], cid))]; the
    keys are pairwise different, so the order in which the set is walked
    does not show in the result. *)
Definition nearest (tb : Tables) (current_node : Z) (unvisited : gset Z)
    : option Z :=
  keys ← mapM (λ cid,
                 d ← matrix_at (node_index tb) (t_distance_matrix tb)
                       current_node cid;
                 Some (d, cid))
              (elements unvisited);
  match keys with
  | [] => None
  | k :: rest => Some (min_key k rest).2
  end.

(** [while unvisited: ...]; every turn removes one member, so
    [size unvisited] turns are enough, see [visit_fuel]. *)
Fixpoint visit (fuel : nat) (tb : Tables) (unvisited : gset Z)
    (route_sequence : list Z) (current_node : Z) : option (list Z) :=
  match elements unvisited with
  | [] => Some route_sequence
  | _ :: _ =>
      match fuel with
      | O => None
      | S fuel' =>
          next_node ← nearest tb current_node unvisited;
          visit fuel' tb (unvisited ∖ {[next_node]})
                (route_sequence ++ [next_node]) next_node
      end
  end.

(** The local variables of the second loop of nearest_neighbor_route. *)
Record NNWalk := {
  w_stops : list Stop;
  w_total_violation : Q;
  w_total_distance : Q;
  w_prev_node : Z;
  w_prev_departure : Q
}.

Definition nn_step (tb : Tables) (w : NNWalk) (next_node : Z)
    : option NNWalk :=
  travel ← matrix_at (node_index tb) (t_travel_matrix tb) (w_prev_node w) next_node;
  distance ← matrix_at (node_index tb) (t_distance_matrix tb) (w_prev_node w) next_node;
  let arrival_no_wait := (w_prev_departure w + travel)%Q in
  '(tw_start, tw_end, service_time) ← node_window tb next_node;
  let arrival := Py.max tw_start arrival_no_wait in
  let wait_time := Py.max 0 (tw_start - arrival_no_wait) in
  let violation := Py.max 0 (arrival - tw_end) in
  let departure := (arrival + service_time)%Q in
  Some {|
    w_stops := w_stops w ++ [ {|
      node_id := next_node;
      arrival := arrival;
      arrival_str := minutes_to_clock arrival;
      departure := departure;
      departure_str := minutes_to_clock departure;
      wait := wait_time;
      violation := violation |} ];
    w_total_violation :=
      if negb (next_node =? 0)%Z then (w_total_violation w + violation)%Q
      else w_total_violation w;
    w_total_distance := (w_total_distance w + distance)%Q;
    w_prev_node := next_node;
    w_prev_departure := departure |}.

Fixpoint nn_walk (tb : Tables) (w : NNWalk) (rest : list Z) : option NNWalk :=
  match rest with
  | [] => Some w
  | next_node :: rest' => w' ← nn_step tb w next_node; nn_walk tb w' rest'
  end.

Definition nn_start (tb : Tables) : NNWalk :=
  let start := inject_Z (depot_tw_start tb) in
  let prev_departure := (start + depot_service tb)%Q in
  {| w_stops := [ {|
       node_id := 0;
       arrival := start;
       arrival_str := minutes_to_clock start;
       departure := prev_departure;
       departure_str := minutes_to_clock prev_departure;
       wait := 0;
       violation := Py.max 0 (start - inject_Z (depot_tw_end tb)) |} ];
     w_total_violation := 0;
     w_total_distance := 0;
     w_prev_node := 0;
     w_prev_departure := prev_departure |}.

Definition nearest_neighbor_route (cluster : Cluster) (instance : Instance)
    (distance_data : DistanceData) : option NNRoute :=
  tb ← tables instance distance_data;
  let unvisited : gset Z := list_to_set (customer_ids cluster) in
  visited ← visit (size unvisited) tb unvisited [0%Z] 0;
  let route_sequence := visited ++ [0%Z] in
  w ← nn_walk tb (nn_start tb) (tail route_sequence);
  Some {|
    route_cluster_id := cluster_id cluster;
    route_vehicle_type := vehicle_type cluster;
    sequence := route_sequence;
    stops := w_stops w;
    total_distance := w_total_distance w;
    total_tw_violation := w_total_violation w |}.

(** *** main: clusters, initial routes and the two payloads *)

(** The payload of save_clusters. *)
Record ClustersPayload := {
  total_clusters : nat;
  payload_clusters : list Cluster;
  fleet_usage : gmap string Z
}.

Definition save_clusters (clusters : list Cluster)
    (fleet_usage : gmap string Z) : ClustersPayload :=
  {| total_clusters := length clusters;
     payload_clusters := clusters;
     fleet_usage := fleet_usage |}.

(** [[nearest_neighbor_route(cluster, ...) for cluster in clusters]] *)
Definition initial_routes (clusters : list Cluster) (instance : Instance)
    (distance_data : DistanceData) : option (list NNRoute) :=
  mapM (λ cluster, nearest_neighbor_route cluster instance distance_data)
       clusters.

(** [sum(...)] of numbers: from 0, left to right. *)
Definition sum_list (l : list Q) : Q := fold_left Qplus l 0%Q.

Record MainOutput := {
  out_clusters : ClustersPayload;
  out_routes : list NNRoute;
  out_total_demand : Q;
  out_violations : Q
}.

(** main without the file reads and writes.  An exception of
    nearest_neighbor_route (a lookup that fails) is the inner [None]. *)
Definition main (atan2 : Q → Q → Q) (instance : Instance)
    (distance_data : DistanceData) : Res (option MainOutput) :=
  match build_clusters atan2 instance with
  | Ok (clusters, fleet_usage) =>
      Ok (routes ← initial_routes clusters instance distance_data;
          Some {| out_clusters := save_clusters clusters fleet_usage;
                  out_routes := routes;
                  out_total_demand := sum_list (total_demand <$> clusters);
                  out_violations :=
                    sum_list (total_tw_violation <$> routes) |})
  | Raise e => Raise e
  | OutOfFuel => OutOfFuel
  end.

End SweepNN.

(** ** gui/tabs/hasil.py: the per-depot summary

    The function reads its inputs with [.get]: an absent key is [None]
    here.  A Python dict keeps its keys in insertion order, which the
    function relies on ([next(iter(per_depot.keys()))]), so [per_depot] is
    an association list with each key once, in insertion order. *)
Module Hasil.

(** An entry of points["depots"]; only "id" and "name" are read. *)
Record PointEntry := {
  point_id : option Z;
  point_name : option string
}.

Record StopEntry := { stop_node_id : option Z }.

(** A route of result["routes"], as far as it is read. *)
Record RouteEntry := {
  route_total_distance : option Q;
  route_sequence : option (list Z);
  route_stops : option (list StopEntry)
}.

Record DepotInfo := {
  name : string;
  distance : Q;
  customers : list Z
}.

Section OrderedDict.
Context {V : Type}.

(** [d.get(k)] *)
Fixpoint od_lookup (k : Z) (d : list (Z * V)) : option V :=
  match d with
  | [] => None
  | (k', v) :: d' => if (k =? k')%Z then Some v else od_lookup k d'
  end.

(** [d[k] = v]: in place for a key already there, else at the end. *)
Fixpoint od_insert (k : Z) (v : V) (d : list (Z * V)) : list (Z * V) :=
  match d with
  | [] => [(k, v)]
  | (k', v') :: d' =>
      if (k =? k')%Z then (k, v) :: d' else (k', v') :: od_insert k v d'
  end.

(** [d.setdefault(k, v)] *)
Definition od_setdefault (k : Z) (v : V) (d : list (Z * V))
    : list (Z * V) :=
  match od_lookup k d with
  | Some _ => d
  | None => od_insert k v d
  end.

(** An update of the value stored under [k], which is there. *)
Fixpoint od_alter (f : V → V) (k : Z) (d : list (Z * V)) : list (Z * V) :=
  match d with
  | [] => []
  | (k', v) :: d' =>
      if (k =? k')%Z then (k', f v) :: d' else (k', v) :: od_alter f k d'
  end.

(** [next(iter(d.keys()))] when [d] is not empty. *)
Definition od_first_key (d : list (Z * V)) : option Z := fst <$> head d.
End OrderedDict.

(** [int(d.get("id", idx))] for each depot. *)
Definition depot_ids (depots : list PointEntry) : list Z :=
  imap (λ idx d, default (Z.of_nat idx) (point_id d)) depots.

Definition depot_map (depots : list PointEntry) : gmap Z string :=
  Py.dict (imap (λ idx d, (default (Z.of_nat idx) (point_id d),
                           default EmptyString (point_name d)))
                depots).

Definition empty_info (depot_map : gmap Z string) (did : Z) : DepotInfo :=
  {| name := default EmptyString (depot_map !! did);
     distance := 0;
     customers := [] |}.

Definition per_depot_start (depots : list PointEntry)
    : list (Z * DepotInfo) :=
  fold_left (λ d did, od_insert did (empty_info (depot_map depots) did) d)
            (depot_ids depots) [].

(** The depot a route is booked on. *)
Definition route_depot (per_depot : list (Z * DepotInfo))
    (stops : list StopEntry) : Z :=
  let depot_id : option Z :=
    match stops with
    | [] => None
    | first :: _ =>
        let first_node := stop_node_id first in
        if (match first_node with
            | Some n => bool_decide (is_Some (od_lookup n per_depot))
            | None => false
            end)
        then first_node
        else if (length per_depot =? 1)%nat then od_first_key per_depot
             else None
    end in
  match depot_id with
  | Some did => did
  | None => default 0%Z (od_first_key per_depot)
  end.

(** One turn of [for route in routes]. *)
Definition book_route (depot_map : gmap Z string)
    (per_depot : list (Z * DepotInfo)) (route : RouteEntry)
    : list (Z * DepotInfo) :=
  let dist := default 0%Q (route_total_distance route) in
  let seq := default [] (route_sequence route) in
  let stops := default [] (route_stops route) in
  let depot_id := route_depot per_depot stops in
  let per_depot := od_setdefault depot_id (empty_info depot_map depot_id)
                     per_depot in
  od_alter (λ info,
              {| name := name info;
                 distance := (distance info + dist)%Q;
                 customers :=
                   customers info
                   ++ List.filter (λ nid, negb (nid =? 0)%Z) seq |})
           depot_id per_depot.

(** [points] gives the depots (or nothing); [result] is [None] when it
    is falsy (None or an empty dict), and holds result.get("routes")
    otherwise. *)
Definition _build_depot_summary_from_result
    (points_depots : option (list PointEntry))
    (result : option (option (list RouteEntry)))
    : list (Z * DepotInfo) :=
  let depots := default [] points_depots in
  let per_depot := per_depot_start depots in
  match result with
  | None => per_depot
  | Some routes =>
      fold_left (book_route (depot_map depots)) (default [] routes) per_depot
  end.

(** [sorted(per_depot.items(), key=lambda x: int(x[0]))] *)
Fixpoint insert_item (item : Z * DepotInfo) (sorted : list (Z * DepotInfo))
    : list (Z * DepotInfo) :=
  match sorted with
  | [] => [item]
  | h :: t =>
      if (h.1 <? item.1)%Z then h :: insert_item item t
      else item :: h :: t
  end.

Definition sorted_items (per_depot : list (Z * DepotInfo))
    : list (Z * DepotInfo) :=
  foldr insert_item [] per_depot.

(** The figure render_hasil adds up and shows last. *)
Definition total_all (per_depot : list (Z * DepotInfo)) : Q :=
  fold_left (λ total item, (total + distance item.2)%Q)
            (sorted_items per_depot) 0%Q.

End Hasil.

(** ** Vocabulary of the statements *)

Import SweepNN.

(** Same nodes, same first and last node. *)
Definition same_ends (candidate sequence : list Z) : Prop :=
  candidate ≡ₚ sequence
  ∧ head candidate = head sequence
  ∧ last candidate = last sequence.

(** One accepted move: [next] is a candidate of a generated move on the
    sequence of [cur], paired with its evaluated total_distance, which is
    strictly below the distance of [cur]. *)
Definition improving_move (instance : Instance) (distance_data : DistanceData)
    (cur next : list Z * Q) : Prop :=
  ∃ f move m',
    f ∈ Rvnd.NEIGHBORHOOD_FUNCS
    ∧ move ∈ Rvnd.moves_of f cur.1
    ∧ Rvnd.apply_move f cur.1 move = Some next.1
    ∧ Rvnd.evaluate_route next.1 instance distance_data = Some m'
    ∧ Rvnd.total_distance m' = next.2
    ∧ (next.2 < cur.2)%Q.

(** Successive accepted moves, starting from [cur]. *)
Fixpoint descent (instance : Instance) (distance_data : DistanceData)
    (cur : list Z * Q) (l : list (list Z * Q)) : Prop :=
  match l with
  | [] => True
  | next :: l' =>
      improving_move instance distance_data cur next
      ∧ descent instance distance_data next l'
  end.


(** The timing of a stop reached after [travel] minutes from the stop
    [prev], at a node with the window [tw_start] to [tw_end] and the
    service time [service_time]. *)
Definition stop_timing (travel tw_start tw_end service_time : Q)
    (prev stop : Stop) : Prop :=
  arrival stop = Py.max tw_start (departure prev + travel)
  ∧ ((departure prev + travel < tw_start)%Q →
       arrival stop = tw_start
       ∧ wait stop = (tw_start - (departure prev + travel))%Q)
  ∧ ((tw_start <= departure prev + travel)%Q →
       (arrival stop == departure prev + travel)%Q ∧ wait stop = 0%Q)
  ∧ ((tw_end < arrival stop)%Q →
       violation stop = (arrival stop - tw_end)%Q)
  ∧ ((arrival stop <= tw_end)%Q → violation stop = 0%Q)
  ∧ departure stop = (arrival stop + service_time)%Q.

(** One turn of the loop of evaluate_route, in terms of the tables it
    has built: the stop at [next_node] from the stop [prev] at
    [prev_node]. *)
Definition step_rule (tb : Tables) (prev_node next_node : Z)
    (prev stop : Stop) : Prop :=
  ∃ travel tw_start tw_end service_time,
    matrix_at (node_index tb) (t_travel_matrix tb) prev_node next_node
      = Some travel
    ∧ node_window tb next_node = Some (tw_start, tw_end, service_time)
    ∧ node_id stop = next_node
    ∧ stop_timing travel tw_start tw_end service_time prev stop.

(** The inputs as the claim about the stops reads them.

    [i] is the row and column of [node] in the matrices: its position in
    distance_data["nodes"], the last one if the id is listed twice. *)
Definition index_of_node (distance_data : DistanceData) (node : Z) (i : nat)
    : Prop :=
  nodes distance_data !! i = Some node
  ∧ ∀ i', i < i' → nodes distance_data !! i' ≠ Some node.

(** The travel time from [prev_node] to [next_node]: the entry of
    travel_time_matrix at their two positions. *)
Definition travel_time_between (distance_data : DistanceData)
    (prev_node next_node : Z) (travel : Q) : Prop :=
  ∃ i j row,
    index_of_node distance_data prev_node i
    ∧ index_of_node distance_data next_node j
    ∧ travel_time_matrix distance_data !! i = Some row
    ∧ row !! j = Some travel.

(** The customer of the instance with the id [node]: the last one in
    instance["customers"] if the id is used twice. *)
Definition customer_record (instance : Instance) (node : Z) (c : Customer)
    : Prop :=
  ∃ before after,
    customers instance = before ++ c :: after
    ∧ cust_id c = node
    ∧ Forall (λ c', cust_id c' ≠ node) after.

(** Window (in minutes after midnight, from [opens] to [closes]) and
    service time of [node]: those of the depot for node 0, those of the
    customer record otherwise. *)
Definition window_of (instance : Instance) (node : Z)
    (opens closes : Z) (service_time : Q) : Prop :=
  (node = 0%Z
   ∧ parse_time_to_minutes (tw_start (depot_time_window (depot instance)))
     = Some opens
   ∧ parse_time_to_minutes (tw_end (depot_time_window (depot instance)))
     = Some closes
   ∧ service_time = default 0%Q (depot_service_time (depot instance)))
  ∨ (node ≠ 0%Z
     ∧ ∃ c, customer_record instance node c
            ∧ parse_time_to_minutes (tw_start (cust_time_window c))
              = Some opens
            ∧ parse_time_to_minutes (tw_end (cust_time_window c))
              = Some closes
            ∧ service_time = cust_service_time c).

(** How the stop at [next_node] follows from the stop [prev] at
    [prev_node], given the instance and the distance data. *)
Definition stop_rule (instance : Instance) (distance_data : DistanceData)
    (prev_node next_node : Z) (prev stop : Stop) : Prop :=
  ∃ travel tw_start tw_end service_time,
    travel_time_between distance_data prev_node next_node travel
    ∧ window_of instance next_node tw_start tw_end service_time
    ∧ node_id stop = next_node
    ∧ stop_timing travel (inject_Z tw_start) (inject_Z tw_end) service_time
        prev stop.

(** Agreement of two stops on their numeric fields, without and with
    the violation. *)
Definition same_timing (a b : Stop) : Prop :=
  node_id a = node_id b ∧ arrival a = arrival b
  ∧ departure a = departure b ∧ wait a = wait b.

Definition same_numbers (a b : Stop) : Prop :=
  same_timing a b ∧ violation a = violation b.

(** The seconds of a time in minutes, as both minutes_to_clock compute
    them. *)
Definition seconds_of (t : Q) : Q := ((t - inject_Z (Qfloor t)) * 60)%Q.

(** The times that the two minutes_to_clock print alike: all but those
    with between a millionth of a second and half a second. *)
Definition outside_band (t : Q) : Prop :=
  (seconds_of t < 1 # 1000000)%Q ∨ (1 # 2 < seconds_of t)%Q.

(** Agreement of two stops on their clock strings, for the times outside
    the band. *)
Definition same_clock (a b : Stop) : Prop :=
  (outside_band (arrival a) → arrival_str a = arrival_str b)
  ∧ (outside_band (departure a) → departure_str a = departure_str b).

(** Agreement on every field, the strings as far as promised. *)
Definition same_stop (a b : Stop) : Prop :=
  same_numbers a b ∧ same_clock a b.

(** The two opening stops, then the stops of the loop, side by side;
    [tw_start] and [tw_end] are the depot window in minutes. *)
Definition stops_agree (tw_start tw_end : Z) (nn_stops eval_stops : list Stop)
    : Prop :=
  ∃ o_nn t_nn o_ev t_ev,
    nn_stops = o_nn :: t_nn ∧ eval_stops = o_ev :: t_ev
    ∧ same_timing o_nn o_ev
    ∧ same_clock o_nn o_ev
    ∧ violation o_ev = 0%Q
    ∧ violation o_nn = Py.max 0 (inject_Z tw_start - inject_Z tw_end)
    ∧ Forall2 same_stop t_nn t_ev.

(** The loop variables of nearest_neighbor_route and of evaluate_route
    after the same number of turns. *)
Definition walks_agree (tb : Tables) (nw : SweepNN.NNWalk) (w : Rvnd.Walk)
    : Prop :=
  stops_agree (depot_tw_start tb) (depot_tw_end tb)
    (SweepNN.w_stops nw) (Rvnd.w_stops w)
  ∧ SweepNN.w_total_distance nw = Rvnd.w_total_distance w
  ∧ SweepNN.w_total_violation nw = Rvnd.w_violation_sum w
  ∧ SweepNN.w_prev_node nw = Rvnd.w_prev_node w
  ∧ SweepNN.w_prev_departure nw = Rvnd.w_current_time w.

(** The demands added up in the order build_clusters adds them. *)
Definition sum_demands (members : list Customer) : Q :=
  fold_left (λ acc c, (acc + cust_demand c)%Q) members 0%Q.

(** [cl] is the cluster emitted for the customers [members]. *)
Definition cluster_of (fleets : list Fleet) (cl : Cluster)
    (members : list Customer) : Prop :=
  customer_ids cl = cust_id <$> members
  ∧ total_demand cl = sum_demands members
  ∧ members ≠ []
  ∧ ∃ f, f ∈ fleets ∧ fleet_id f = vehicle_type cl
         ∧ (total_demand cl <= fleet_capacity f)%Q.

(** What holds of the sweep state once the customers [before] (in sweep
    order) have been placed. *)
Definition sweep_inv (fleets : list Fleet) (before : list Customer)
    (s : Sweep) : Prop :=
  ∃ groups,
    Forall2 (cluster_of fleets) (clusters s) groups
    ∧ before = concat groups ++ current_customers s
    ∧ current_demand s = sum_demands (current_customers s)
    ∧ (current_customers s ≠ [] →
         ∃ f, current_vehicle s = Some f ∧ f ∈ fleets
              ∧ (current_demand s <= fleet_capacity f)%Q).

(** No fleet type can take [customer] alone. *)
Definition stuck (fleets : list Fleet) (s : Sweep) (customer : Customer)
    : Prop :=
  current_customers s = []
  ∧ ∀ f, f ∈ fleets →
      ¬ ((0 < available_units s !!! fleet_id f)%Z
         ∧ (cust_demand customer <= fleet_capacity f)%Q).

(** The points the sweep passes through: the state at each test of the
    inner loop, with the entries still to place (the pending one first). *)
Inductive sweep_point (fleets : list Fleet) (entries : list Entry)
    : Sweep → list Entry → Prop :=
  | point_start : sweep_point fleets entries (sweep_init fleets) entries
  | point_added s entry rest f fs :
      sweep_point fleets entries s (entry :: rest) →
      feasible_fleets fleets s
        (current_demand s + cust_demand (e_customer entry)) = f :: fs →
      sweep_point fleets entries
        (add_customer s (e_customer entry)
           (current_demand s + cust_demand (e_customer entry))
           (min_capacity f fs))
        rest
  | point_closed s entry rest vehicle :
      sweep_point fleets entries s (entry :: rest) →
      feasible_fleets fleets s
        (current_demand s + cust_demand (e_customer entry)) = [] →
      current_customers s ≠ [] →
      current_vehicle s = Some vehicle →
      sweep_point fleets entries (close_cluster s vehicle) (entry :: rest).

(** ** Worked instances

    Small inputs on which the definitions above are run. *)

(** A stand-in for [math.atan2] to run build_clusters on: piecewise
    linear in each quadrant, exact on the axes and monotone in the angle. *)
Definition atan2_linear (y x : Q) : Q :=
  let ax := Qabs x in
  let ay := Qabs y in
  if Qeq_bool (ax + ay) 0 then 0%Q
  else
    let first := (ay / (ax + ay) * (math_pi / 2))%Q in
    let upper := if Qle_bool 0 x then first else (math_pi - first)%Q in
    if Qle_bool 0 y then upper else (- upper)%Q.

Definition day : TimeWindow := {| tw_start := "08:00"; tw_end := "18:00" |}.
Definition morning : TimeWindow := {| tw_start := "08:00"; tw_end := "09:00" |}.

Definition plain_depot : Depot :=
  {| depot_x := 0; depot_y := 0; depot_time_window := day;
     depot_service_time := None |}.

(** Customer [k] sits at [(k, 0)], asks for 4 units, is served in 5
    minutes. *)
Definition line_customer (k : Z) : Customer :=
  {| cust_id := k; cust_x := inject_Z k; cust_y := 0; cust_demand := 4;
     cust_time_window := morning; cust_service_time := 5 |}.

Definition van : Fleet :=
  {| fleet_id := "van"; fleet_capacity := 10; fleet_units := 2 |}.

Definition line_instance : Instance :=
  {| depot := plain_depot;
     customers := [line_customer 2; line_customer 1; line_customer 3];
     fleet := [van] |}.

(** Distances and travel times along the line: [|a - b|]. *)
Definition line_matrix : list (list Q) :=
  [[0; 1; 2; 3]; [1; 0; 1; 2]; [2; 1; 0; 1]; [3; 2; 1; 0]]%Q.

Definition line_distance_data : DistanceData :=
  {| nodes := [0; 1; 2; 3]%Z;
     distance_matrix := line_matrix;
     travel_time_matrix := line_matrix |}.

Definition line_route : Route :=
  {| r_cluster_id := 1; r_vehicle_type := "van";
     r_sequence := [0; 2; 1; 3; 0]%Z |}.

Definition no_metrics : Rvnd.Metrics :=
  {| Rvnd.sequence := []; Rvnd.stops := []; Rvnd.total_distance := 0;
     Rvnd.total_travel_time := 0; Rvnd.total_service_time := 0;
     Rvnd.total_time_component := 0; Rvnd.total_tw_violation := 0;
     Rvnd.objective := 0 |}.

(** What rvnd_route returns on [line_route]: the route [0; 1; 2; 3; 0]. *)
Definition line_improved : Rvnd.Metrics :=
  Eval vm_compute in
    default no_metrics
      (Rvnd.rvnd_route line_instance line_distance_data line_route ()).

(** The first cluster of [line_instance] and its nearest-neighbour route. *)
Definition line_cluster : Cluster :=
  {| cluster_id := 1; vehicle_type := "van"; customer_ids := [2; 1]%Z;
     total_demand := 0 + 4 + 4 |}.

Definition no_route : NNRoute :=
  {| route_cluster_id := 0; route_vehicle_type := ""; sequence := [];
     stops := []; total_distance := 0; total_tw_violation := 0 |}.

Definition line_initial : NNRoute :=
  Eval vm_compute in
    default no_route
      (nearest_neighbor_route line_cluster line_instance line_distance_data).

Definition line_clusters : list Cluster :=
  [ line_cluster;
    {| cluster_id := 2; vehicle_type := "van"; customer_ids := [3]%Z;
       total_demand := 0 + 4 |} ].

(** Two customers at right angles from the depot, ten away each, and one
    vehicle that holds both. *)
Definition corner_customer (k : Z) (x y : Q) : Customer :=
  {| cust_id := k; cust_x := x; cust_y := y; cust_demand := 5;
     cust_time_window := morning; cust_service_time := 10 |}.

Definition corner_instance : Instance :=
  {| depot := plain_depot;
     customers := [corner_customer 1 10 0; corner_customer 2 0 10];
     fleet := [ {| fleet_id := "van"; fleet_capacity := 10;
                   fleet_units := 1 |} ] |}.

(** Euclidean distances, the diagonal rounded to three decimals. *)
Definition corner_matrix : list (list Q) :=
  [[0; 10; 10]; [10; 0; 14142 # 1000]; [10; 14142 # 1000; 0]]%Q.

Definition corner_distance_data : DistanceData :=
  {| nodes := [0; 1; 2]%Z;
     distance_matrix := corner_matrix;
     travel_time_matrix := corner_matrix |}.

Definition corner_cluster : Cluster :=
  {| cluster_id := 1; vehicle_type := "van"; customer_ids := [1; 2]%Z;
     total_demand := 0 + 5 + 5 |}.

(** Two customers on the line of [line_distance_data]: customer 1 opens
    at nine, so a vehicle leaving the depot at eight waits for it;
    customer 2 closes at half past eight, so the vehicle is late there. *)
Definition window_customer (k : Z) (w : TimeWindow) : Customer :=
  {| cust_id := k; cust_x := inject_Z k; cust_y := 0; cust_demand := 4;
     cust_time_window := w; cust_service_time := 5 |}.

Definition window_instance : Instance :=
  {| depot := plain_depot;
     customers :=
       [ window_customer 1 {| tw_start := "09:00"; tw_end := "10:00" |};
         window_customer 2 {| tw_start := "08:00"; tw_end := "08:30" |} ];
     fleet := [van] |}.

Definition window_evaluated : Rvnd.Metrics :=
  Eval vm_compute in
    default no_metrics
      (Rvnd.evaluate_route [0; 1; 2; 0]%Z window_instance
         line_distance_data).

(** A depot whose window closes before it opens, and one customer. *)
Definition closed_depot : Depot :=
  {| depot_x := 0; depot_y := 0;
     depot_time_window := {| tw_start := "18:00"; tw_end := "08:00" |};
     depot_service_time := None |}.

Definition closed_instance : Instance :=
  {| depot := closed_depot; customers := [line_customer 1];
     fleet := [van] |}.

(** One customer whose demand no vehicle can carry. *)
Definition heavy_customer : Customer :=
  {| cust_id := 1; cust_x := 1; cust_y := 1; cust_demand := 20;
     cust_time_window := morning; cust_service_time := 5 |}.

Definition heavy_instance : Instance :=
  {| depot := plain_depot; customers := [heavy_customer]; fleet := [van] |}.

Definition heavy_entry : Entry :=
  {| e_customer := heavy_customer;
     e_angle := compute_polar_angle atan2_linear heavy_customer plain_depot |}.

(** One customer three tenths of a second away from the depot. *)
Definition near_instance : Instance :=
  {| depot := plain_depot;
     customers := [ {| cust_id := 1; cust_x := 1; cust_y := 0;
                       cust_demand := 4; cust_time_window := day;
                       cust_service_time := 0 |} ];
     fleet := [van] |}.

Definition near_distance_data : DistanceData :=
  {| nodes := [0; 1]%Z;
     distance_matrix := [[0; 1]; [1; 0]]%Q;
     travel_time_matrix := [[0; 1 # 200]; [1 # 200; 0]]%Q |}.

Definition near_cluster : Cluster :=
  {| cluster_id := 1; vehicle_type := "van"; customer_ids := [1]%Z;
     total_demand := 4 |}.






(** ** Vocabulary of the further statements *)

(** Characters of a printed integer: digits and the minus sign. *)
Definition plain_char (c : ascii) : bool :=
  match Py.digit_val c with Some _ => true | None => Ascii.eqb c "-" end.

(** Sum of the [matrix] entries along the legs of a walk that leaves
    [prev] and visits [rest], added to [acc] in that order. *)
Fixpoint leg_sum (node_index : gmap Z nat) (matrix : list (list Q))
    (prev : Z) (rest : list Z) (acc : Q) : option Q :=
  match rest with
  | [] => Some acc
  | next :: rest' =>
      d ← matrix_at node_index matrix prev next;
      leg_sum node_index matrix next rest' (acc + d)%Q
  end.

(** The violations of the stops that are not depot stops, added up in
    stop order. *)
Definition customer_violations (stops : list Stop) : Q :=
  fold_left (λ acc stop,
               if (node_id stop =? 0)%Z then acc
               else (acc + violation stop)%Q)
            stops 0%Q.

(** Number of clusters assigned to the fleet type [k]. *)
Definition clusters_of_type (k : string) (cls : list Cluster) : Z :=
  Z.of_nat (length (filter (λ cl, vehicle_type cl = k) cls)).

(** Bookkeeping of the sweep: cluster ids count up from 1, and every
    unit taken from a fleet type is a cluster emitted for it. *)
Definition sweep_books (fleets : list Fleet) (s : Sweep) : Prop :=
  cluster_id <$> clusters s = seqZ 1 (Z.of_nat (length (clusters s)))
  ∧ next_cluster_id s = (1 + Z.of_nat (length (clusters s)))%Z
  ∧ (∀ k, available_units s !!! k
          = (available_units (sweep_init fleets) !!! k
             - clusters_of_type k (clusters s))%Z)
  ∧ (∀ k, (Z.min 0 (available_units (sweep_init fleets) !!! k)
           <= available_units s !!! k)%Z)
  ∧ (current_customers s ≠ [] →
       ∃ v, current_vehicle s = Some v
            ∧ (0 < available_units s !!! fleet_id v)%Z).

(** The order customer_angles is sorted by. *)
Definition angle_le (a b : Entry) : Prop := (e_angle a <= e_angle b)%Q.

(** [a] is at least as near to the current node as [b]: a smaller
    distance, or the same distance and no larger id. *)
Definition key_le (a b : Q * Z) : Prop :=
  (a.1 < b.1)%Q ∨ ((a.1 == b.1)%Q ∧ (a.2 <= b.2)%Z).

(** From [current], each node of [more] in turn is the nearest of those
    still to come ([dist] is the distance lookup). *)
Fixpoint nearest_first (dist : Z → Z → option Q) (current : Z)
    (more : list Z) : Prop :=
  match more with
  | [] => True
  | next :: more' =>
      (∃ d_next, dist current next = Some d_next
         ∧ ∀ c, c ∈ more' →
             ∃ d_c, dist current c = Some d_c ∧ key_le (d_next, next) (d_c, c))
      ∧ nearest_first dist next more'
  end.

(** The nodes of a route between its two depot entries. *)
Definition interior_of (sequence : list Z) : list Z :=
  take (length sequence - 2) (drop 1 sequence).

(** What a route adds to the summary: its distance, and the nodes of its
    sequence other than 0. *)
Definition booked_distance (route : Hasil.RouteEntry) : Q :=
  default 0%Q (Hasil.route_total_distance route).

Definition booked_customers (route : Hasil.RouteEntry) : list Z :=
  List.filter (λ nid, negb (nid =? 0)%Z)
              (default [] (Hasil.route_sequence route)).

(** The routes read from a result. *)
Definition routes_of (result : option (option (list Hasil.RouteEntry)))
    : list Hasil.RouteEntry :=
  default [] (result ≫= id).

(** The distances, and the customers, booked in a summary, in the order
    of its entries. *)
Definition summary_distances (per_depot : list (Z * Hasil.DepotInfo))
    : list Q :=
  (λ item, Hasil.distance item.2) <$> per_depot.

Definition summary_customers (per_depot : list (Z * Hasil.DepotInfo))
    : list Z :=
  concat ((λ item, Hasil.customers item.2) <$> per_depot).





(** ** Proofs *)

Section ListFacts.
Context {A : Type}.
Implicit Types l : list A.

Lemma insert_at_lookup k x l :
  k ≤ length l → Rvnd.list_insert_at k x l !! k = Some x.
Proof.
  intros Hk. unfold Rvnd.list_insert_at.
  rewrite lookup_app_r; rewrite length_take; [|lia].
  replace (k - k `min` length l) with 0 by lia. done.
Qed.

Lemma insert_at_delete k x l :
  k ≤ length l → delete k (Rvnd.list_insert_at k x l) = l.
Proof.
  intros Hk. unfold Rvnd.list_insert_at.
  assert (Hl : length (take k l) = k) by (rewrite length_take; lia).
  rewrite delete_take_drop.
  rewrite take_app_length' by done.
  rewrite drop_app_ge by lia.
  rewrite Hl. replace (S k - k) with 1 by lia. simpl. rewrite drop_0.
  apply take_drop.
Qed.

Lemma insert_at_Permutation k x l : Rvnd.list_insert_at k x l ≡ₚ x :: l.
Proof.
  unfold Rvnd.list_insert_at.
  rewrite <- Permutation_middle. by rewrite take_drop.
Qed.

Lemma split_two i j l x y :
  i < j → l !! i = Some x → l !! j = Some y →
  ∃ l1 l2 l3, l = l1 ++ x :: l2 ++ y :: l3
              ∧ length l1 = i ∧ length l2 = j - i - 1.
Proof.
  intros Hij Hi Hj.
  exists (take i l), (take (j - i - 1) (drop (S i) l)),
         (drop (j - i) (drop (S i) l)).
  assert (Hlen : j < length l) by (by eapply lookup_lt_Some).
  split_and!.
  - assert (Hy : drop (S i) l !! (j - i - 1) = Some y).
    { rewrite lookup_drop. rewrite <- Hj. f_equal. lia. }
    rewrite <- (take_drop_middle l i x Hi) at 1. do 2 f_equal.
    rewrite <- (take_drop_middle _ _ y Hy) at 1. do 3 f_equal. lia.
  - rewrite length_take. lia.
  - rewrite length_take, length_drop. lia.
Qed.
End ListFacts.

Lemma range_elem a b k : k ∈ Rvnd.range a b ↔ a ≤ k < b.
Proof. unfold Rvnd.range. rewrite elem_of_seq. lia. Qed.

Lemma two_opt_elem (sequence : list Z) i j :
  (i, j) ∈ Rvnd.two_opt sequence ↔ 1 ≤ i ∧ i < j ∧ j + 1 < length sequence.
Proof.
  unfold Rvnd.two_opt. rewrite list_elem_of_bind. split.
  - intros (i' & Hj & Hi). apply list_elem_of_bind in Hj as (j' & Hp & Hj).
    apply list_elem_of_singleton in Hp. inversion Hp; subst.
    apply range_elem in Hi, Hj. lia.
  - intros (H1 & H2 & H3). exists i. split; [|apply range_elem; lia].
    apply list_elem_of_bind. exists j. split; [by apply list_elem_of_singleton|].
    apply range_elem; lia.
Qed.

Lemma swap_moves_elem (sequence : list Z) i j :
  (i, j) ∈ Rvnd.swap_moves sequence ↔ 1 ≤ i ∧ i < j ∧ j + 1 < length sequence.
Proof. apply two_opt_elem. Qed.

Lemma relocate_moves_elem (sequence : list Z) i j :
  (i, j) ∈ Rvnd.relocate_moves sequence ↔
  1 ≤ i ∧ i + 1 < length sequence ∧ 1 ≤ j ∧ j < length sequence
  ∧ j ≠ i ∧ j ≠ i + 1.
Proof.
  unfold Rvnd.relocate_moves. rewrite list_elem_of_bind. split.
  - intros (i' & Hj & Hi). apply list_elem_of_bind in Hj as (j' & Hp & Hj).
    apply range_elem in Hi, Hj.
    destruct (j' =? i')%nat eqn:E1; [by apply elem_of_nil in Hp|].
    destruct (j' =? i' + 1)%nat eqn:E2; [by apply elem_of_nil in Hp|].
    apply list_elem_of_singleton in Hp. inversion Hp; subst.
    apply Nat.eqb_neq in E1, E2. lia.
  - intros (H1 & H2 & H3 & H4 & H5 & H6). exists i.
    split; [|apply range_elem; lia].
    apply list_elem_of_bind. exists j. split; [|apply range_elem; lia].
    apply Nat.eqb_neq in H5, H6. rewrite H5, H6. by apply list_elem_of_singleton.
Qed.

(** C8.  For a move [(i, j)] that relocate_moves generates
    (1 <= i <= n-2, 1 <= j <= n-1, j different from i and i+1),
    apply_relocate takes the element at index i out and puts it back so
    that it sits at index j-1 of the result when j > i and at index j when
    j < i; taking it out of the result again gives the sequence without
    its element i, so the other elements keep their relative order. *)
Theorem relocate_reinserts (sequence : list Z) (i j : nat) :
  (i, j) ∈ Rvnd.relocate_moves sequence →
  (1 ≤ i ≤ length sequence - 2 ∧ 1 ≤ j ≤ length sequence - 1
   ∧ j ≠ i ∧ j ≠ i + 1)
  ∧ ∃ node new_sequence,
      sequence !! i = Some node
      ∧ Rvnd.apply_relocate sequence i j = Some new_sequence
      ∧ (i < j → new_sequence !! (j - 1) = Some node
                 ∧ delete (j - 1) new_sequence = delete i sequence)
      ∧ (j < i → new_sequence !! j = Some node
                 ∧ delete j new_sequence = delete i sequence).
Proof.
  intros (H1 & H2 & H3 & H4 & H5 & H6)%relocate_moves_elem.
  split; [lia|].
  destruct (lookup_lt_is_Some_2 sequence i) as [node Hnode]; [lia|].
  assert (Hlen : length (delete i sequence) = length sequence - 1).
  { rewrite length_delete; [lia | by eexists]. }
  unfold Rvnd.apply_relocate. rewrite Hnode. simpl.
  exists node. eexists. split; [done|]. split; [done|].
  split; intros Hij.
  - apply Nat.ltb_lt in Hij as Hb. rewrite Hb.
    split; [apply insert_at_lookup | apply insert_at_delete]; lia.
  - assert (Hb : (i <? j)%nat = false) by (apply Nat.ltb_ge; lia). rewrite Hb.
    split; [apply insert_at_lookup | apply insert_at_delete]; lia.
Qed.

Section Ends.
Context {A : Type}.
Implicit Types l : list A.

Lemma last_drop n l : n < length l → last (drop n l) = last l.
Proof.
  intros Hn. rewrite !last_lookup, lookup_drop, length_drop.
  f_equal. lia.
Qed.

Lemma head_app_ne l1 l2 : l1 ≠ [] → head (l1 ++ l2) = head l1.
Proof. by destruct l1. Qed.

Lemma last_app_ne l1 l2 : l2 ≠ [] → last (l1 ++ l2) = last l2.
Proof.
  intros Hne. rewrite last_app. destruct (last l2) eqn:E; [done|].
  apply last_None in E. done.
Qed.

Lemma head_take n l : 0 < n → head (take n l) = head l.
Proof. destruct n; [lia|]. by destruct l. Qed.
End Ends.

Lemma two_opt_same_ends (sequence : list Z) i j :
  1 ≤ i → i < j → j + 1 < length sequence →
  same_ends (Rvnd.apply_two_opt sequence i j) sequence.
Proof.
  intros H1 H2 H3. unfold Rvnd.apply_two_opt. split_and!.
  - rewrite <- Permutation_rev.
    replace (drop (j + 1) sequence)
      with (drop (j + 1 - i) (drop i sequence))
      by (rewrite drop_drop; f_equal; lia).
    by rewrite take_drop, take_drop.
  - rewrite head_app_ne.
    + apply head_take. lia.
    + intros E. apply (f_equal length) in E. rewrite length_take in E.
      simpl in E. lia.
  - assert (Hne : drop (j + 1) sequence ≠ []).
    { intros E. apply (f_equal length) in E. rewrite length_drop in E.
      simpl in E. lia. }
    rewrite last_app_ne.
    + rewrite last_app_ne by done. apply last_drop. lia.
    + intros E. by apply app_eq_nil in E as [_ E].
Qed.

Lemma swap_same_ends (sequence : list Z) i j :
  1 ≤ i → i < j → j + 1 < length sequence →
  ∃ candidate, Rvnd.apply_swap sequence i j = Some candidate
               ∧ same_ends candidate sequence.
Proof.
  intros H1 H2 H3.
  destruct (lookup_lt_is_Some_2 sequence i) as [x Hx]; [lia|].
  destruct (lookup_lt_is_Some_2 sequence j) as [y Hy]; [lia|].
  unfold Rvnd.apply_swap. rewrite Hx, Hy. simpl. eexists. split; [done|].
  destruct (split_two i j sequence x y H2 Hx Hy)
    as (l1 & l2 & l3 & -> & Hl1 & Hl2).
  rewrite length_app in H3. simpl in H3. rewrite length_app in H3. simpl in H3.
  assert (Hne1 : l1 ≠ []) by (intros ->; simpl in Hl1; lia).
  assert (Hne3 : l3 ≠ []) by (intros ->; simpl in H3; lia).
  rewrite (insert_app_r_alt l1 _ i) by lia.
  replace (i - length l1) with 0 by lia. simpl.
  rewrite (insert_app_r_alt l1 _ j) by lia.
  replace (j - length l1) with (S (length l2)) by lia. simpl.
  rewrite (insert_app_r_alt l2 _ (length l2)) by lia.
  replace (length l2 - length l2) with 0 by lia. simpl.
  split_and!.
  - rewrite <- !Permutation_middle. rewrite perm_swap. done.
  - by rewrite !head_app_ne.
  - rewrite !(last_app_ne l1) by done.
    rewrite !last_cons. rewrite !(last_app_ne l2) by done.
    rewrite !last_cons. destruct (last l3) eqn:E; [done|].
    by apply last_None in E.
Qed.

Lemma relocate_same_ends (sequence : list Z) i j :
  1 ≤ i → i + 1 < length sequence → 1 ≤ j → j < length sequence →
  j ≠ i → j ≠ i + 1 →
  ∃ candidate, Rvnd.apply_relocate sequence i j = Some candidate
               ∧ same_ends candidate sequence.
Proof.
  intros H1 H2 H3 H4 H5 H6.
  destruct (lookup_lt_is_Some_2 sequence i) as [node Hnode]; [lia|].
  assert (Hlen : length (delete i sequence) = length sequence - 1).
  { rewrite length_delete; [lia | by eexists]. }
  unfold Rvnd.apply_relocate. rewrite Hnode. simpl. eexists. split; [done|].
  set (k := if (i <? j)%nat then j - 1 else j).
  assert (Hk : 1 ≤ k ∧ k + 2 ≤ length sequence).
  { subst k. destruct (i <? j)%nat eqn:E;
      [apply Nat.ltb_lt in E | apply Nat.ltb_ge in E]; lia. }
  replace (if (i <? j)%nat
           then Rvnd.list_insert_at (j - 1) node (delete i sequence)
           else Rvnd.list_insert_at j node (delete i sequence))
    with (Rvnd.list_insert_at k node (delete i sequence))
    by (subst k; by destruct (i <? j)%nat).
  clearbody k. split_and!.
  - rewrite insert_at_Permutation. symmetry. by apply delete_Permutation.
  - unfold Rvnd.list_insert_at. rewrite head_app_ne.
    + rewrite head_take by lia. rewrite !head_lookup.
      apply list_lookup_delete_lt. lia.
    + intros E. apply (f_equal length) in E. rewrite length_take in E.
      simpl in E. lia.
  - unfold Rvnd.list_insert_at. rewrite last_app_ne by done.
    rewrite last_cons.
    assert (Hd : last (drop k (delete i sequence)) = last sequence).
    { rewrite last_drop by lia. rewrite !last_lookup, Hlen.
      rewrite list_lookup_delete_ge by lia. f_equal. lia. }
    rewrite Hd. destruct (last sequence) eqn:E; [done|].
    apply last_None in E. subst. simpl in H2. lia.
Qed.

Lemma candidate_same_ends f (sequence : list Z) move :
  move ∈ Rvnd.moves_of f sequence →
  ∃ candidate, Rvnd.apply_move f sequence move = Some candidate
               ∧ same_ends candidate sequence.
Proof.
  destruct move as [i j]. destruct f; simpl.
  - intros (H1 & H2 & H3)%two_opt_elem. eexists. split; [done|].
    by apply two_opt_same_ends.
  - intros (H1 & H2 & H3)%swap_moves_elem. by apply swap_same_ends.
  - intros (H1 & H2 & H3 & H4 & H5 & H6)%relocate_moves_elem.
    by apply relocate_same_ends.
Qed.

Lemma py_lt_spec a b : Py.lt a b = true ↔ (a < b)%Q.
Proof.
  unfold Py.lt. rewrite Qlt_alt. destruct (a ?= b)%Q; split; congruence.
Qed.

Lemma py_lt_false a b : Py.lt a b = false ↔ (b <= a)%Q.
Proof.
  split.
  - intros E. apply Qnot_lt_le. intros Hlt. apply py_lt_spec in Hlt.
    congruence.
  - intros Hle. destruct (Py.lt a b) eqn:E; [|done].
    apply py_lt_spec in E. by apply Qle_not_lt in Hle.
Qed.

Section SearchFacts.
Variable instance : Instance.
Variable distance_data : DistanceData.

Local Abbreviation evaluate s := (Rvnd.evaluate_route s instance distance_data).

Lemma evaluate_sequence s m : evaluate s = Some m → Rvnd.sequence m = s.
Proof.
  unfold Rvnd.evaluate_route. intros H.
  destruct (tables instance distance_data); simpl in H; [|done].
  destruct s; [done|].
  destruct (Rvnd.walk _ _ _); simpl in H; [|done]. by inversion H.
Qed.

Lemma scan_moves_accept f s d moves s' d' :
  Rvnd.scan_moves instance distance_data f s d moves
    = Some (Rvnd.Accept s' d') →
  ∃ move m', move ∈ moves ∧ Rvnd.apply_move f s move = Some s'
             ∧ evaluate s' = Some m' ∧ Rvnd.total_distance m' = d'
             ∧ (d' < d)%Q.
Proof.
  induction moves as [|move moves IH]; simpl; [done|].
  destruct (Rvnd.apply_move f s move) as [cand|] eqn:Ea; simpl; [|done].
  destruct (evaluate cand) as [mc|] eqn:Ee; simpl; [|done].
  destruct (Py.lt _ d) eqn:El.
  - intros [= <- <-]. exists move, mc. apply py_lt_spec in El.
    split_and!; try done. apply list_elem_of_here.
  - intros (mv & m' & Hin & Hrest)%IH. exists mv, m'.
    split; [by apply list_elem_of_further | done].
Qed.


Lemma scan_neighborhoods_accept fs s d s' d' :
  Rvnd.scan_neighborhoods instance distance_data fs s d
    = Some (Rvnd.Accept s' d') →
  ∃ f move m', f ∈ fs ∧ move ∈ Rvnd.moves_of f s
               ∧ Rvnd.apply_move f s move = Some s'
               ∧ evaluate s' = Some m' ∧ Rvnd.total_distance m' = d'
               ∧ (d' < d)%Q.
Proof.
  induction fs as [|f fs IH]; simpl; [done|].
  destruct (Rvnd.scan_moves _ _ f s d _) as [[|c dc]|] eqn:Es; simpl;
    [| |done].
  - intros (f' & mv & m' & Hin & Hrest)%IH. exists f', mv, m'.
    split; [by apply list_elem_of_further | done].
  - intros [= <- <-]. apply scan_moves_accept in Es as (mv & m' & Hin & Hrest).
    exists f, mv, m'. split; [apply list_elem_of_here | done].
Qed.

End SearchFacts.

Section SearchLoop.
Variable instance : Instance.
Variable distance_data : DistanceData.

Local Abbreviation evaluate s := (Rvnd.evaluate_route s instance distance_data).
Local Abbreviation search := (Rvnd.search instance distance_data).
Local Abbreviation accepted := (Rvnd.accepted instance distance_data).
Local Abbreviation scan := (Rvnd.scan_neighborhoods instance distance_data Rvnd.NEIGHBORHOOD_FUNCS).

Lemma search_descent n : ∀ s d s' d',
  search n s d = Some (s', d') →
  descent instance distance_data (s, d) (accepted n s d)
  ∧ default (s, d) (last (accepted n s d)) = (s', d')
  ∧ (d' <= d)%Q.
Proof.
  induction n as [|n IH]; intros s d s' d';
    cbn [Rvnd.search Rvnd.accepted].
  { intros [= <- <-]. split_and!; try done. apply Qle_refl. }
  destruct (scan s d) as [[|s1 d1]|] eqn:Es; cbn [mbind option_bind];
    [| |done].
  { intros [= <- <-]. split_and!; try done. apply Qle_refl. }
  intros Hs. destruct (IH _ _ _ _ Hs) as (Hd & Hl & Hle).
  apply scan_neighborhoods_accept in Es as (f & mv & m' & Hf & Hm & Ha & He & Ht & Hlt).
  split_and!.
  - split; [|done]. exists f, mv, m'. done.
  - rewrite last_cons. destruct (last (accepted n s1 d1)); simpl in *; done.
  - apply Qlt_le_weak. eapply Qle_lt_trans; done.
Qed.


Lemma descent_last_evaluated l : ∀ s d m,
  evaluate s = Some m → Rvnd.total_distance m = d →
  descent instance distance_data (s, d) l →
  ∃ m', evaluate (default (s, d) (last l)).1 = Some m'
        ∧ Rvnd.total_distance m' = (default (s, d) (last l)).2.
Proof.
  induction l as [|[s1 d1] l IH]; intros s d m He Hd; simpl.
  { intros _. by exists m. }
  intros [(f & mv & m' & _ & _ & _ & He' & Hd' & _) Hrest].
  simpl in *. destruct (IH _ _ _ He' Hd' Hrest) as (m2 & H1 & H2).
  exists m2. rewrite last_cons. destruct (last l); simpl in *; done.
Qed.
End SearchLoop.

(** C1.  Every move rvnd_route accepts strictly lowers the evaluated
    total_distance of the current best sequence: the accepted pairs form a
    [descent] from the input sequence and its evaluated distance.  The
    metrics returned are the evaluation of the last accepted sequence, and
    their total_distance is at most that of the input sequence.  (Nothing
    is asked of the ends of the input sequence.) *)
Theorem accepted_moves_decrease {Random : Type} (instance : Instance)
    (distance_data : DistanceData) (route : Route) (rng : Random)
    (final : Rvnd.Metrics) :
  Rvnd.rvnd_route instance distance_data route rng = Some final →
  ∃ baseline,
    Rvnd.evaluate_route (r_sequence route) instance distance_data
      = Some baseline
    ∧ descent instance distance_data
        (r_sequence route, Rvnd.total_distance baseline)
        (Rvnd.rvnd_accepted instance distance_data route)
    ∧ Rvnd.evaluate_route
        (default (r_sequence route, Rvnd.total_distance baseline)
           (last (Rvnd.rvnd_accepted instance distance_data route))).1
        instance distance_data = Some final
    ∧ (Rvnd.total_distance final <= Rvnd.total_distance baseline)%Q.
Proof.
  unfold Rvnd.rvnd_route, Rvnd.rvnd_accepted.
  destruct (Rvnd.evaluate_route (r_sequence route) _ _) as [baseline|] eqn:Eb;
    cbn [mbind option_bind]; [|done].
  destruct (Rvnd.search _ _ _ _ _) as [[s' d']|] eqn:Es;
    cbn [mbind option_bind]; [|done].
  intros Hf. exists baseline. split; [done|].
  destruct (search_descent _ _ _ _ _ _ _ Es) as (Hd & Hl & Hle).
  destruct (descent_last_evaluated _ _ _ _ _ _ Eb eq_refl Hd) as (m' & H1 & H2).
  rewrite Hl in *. simpl in *. rewrite Hf in H1. inversion H1; subst m'.
  split_and!; try done. by rewrite H2.
Qed.


Lemma py_max_lt a b : (a < b)%Q → Py.max a b = b.
Proof.
  intros H. unfold Py.max. destruct (Qlt_alt a b) as [Hc _].
  by rewrite (Hc H).
Qed.

Lemma py_max_ge a b : (b <= a)%Q → Py.max a b = a.
Proof.
  intros H. unfold Py.max. destruct (a ?= b)%Q eqn:E; try done.
  destruct (Qlt_alt a b) as [_ Hc]. by apply Qle_not_lt in H.
Qed.

Lemma tables_fields instance distance_data tb :
  tables instance distance_data = Some tb →
  node_index tb = node_index_of distance_data
  ∧ t_distance_matrix tb = distance_matrix distance_data
  ∧ t_travel_matrix tb = travel_time_matrix distance_data
  ∧ t_customers tb = customers_by_id instance.
Proof.
  unfold tables.
  destruct (parse_time_to_minutes (tw_start _)); cbn [mbind option_bind];
    [|done].
  destruct (parse_time_to_minutes (tw_end _)); cbn [mbind option_bind];
    [|done].
  by intros [= <-].
Qed.

Section WalkFacts.
Variable tb : Tables.

Lemma walk_step_stops w x w' :
  Rvnd.walk_step tb w x = Some w' →
  ∃ stop, Rvnd.w_stops w' = Rvnd.w_stops w ++ [stop]
          ∧ Rvnd.w_prev_node w' = x
          ∧ Rvnd.w_current_time w' = departure stop
          ∧ ∀ prev, departure prev = Rvnd.w_current_time w →
              step_rule tb (Rvnd.w_prev_node w) x prev stop.
Proof.
  unfold Rvnd.walk_step.
  destruct (matrix_at _ (t_travel_matrix tb) _ _) as [travel|] eqn:Et;
    cbn [mbind option_bind]; [|done].
  destruct (matrix_at _ (t_distance_matrix tb) _ _) as [distance|] eqn:Ed;
    cbn [mbind option_bind]; [|done].
  destruct (node_window tb x) as [[[tws twe] svc]|] eqn:Ew;
    cbn [mbind option_bind]; [|done].
  intros [= <-]. eexists. cbn. split_and!; try done.
  intros prev Hprev. exists travel, tws, twe, svc. unfold stop_timing.
  cbn. rewrite Hprev. split_and!; try done.
  - intros Hlt. split; [by apply py_max_ge, Qlt_le_weak|].
    apply py_max_lt. lra.
  - intros Hle. split.
    + destruct (Qlt_le_dec tws (Rvnd.w_current_time w + travel)) as [Hl|Hg].
      * by rewrite py_max_lt.
      * rewrite py_max_ge by done. lra.
    + apply py_max_ge. lra.
  - intros Hlt. apply py_max_lt. lra.
  - intros Hle. apply py_max_ge. lra.
Qed.

Lemma walk_stops rest : ∀ w w',
  Rvnd.walk tb w rest = Some w' →
  ∃ more, Rvnd.w_stops w' = Rvnd.w_stops w ++ more
          ∧ length more = length rest.
Proof.
  induction rest as [|x rest IH]; intros w w'; cbn [Rvnd.walk].
  { intros [= <-]. exists []. by rewrite app_nil_r. }
  destruct (Rvnd.walk_step tb w x) as [w1|] eqn:E1;
    cbn [mbind option_bind]; [|done].
  intros (more & Hm & Hl)%IH.
  apply walk_step_stops in E1 as (stop & Hs & _).
  exists (stop :: more). rewrite Hm, Hs, <- app_assoc. simpl.
  split; [done | by rewrite Hl].
Qed.

Lemma walk_rule rest : ∀ w w' pre last_stop,
  Rvnd.walk tb w rest = Some w' →
  Rvnd.w_stops w = pre ++ [last_stop] →
  departure last_stop = Rvnd.w_current_time w →
  ∀ k prev_node next_node,
    (Rvnd.w_prev_node w :: rest) !! k = Some prev_node →
    rest !! k = Some next_node →
    ∃ prev stop,
      Rvnd.w_stops w' !! (length pre + k) = Some prev
      ∧ Rvnd.w_stops w' !! (length pre + S k) = Some stop
      ∧ step_rule tb prev_node next_node prev stop.
Proof.
  induction rest as [|x rest IH]; intros w w' pre last_stop;
    cbn [Rvnd.walk]; [by intros _ _ _ k ? ? _ ?|].
  destruct (Rvnd.walk_step tb w x) as [w1|] eqn:E1;
    cbn [mbind option_bind]; [|done].
  intros Hw Hpre Hdep k prev_node next_node Hp Hn.
  apply walk_step_stops in E1 as (stop & Hs & Hpn & Hct & Hrule).
  destruct k as [|k].
  - simpl in Hp, Hn. inversion Hp; inversion Hn; subst.
    apply walk_stops in Hw as (more & Hm & _).
    exists last_stop, stop. rewrite Hm, Hs, Hpre.
    split_and!.
    + rewrite <- !app_assoc. rewrite lookup_app_r by lia.
      by replace (length pre + 0 - length pre) with 0 by lia.
    + rewrite <- !app_assoc. rewrite lookup_app_r by lia.
      by replace (length pre + 1 - length pre) with 1 by lia.
    + by apply Hrule.
  - simpl in Hp, Hn.
    destruct (IH w1 w' (pre ++ [last_stop]) stop Hw) with
      (k := k) (prev_node := prev_node) (next_node := next_node)
      as (prev & st & H1 & H2 & H3).
    + by rewrite Hs, Hpre.
    + done.
    + by rewrite Hpn.
    + done.
    + exists prev, st. rewrite length_app in H1, H2. simpl in H1, H2.
      split_and!; [| |done].
      * rewrite <- H1. f_equal. lia.
      * rewrite <- H2. f_equal. lia.
Qed.
End WalkFacts.

Lemma tables_depot instance distance_data tb :
  tables instance distance_data = Some tb →
  parse_time_to_minutes (tw_start (depot_time_window (depot instance)))
  = Some (depot_tw_start tb)
  ∧ parse_time_to_minutes (tw_end (depot_time_window (depot instance)))
    = Some (depot_tw_end tb)
  ∧ depot_service tb = default 0%Q (depot_service_time (depot instance)).
Proof.
  unfold tables.
  destruct (parse_time_to_minutes (tw_start _)); cbn [mbind option_bind];
    [|done].
  destruct (parse_time_to_minutes (tw_end _)); cbn [mbind option_bind];
    [|done].
  by intros [= <-].
Qed.

(** The id to index dict holds, for a node, its last position in the
    list of nodes. *)
Lemma node_index_last distance_data node i :
  node_index_of distance_data !! node = Some i →
  index_of_node distance_data node i.
Proof.
  unfold node_index_of, index_of_node, Py.dict, Py.enumerate.
  generalize (nodes distance_data). intros l. revert i.
  induction l as [|x l IH] using rev_ind; intros i.
  { cbn. by rewrite lookup_empty. }
  rewrite imap_app, map_app, fold_left_app.
  cbn [imap map fold_left fst snd]. rewrite Nat.add_0_r.
  destruct (decide (x = node)) as [->|Hx].
  - rewrite lookup_insert_eq. intros [= <-]. split.
    + rewrite lookup_app_r by lia. by rewrite Nat.sub_diag.
    + intros i' Hi'. rewrite lookup_ge_None_2; [done|].
      rewrite length_app. cbn. lia.
  - rewrite lookup_insert_ne by done. intros [Hi Hlast]%IH. split.
    + by apply lookup_app_l_Some.
    + intros i' Hi'. destruct (decide (i' < length l)) as [Hlt|Hge].
      * rewrite lookup_app_l by done. by apply Hlast.
      * rewrite lookup_app_r by lia.
        destruct (i' - length l) as [|n]; cbn; [congruence | done].
Qed.

(** The id to customer dict holds, for an id, the last customer that
    carries it. *)
Lemma customers_by_id_last instance node c :
  customers_by_id instance !! node = Some c →
  customer_record instance node c.
Proof.
  unfold customers_by_id, customer_record, Py.dict.
  generalize (customers instance). intros l.
  induction l as [|x l IH] using rev_ind.
  { cbn. by rewrite lookup_empty. }
  rewrite map_app, fold_left_app. cbn [map fold_left fst snd].
  destruct (decide (cust_id x = node)) as [Hx|Hx].
  - rewrite Hx, lookup_insert_eq. intros [= ->].
    exists l, []. split_and!; [done | done | constructor].
  - rewrite lookup_insert_ne by done.
    intros (before & after & -> & Hid & Hall)%IH.
    exists before, (after ++ [x]). split_and!; [|done|].
    + by rewrite <- app_assoc.
    + apply Forall_app. split; [done|]. by constructor.
Qed.

(** A turn of the loop read on the inputs: the tables hold what the
    instance and the distance data say. *)
Lemma step_rule_stop_rule instance distance_data tb prev_node next_node
    prev stop :
  tables instance distance_data = Some tb →
  step_rule tb prev_node next_node prev stop →
  stop_rule instance distance_data prev_node next_node prev stop.
Proof.
  intros Ht (travel & tws & twe & svc & Hm & Hw & Hid & Htiming).
  destruct (tables_fields _ _ _ Ht) as (Hni & _ & Htm & Hc).
  destruct (tables_depot _ _ _ Ht) as (Hs & He & Hsvc).
  assert (Htravel : travel_time_between distance_data prev_node next_node
                      travel).
  { unfold matrix_at in Hm. rewrite Hni, Htm in Hm.
    destruct (node_index_of distance_data !! prev_node) as [i|] eqn:Ei;
      cbn [mbind option_bind] in Hm; [|done].
    destruct (node_index_of distance_data !! next_node) as [j|] eqn:Ej;
      cbn [mbind option_bind] in Hm; [|done].
    destruct (travel_time_matrix distance_data !! i) as [row|] eqn:Er;
      cbn [mbind option_bind] in Hm; [|done].
    exists i, j, row. split_and!; try done; by apply node_index_last. }
  unfold node_window in Hw.
  destruct (Z.eqb_spec next_node 0) as [H0|H0].
  - inversion Hw; subst tws twe svc.
    exists travel, (depot_tw_start tb), (depot_tw_end tb), (depot_service tb).
    split_and!; try done. left. by split_and!.
  - rewrite Hc in Hw.
    destruct (customers_by_id instance !! next_node) as [c|] eqn:Ec;
      cbn [mbind option_bind] in Hw; [|done].
    destruct (parse_time_to_minutes (tw_start (cust_time_window c)))
      as [opens|] eqn:Eo; cbn [mbind option_bind] in Hw; [|done].
    destruct (parse_time_to_minutes (tw_end (cust_time_window c)))
      as [closes|] eqn:Ecl; cbn [mbind option_bind] in Hw; [|done].
    inversion Hw; subst tws twe svc.
    exists travel, opens, closes, (cust_service_time c).
    split_and!; try done. right. split; [done|].
    exists c. split_and!; try done. by apply customers_by_id_last.
Qed.

(** C4.  In the stops evaluate_route returns, every stop after the first
    follows [stop_rule] from the stop before it.  The travel time is the
    entry of distance_data's travel_time_matrix at the positions the two
    node ids have in its list of nodes (never at the raw ids); the window
    and the service time are those of the depot of the instance for node 0
    and of the instance's customer with that id otherwise.  With raw =
    previous departure + travel time: arrival = max(window start, raw),
    wait = window start - raw when raw is earlier than the window start
    and 0 otherwise, violation = max(0, arrival - window end) with the
    arrival left as it is, and departure = arrival + service time. *)
Theorem evaluate_route_stop_rule (sequence : list Z) (instance : Instance)
    (distance_data : DistanceData) (m : Rvnd.Metrics) :
  Rvnd.evaluate_route sequence instance distance_data = Some m →
  length (Rvnd.stops m) = length sequence
  ∧ ∀ k prev_node next_node,
      sequence !! k = Some prev_node →
      sequence !! S k = Some next_node →
      ∃ prev stop,
        Rvnd.stops m !! k = Some prev
        ∧ Rvnd.stops m !! S k = Some stop
        ∧ stop_rule instance distance_data prev_node next_node prev stop.
Proof.
  unfold Rvnd.evaluate_route.
  destruct (tables instance distance_data) as [tb|] eqn:Et;
    cbn [mbind option_bind]; [|done].
  destruct sequence as [|first rest]; [done|].
  destruct (Rvnd.walk _ _ _) as [w|] eqn:Ew; cbn [mbind option_bind]; [|done].
  intros [= <-]. cbn [Rvnd.stops]. split.
  { apply walk_stops in Ew as (more & -> & Hl). cbn. by rewrite Hl. }
  intros k prev_node next_node Hp Hn.
  destruct (walk_rule tb rest _ _ [] _ Ew eq_refl eq_refl k prev_node
              next_node Hp Hn) as (prev & stop & H1 & H2 & Hrule).
  exists prev, stop. split_and!; [done | done |].
  by eapply step_rule_stop_rule.
Qed.

(** The seconds suffix: when the two minutes_to_clock print alike. *)
Lemma seconds_nonneg value :
  (0 <= (value - inject_Z (Qfloor value)) * 60)%Q.
Proof. pose proof (Qfloor_le value). nra. Qed.

Lemma round_small s : (0 <= s)%Q → (s <= 1 # 2)%Q → Py.round s = 0%Z.
Proof.
  intros H0 H1.
  assert (Hf : Qfloor s = 0%Z).
  { pose proof (Qfloor_le s) as Hl. pose proof (Qlt_floor s) as Hu.
    assert (Hlo : (-1 < Qfloor s)%Z).
    { rewrite Zlt_Qlt. rewrite inject_Z_plus in Hu.
      change (inject_Z 1) with 1%Q in Hu.
      change (inject_Z (-1)) with (-1)%Q. lra. }
    assert (Hhi : (Qfloor s < 1)%Z).
    { rewrite Zlt_Qlt. change (inject_Z 1) with 1%Q. lra. }
    lia. }
  unfold Py.round. rewrite Hf.
  destruct (s - inject_Z 0 ?= 1 # 2)%Q eqn:E; [done|done|].
  apply Qgt_alt in E. exfalso. unfold inject_Z in E. lra.
Qed.

Lemma round_zero s : (0 <= s)%Q → Py.round s = 0%Z → (s <= 1 # 2)%Q.
Proof.
  intros H0. unfold Py.round.
  assert (Hf : (0 <= Qfloor s)%Z).
  { change 0%Z with (Qfloor 0). by apply Qfloor_resp_le. }
  pose proof (Qfloor_le s) as Hl.
  destruct (s - inject_Z (Qfloor s) ?= 1 # 2)%Q eqn:E.
  - apply Qeq_alt in E. destruct (Z.even (Qfloor s)); intros Hr; [|lia].
    rewrite Hr in E. unfold inject_Z in E. lra.
  - apply Qlt_alt in E. intros Hr. rewrite Hr in E. unfold inject_Z in E. lra.
  - lia.
Qed.

Lemma clocks_agree (t : Q) :
  outside_band t → SweepNN.minutes_to_clock t = Rvnd.minutes_to_clock t.
Proof.
  unfold outside_band, seconds_of, Rvnd.minutes_to_clock,
    SweepNN.minutes_to_clock.
  pose proof (seconds_nonneg t) as H0. cbv zeta. revert H0.
  generalize ((t - inject_Z (Qfloor t)) * 60)%Q. intros s H0 Hband.
  destruct (Py.round s =? 0)%Z eqn:Er;
    [apply Z.eqb_eq in Er | apply Z.eqb_neq in Er];
    (destruct (Py.lt s (1 # 1000000)) eqn:El;
       [apply py_lt_spec in El | apply py_lt_false in El]).
  - done.
  - exfalso. apply round_zero in Er; [|done]. destruct Hband; lra.
  - exfalso. apply Er. apply round_small; [done | lra].
  - done.
Qed.

Section Simulation.
Variable tb : Tables.

Lemma nn_step_sim nw w x nw' :
  walks_agree tb nw w →
  SweepNN.nn_step tb nw x = Some nw' →
  ∃ w', Rvnd.walk_step tb w x = Some w' ∧ walks_agree tb nw' w'.
Proof.
  intros (Hs & Hd & Hv & Hp & Ht).
  unfold SweepNN.nn_step, Rvnd.walk_step. rewrite Hp, Ht.
  destruct (matrix_at _ (t_travel_matrix tb) _ _) as [travel|];
    cbn [mbind option_bind]; [|done].
  destruct (matrix_at _ (t_distance_matrix tb) _ _) as [distance|];
    cbn [mbind option_bind]; [|done].
  destruct (node_window tb x) as [[[tws twe] svc]|];
    cbn [mbind option_bind]; [|done].
  intros [= <-]. eexists. split; [done|].
  destruct Hs as (o1 & t1 & o2 & t2 & E1 & E2 & Ho & Hc & Hz & Hm & Hf).
  unfold walks_agree. cbn. rewrite E1, E2, Hd, Hv. split_and!; try done.
  eexists o1, (t1 ++ [_]), o2, (t2 ++ [_]).
  split; [reflexivity|]. split; [reflexivity|]. split_and!; try done.
  apply Forall2_app; [done|]. constructor; [|constructor].
  split; [by repeat split|].
  split; cbn [arrival arrival_str departure departure_str];
    apply clocks_agree.
Qed.

Lemma nn_walk_sim rest : ∀ nw w nw',
  walks_agree tb nw w →
  SweepNN.nn_walk tb nw rest = Some nw' →
  ∃ w', Rvnd.walk tb w rest = Some w' ∧ walks_agree tb nw' w'.
Proof.
  induction rest as [|x rest IH]; intros nw w nw' Hsim;
    cbn [SweepNN.nn_walk Rvnd.walk].
  { intros [= <-]. by exists w. }
  destruct (SweepNN.nn_step tb nw x) as [nw1|] eqn:E1;
    cbn [mbind option_bind]; [|done].
  destruct (nn_step_sim _ _ _ _ Hsim E1) as (w1 & -> & Hsim1).
  cbn [mbind option_bind]. by apply IH.
Qed.

Lemma start_sim : walks_agree tb (SweepNN.nn_start tb) (Rvnd.walk_start tb 0).
Proof.
  unfold walks_agree, SweepNN.nn_start, Rvnd.walk_start. cbn.
  split_and!; try done.
  eexists _, [], _, []. split_and!; try done.
  split; cbn [arrival arrival_str departure departure_str];
    apply clocks_agree.
Qed.

Lemma visit_extends fuel : ∀ unvisited route_sequence current_node visited,
  SweepNN.visit fuel tb unvisited route_sequence current_node
    = Some visited →
  ∃ more, visited = route_sequence ++ more.
Proof.
  induction fuel as [|fuel IH]; intros u rs cur v; cbn [SweepNN.visit].
  - destruct (elements u); [|done]. intros [= <-]. exists [].
    by rewrite app_nil_r.
  - destruct (elements u).
    { intros [= <-]. exists []. by rewrite app_nil_r. }
    destruct (SweepNN.nearest tb cur u) as [next|];
      cbn [mbind option_bind]; [|done].
    intros (more & ->)%IH. exists (next :: more). by rewrite <- app_assoc.
Qed.
End Simulation.

(** C3, amended.  When nearest_neighbor_route returns, evaluate_route
    returns on the constructed sequence, and the two agree on node_id,
    arrival, departure and wait of every stop, on the violation of every
    stop after the opening one, on total_distance and on
    total_tw_violation.  The opening stop's violation is
    max(0, depot start - depot end) in the constructor and 0 in
    evaluate_route: equal when the depot window does not end before it
    starts.  arrival_str and departure_str agree for every time whose
    seconds are below a millionth of a second or above half a second,
    whole minutes among them; for the times in between nothing is
    said. *)
Theorem nearest_neighbor_route_evaluation (cluster : SweepNN.Cluster)
    (instance : Instance) (distance_data : DistanceData)
    (r : SweepNN.NNRoute) :
  SweepNN.nearest_neighbor_route cluster instance distance_data = Some r →
  ∃ m opens closes,
    Rvnd.evaluate_route (SweepNN.sequence r) instance distance_data = Some m
    ∧ parse_time_to_minutes (tw_start (depot_time_window (depot instance)))
      = Some opens
    ∧ parse_time_to_minutes (tw_end (depot_time_window (depot instance)))
      = Some closes
    ∧ stops_agree opens closes (SweepNN.stops r) (Rvnd.stops m)
    ∧ ((opens ≤ closes)%Z →
         Forall2 same_stop (SweepNN.stops r) (Rvnd.stops m))
    ∧ SweepNN.total_distance r = Rvnd.total_distance m
    ∧ SweepNN.total_tw_violation r = Rvnd.total_tw_violation m.
Proof.
  unfold SweepNN.nearest_neighbor_route, Rvnd.evaluate_route.
  destruct (tables instance distance_data) as [tb|] eqn:Et;
    cbn [mbind option_bind]; [|done].
  destruct (tables_depot _ _ _ Et) as (Hopens & Hcloses & _).
  destruct (SweepNN.visit _ _ _ _ _) as [visited|] eqn:Ev;
    cbn [mbind option_bind]; [|done].
  apply visit_extends in Ev as (more & ->).
  cbn [app tail].
  destruct (SweepNN.nn_walk _ _ _) as [nw|] eqn:En;
    cbn [mbind option_bind]; [|done].
  intros [= <-]. cbn.
  destruct (nn_walk_sim tb _ _ _ _ (start_sim tb) En) as (w & -> & Hsim).
  cbn [mbind option_bind].
  eexists _, (depot_tw_start tb), (depot_tw_end tb).
  split; [done|]. split; [done|]. split; [done|].
  destruct Hsim as (Hs & Hd & Hv & _). cbn. split_and!; try done.
  intros Hle.
  destruct Hs as (o1 & t1 & o2 & t2 & -> & -> & Ho & Hc & Hz & Hm & Hf).
  constructor; [|done]. split; [|done]. split; [done|]. rewrite Hz, Hm.
  apply py_max_ge. rewrite Zle_Qle in Hle. lra.
Qed.


Section SweepFacts.
Variable fleets : list Fleet.

Lemma min_capacity_elem rest : ∀ best, min_capacity best rest ∈ best :: rest.
Proof.
  induction rest as [|f rest IH]; intros best; cbn [min_capacity].
  { apply list_elem_of_here. }
  specialize (IH (if Py.lt (fleet_capacity f) (fleet_capacity best)
                  then f else best)).
  apply elem_of_cons in IH as [->|IH].
  - destruct (Py.lt _ _); [apply list_elem_of_further|]; apply list_elem_of_here.
  - by do 2 apply list_elem_of_further.
Qed.

Lemma feasible_fleets_elem s demand f :
  f ∈ feasible_fleets fleets s demand ↔
  f ∈ fleets ∧ (0 < available_units s !!! fleet_id f)%Z
  ∧ (demand <= fleet_capacity f)%Q.
Proof.
  unfold feasible_fleets. rewrite list_elem_of_filter.
  rewrite Z.ltb_lt, Qle_bool_iff. tauto.
Qed.

Lemma sum_demands_snoc members c :
  sum_demands (members ++ [c]) = (sum_demands members + cust_demand c)%Q.
Proof. unfold sum_demands. by rewrite fold_left_app. Qed.

(** Two turns of the inner loop always settle a customer. *)
Lemma place_fuel s customer k :
  place fleets (2 + k) s customer = place fleets 2 s customer
  ∧ place fleets 2 s customer ≠ OutOfFuel.
Proof.
  cbn [place Nat.add].
  destruct (feasible_fleets fleets s _) as [|f fs]; [|done].
  destruct (current_customers s); [done|].
  destruct (current_vehicle s) as [vehicle|]; [|done].
  cbn [close_cluster current_customers].
  destruct (feasible_fleets fleets _ _) as [|f fs]; [|done].
  destruct k; done.
Qed.

Lemma emit_groups before s vehicle :
  sweep_inv fleets before s →
  current_customers s ≠ [] →
  current_vehicle s = Some vehicle →
  ∃ groups, Forall2 (cluster_of fleets) (clusters (emit s vehicle)) groups
            ∧ before = concat groups.
Proof.
  intros (groups & Hf & Hb & Hd & Hv) Hne Hveh.
  destruct (Hv Hne) as (f & Hf' & Hin & Hle).
  rewrite Hveh in Hf'. inversion Hf'; subst f.
  exists (groups ++ [current_customers s]). split.
  - cbn. apply Forall2_app; [done|]. constructor; [|constructor].
    split_and!; try done. by exists vehicle.
  - by rewrite concat_app, Hb; cbn; rewrite app_nil_r.
Qed.

Lemma close_cluster_inv before s vehicle :
  sweep_inv fleets before s →
  current_customers s ≠ [] →
  current_vehicle s = Some vehicle →
  sweep_inv fleets before (close_cluster s vehicle).
Proof.
  intros Hinv Hne Hveh.
  destruct (emit_groups _ _ _ Hinv Hne Hveh) as (groups & Hf & Hb).
  exists groups. cbn [close_cluster clusters current_customers current_demand].
  split_and!; try done. by rewrite app_nil_r.
Qed.

Lemma add_customer_inv before s customer f fs :
  sweep_inv fleets before s →
  feasible_fleets fleets s (current_demand s + cust_demand customer)
    = f :: fs →
  sweep_inv fleets (before ++ [customer])
    (add_customer s customer (current_demand s + cust_demand customer)
       (min_capacity f fs)).
Proof.
  intros (groups & Hf & Hb & Hd & Hv) Hfeas.
  exists groups. unfold add_customer.
  cbn [clusters current_customers current_demand current_vehicle].
  split_and!; try done.
  - by rewrite Hb, app_assoc.
  - by rewrite sum_demands_snoc, Hd.
  - intros _. eexists. split; [done|].
    pose proof (min_capacity_elem fs f) as Hin. rewrite <- Hfeas in Hin.
    apply feasible_fleets_elem in Hin as (Hin & _ & Hle). done.
Qed.

Lemma place_inv before s customer s' :
  sweep_inv fleets before s →
  place fleets 2 s customer = Ok s' →
  sweep_inv fleets (before ++ [customer]) s'.
Proof.
  intros Hinv. cbn [place].
  destruct (feasible_fleets fleets s _) as [|f fs] eqn:Ef.
  - destruct (current_customers s) as [|c0 cs] eqn:Ec; [done|].
    destruct (current_vehicle s) as [vehicle|] eqn:Ev; [|done].
    assert (Hne : current_customers s ≠ []) by (by rewrite Ec).
    pose proof (close_cluster_inv _ _ _ Hinv Hne Ev) as Hinv'.
    destruct (feasible_fleets fleets (close_cluster s vehicle) _)
      as [|f fs] eqn:Ef'; [done|].
    intros [= <-]. by apply add_customer_inv.
  - intros [= <-]. by apply add_customer_inv.
Qed.

Lemma sweep_inv_ok entries : ∀ before s s',
  sweep_inv fleets before s →
  sweep fleets s entries = Ok s' →
  sweep_inv fleets (before ++ (e_customer <$> entries)) s'.
Proof.
  induction entries as [|entry entries IH]; intros before s s' Hinv;
    cbn [sweep fmap list_fmap].
  { intros [= <-]. by rewrite app_nil_r. }
  destruct (place fleets 2 s (e_customer entry)) as [s1| |] eqn:Ep;
    [|done|done].
  intros Hs. apply (place_inv _ _ _ _ Hinv) in Ep.
  specialize (IH _ _ _ Ep Hs). by rewrite <- app_assoc in IH.
Qed.

Lemma sweep_init_inv : sweep_inv fleets [] (sweep_init fleets).
Proof. exists []. cbn. split_and!; done. Qed.
End SweepFacts.

Lemma insert_entry_Permutation e sorted : insert_entry e sorted ≡ₚ e :: sorted.
Proof.
  induction sorted as [|h t IH]; cbn [insert_entry]; [done|].
  destruct (Py.lt _ _); [|done]. rewrite IH. apply perm_swap.
Qed.

Lemma sort_by_angle_Permutation l : sort_by_angle l ≡ₚ l.
Proof.
  induction l as [|e l IH]; cbn; [done|].
  rewrite insert_entry_Permutation. by constructor.
Qed.

Lemma customer_angles_Permutation atan2 instance :
  e_customer <$> customer_angles atan2 instance ≡ₚ customers instance.
Proof.
  unfold customer_angles. rewrite sort_by_angle_Permutation.
  induction (customers instance) as [|c l IH]; cbn; [done|]. by constructor.
Qed.

Lemma cluster_of_ids fleets cls : ∀ groups,
  Forall2 (cluster_of fleets) cls groups →
  concat (customer_ids <$> cls) = cust_id <$> concat groups.
Proof.
  induction cls as [|cl cls IH]; intros groups Hf; inversion Hf; subst; cbn.
  { done. }
  rewrite fmap_app. f_equal; [|by apply IH].
  by match goal with H : cluster_of _ _ _ |- _ => destruct H as (-> & _) end.
Qed.

(** A successful run cuts the angle-ordered customers into consecutive
    groups, one per emitted cluster. *)
Lemma build_clusters_groups atan2 instance cls used :
  build_clusters atan2 instance = Ok (cls, used) →
  ∃ groups,
    Forall2 (cluster_of (fleet instance)) cls groups
    ∧ concat groups = e_customer <$> customer_angles atan2 instance.
Proof.
  unfold build_clusters.
  destruct (sweep _ _ _) as [s| |] eqn:Es; [|done|done].
  apply (sweep_inv_ok _ _ [] _ _ (sweep_init_inv _)) in Es.
  rewrite app_nil_l in Es.
  unfold flush.
  destruct (current_customers s) as [|c0 cs] eqn:Ec.
  - intros [= <- _]. destruct Es as (groups & Hf & Hb & _).
    exists groups. rewrite Ec, app_nil_r in Hb. done.
  - destruct (current_vehicle s) as [vehicle|] eqn:Ev; [|done].
    intros [= <- _].
    assert (Hne : current_customers s ≠ []) by (by rewrite Ec).
    destruct (emit_groups _ _ _ vehicle Es Hne Ev) as (groups & Hf & Hb).
    by exists groups.
Qed.

(** C5.  When build_clusters succeeds, the customer_ids lists of the
    emitted clusters, put end to end, are a permutation of the ids of the
    input customers. *)
Theorem clusters_partition_customers (atan2 : Q → Q → Q)
    (instance : Instance) (cls : list Cluster) (used : gmap string Z) :
  build_clusters atan2 instance = Ok (cls, used) →
  concat (customer_ids <$> cls) ≡ₚ cust_id <$> customers instance.
Proof.
  intros (groups & Hf & Hc)%build_clusters_groups.
  rewrite (cluster_of_ids _ _ _ Hf), Hc.
  by rewrite customer_angles_Permutation.
Qed.

Lemma NoDup_fmap_elem_eq {A B} (f : A → B) (l : list A) x y :
  NoDup (f <$> l) → x ∈ l → y ∈ l → f x = f y → x = y.
Proof.
  induction l as [|a l IH]; intros Hnd Hx Hy Heq.
  { by apply elem_of_nil in Hx. }
  rewrite fmap_cons in Hnd. apply NoDup_cons in Hnd as [Hnot Hnd].
  apply elem_of_cons in Hx as [->|Hx]; apply elem_of_cons in Hy as [->|Hy].
  - done.
  - exfalso. apply Hnot. rewrite Heq. by apply list_elem_of_fmap_2.
  - exfalso. apply Hnot. rewrite <- Heq. by apply list_elem_of_fmap_2.
  - by apply IH.
Qed.

(** C6.  When build_clusters succeeds, each emitted cluster's
    total_demand is at most the capacity of a fleet type of the instance
    whose id is the cluster's vehicle_type (of the one such fleet type when
    fleet ids are not repeated), and it is the sum of the demands of the
    customers listed in the cluster. *)
Theorem cluster_demand_within_capacity (atan2 : Q → Q → Q)
    (instance : Instance) (cls : list Cluster) (used : gmap string Z)
    (cl : Cluster) :
  build_clusters atan2 instance = Ok (cls, used) →
  cl ∈ cls →
  (∃ f, f ∈ fleet instance ∧ fleet_id f = vehicle_type cl
        ∧ (total_demand cl <= fleet_capacity f)%Q)
  ∧ (NoDup (fleet_id <$> fleet instance) →
     ∀ f, f ∈ fleet instance → fleet_id f = vehicle_type cl →
          (total_demand cl <= fleet_capacity f)%Q)
  ∧ ∃ members,
      (∀ c, c ∈ members → c ∈ customers instance)
      ∧ customer_ids cl = cust_id <$> members
      ∧ total_demand cl = sum_demands members.
Proof.
  intros (groups & Hf & Hc)%build_clusters_groups Hin.
  apply list_elem_of_lookup in Hin as [i Hi].
  destruct (Forall2_lookup_l _ _ _ _ _ Hf Hi) as (members & Hm & Hcl).
  destruct Hcl as (Hids & Hsum & _ & Hfleet). split; [done|]. split.
  { intros Hnd f Hfin Hid. destruct Hfleet as (f0 & Hf0 & Hid0 & Hle).
    by rewrite (NoDup_fmap_elem_eq fleet_id _ f f0 Hnd Hfin Hf0)
      by congruence. }
  exists members. split_and!; try done.
  intros c Hcm. rewrite <- customer_angles_Permutation, <- Hc.
  apply list_elem_of_In, in_concat. exists members.
  split; apply list_elem_of_In; [|done].
  apply list_elem_of_lookup. by exists i.
Qed.

Lemma dict_lookup_is_Some `{Countable K} {V} (l : list (K * V)) :
  ∀ (acc : gmap K V) k,
    is_Some (acc !! k) ∨ k ∈ l.*1 →
    is_Some (fold_left (λ m kv, <[kv.1 := kv.2]> m) l acc !! k).
Proof.
  induction l as [|[k0 v0] l IH]; intros acc k; cbn [fold_left fmap list_fmap].
  { intros [Hs|Hin]; [done | by apply elem_of_nil in Hin]. }
  intros [Hs|Hin]; apply IH; cbn.
  - left. apply lookup_insert_is_Some. destruct (decide (k0 = k)); auto.
  - apply elem_of_cons in Hin as [->|Hin]; [left|by right].
    rewrite lookup_insert_eq. by eexists.
Qed.

Section SweepPoints.
Variable fleets : list Fleet.
Variable entries : list Entry.

Lemma sweep_point_inv s l :
  sweep_point fleets entries s l →
  ∃ before,
    entries = before ++ l
    ∧ sweep_inv fleets (e_customer <$> before) s
    ∧ sweep fleets s l = sweep fleets (sweep_init fleets) entries.
Proof.
  induction 1 as [|s entry rest f fs _ IH Hfeas
                  |s entry rest vehicle _ IH Hfeas Hne Hveh].
  - exists []. split_and!; try done. apply sweep_init_inv.
  - destruct IH as (before & Hb & Hinv & Heq).
    exists (before ++ [entry]). split_and!.
    + by rewrite <- app_assoc.
    + rewrite fmap_app. by apply add_customer_inv.
    + rewrite <- Heq. cbn [sweep place]. by rewrite Hfeas.
  - destruct IH as (before & Hb & Hinv & Heq).
    exists before. split_and!; try done.
    + by apply close_cluster_inv.
    + rewrite <- Heq. cbn [sweep place]. rewrite Hfeas, Hveh.
      destruct (current_customers s) as [|c0 cs] eqn:Ec; [done|].
      cbn [close_cluster current_customers current_demand].
      by destruct (feasible_fleets fleets _ _).
Qed.

(** Every read [available_units[fleet["id"]]] finds its key. *)
Lemma sweep_point_units s l :
sweep_point fleets entries s l →
∀ f, f ∈ fleets → is_Some (available_units s !! fleet_id f).
Proof.
induction 1 as [|s entry rest f0 fs _ IH Hfeas
                |s entry rest vehicle _ IH Hfeas Hne Hveh]; intros f Hf.
- apply dict_lookup_is_Some. right.
  rewrite <- list_fmap_compose. by apply (list_elem_of_fmap_2 fleet_id).
- by apply IH.
- cbn. apply lookup_insert_is_Some.
  destruct (decide (fleet_id vehicle = fleet_id f)); auto.
Qed.

Lemma empty_cluster_stuck s customer :
  current_customers s = [] →
  current_demand s = sum_demands (current_customers s) →
  feasible_fleets fleets s (current_demand s + cust_demand customer) = [] ↔
  stuck fleets s customer.
Proof.
  intros Hc Hd. rewrite Hc in Hd. cbn in Hd. split.
  - intros Hfeas. split; [done|]. intros f Hin [Hu Hle].
    assert (Hf : f ∈ feasible_fleets fleets s
                       (current_demand s + cust_demand customer)).
    { apply feasible_fleets_elem. split_and!; try done. rewrite Hd. lra. }
    rewrite Hfeas in Hf. by apply elem_of_nil in Hf.
  - intros [_ Hno].
    destruct (feasible_fleets fleets s _) as [|f fs] eqn:Ef; [done|].
    assert (Hf : f ∈ feasible_fleets fleets s
                       (current_demand s + cust_demand customer))
      by (rewrite Ef; apply list_elem_of_here).
    apply feasible_fleets_elem in Hf as (Hin & Hu & Hle).
    exfalso. apply (Hno f Hin). split; [done|]. rewrite Hd in Hle. lra.
Qed.

Lemma sweep_raise_stuck l : ∀ s e,
  sweep_point fleets entries s l →
  sweep fleets s l = Raise e →
  e = RuntimeError no_vehicle_message
  ∧ ∃ s' entry rest,
      sweep_point fleets entries s' (entry :: rest)
      ∧ stuck fleets s' (e_customer entry).
Proof.
  induction l as [|entry rest IH]; intros s e Hpt; [done|].
  destruct (sweep_point_inv _ _ Hpt) as (before & _ & Hinv & _).
  destruct Hinv as (groups & Hf & Hb & Hd & Hv).
  cbn [sweep place].
  destruct (feasible_fleets fleets s _) as [|f fs] eqn:Ef.
  - destruct (current_customers s) as [|c0 cs] eqn:Ec.
    + intros [= <-]. split; [done|]. exists s, entry, rest.
      split; [done|]. apply empty_cluster_stuck; try done. by rewrite Ec.
    + destruct Hv as (vehicle & Hveh & _); [done|]. rewrite Hveh.
      assert (Hpt' : sweep_point fleets entries (close_cluster s vehicle)
                       (entry :: rest)).
      { apply point_closed; try done. by rewrite Ec. }
      destruct (feasible_fleets fleets (close_cluster s vehicle) _)
        as [|f fs] eqn:Ef'.
      * cbn [close_cluster current_customers].
        intros [= <-]. split; [done|].
        exists (close_cluster s vehicle), entry, rest. split; [done|].
        by apply empty_cluster_stuck.
      * apply IH. by eapply point_added.
  - apply IH. by eapply point_added.
Qed.

Lemma stuck_raises s entry rest :
  sweep_point fleets entries s (entry :: rest) →
  stuck fleets s (e_customer entry) →
  sweep fleets (sweep_init fleets) entries
    = Raise (RuntimeError no_vehicle_message)
  ∧ ∃ before,
      entries = before ++ entry :: rest
      ∧ concat (customer_ids <$> clusters s)
        = cust_id <$> (e_customer <$> before).
Proof.
  intros Hpt Hstuck.
  destruct (sweep_point_inv _ _ Hpt) as (before & Hb & Hinv & Heq).
  destruct Hinv as (groups & Hf & Hbefore & Hd & Hv).
  pose proof Hstuck as [Hc _]. split.
  - rewrite <- Heq. cbn [sweep place].
    apply empty_cluster_stuck in Hstuck; [|done|done].
    by rewrite Hstuck, Hc.
  - exists before. split; [done|].
    rewrite (cluster_of_ids _ _ _ Hf), Hbefore, Hc. by rewrite app_nil_r.
Qed.

Lemma flush_ok before s :
  sweep_inv fleets before s → ∃ s', flush s = Ok s'.
Proof.
  intros (groups & Hf & Hb & Hd & Hv). unfold flush.
  destruct (current_customers s); [by eexists|].
  destruct Hv as (f & -> & _); [done|]. by eexists.
Qed.
End SweepPoints.

(** C7.  build_clusters raises if and only if the sweep reaches a point
    where the open cluster is empty and no fleet type has both a unit left
    and capacity for the pending customer alone.  The exception is the
    RuntimeError of the source, nothing is returned, and the clusters built
    up to that point hold exactly the customers that come before the
    pending one in sweep order. *)
Theorem capacity_infeasible_iff (atan2 : Q → Q → Q) (instance : Instance) :
  ((∃ e, build_clusters atan2 instance = Raise e) ↔
   (∃ s entry rest,
      sweep_point (fleet instance) (customer_angles atan2 instance)
        s (entry :: rest)
      ∧ stuck (fleet instance) s (e_customer entry)))
  ∧ (∀ e, build_clusters atan2 instance = Raise e →
          e = RuntimeError no_vehicle_message)
  ∧ (∀ s entry rest,
       sweep_point (fleet instance) (customer_angles atan2 instance)
         s (entry :: rest) →
       stuck (fleet instance) s (e_customer entry) →
       build_clusters atan2 instance
         = Raise (RuntimeError no_vehicle_message)
       ∧ ∃ before,
           customer_angles atan2 instance = before ++ entry :: rest
           ∧ concat (customer_ids <$> clusters s)
             = cust_id <$> (e_customer <$> before)).
Proof.
  assert (Hraise : ∀ e, build_clusters atan2 instance = Raise e →
            e = RuntimeError no_vehicle_message
            ∧ ∃ s entry rest,
                sweep_point (fleet instance) (customer_angles atan2 instance)
                  s (entry :: rest)
                ∧ stuck (fleet instance) s (e_customer entry)).
  { intros e. unfold build_clusters.
    destruct (sweep _ _ _) as [s| |] eqn:Es; [| |done].
    - apply (sweep_inv_ok _ _ [] _ _ (sweep_init_inv _)) in Es.
      destruct (flush_ok _ _ _ Es) as (s' & ->). done.
    - intros [= <-]. eapply sweep_raise_stuck; [|done]. constructor. }
  assert (Hstuck : ∀ s entry rest,
       sweep_point (fleet instance) (customer_angles atan2 instance)
         s (entry :: rest) →
       stuck (fleet instance) s (e_customer entry) →
       build_clusters atan2 instance
         = Raise (RuntimeError no_vehicle_message)
       ∧ ∃ before,
           customer_angles atan2 instance = before ++ entry :: rest
           ∧ concat (customer_ids <$> clusters s)
             = cust_id <$> (e_customer <$> before)).
  { intros s entry rest Hpt Hst.
    destruct (stuck_raises _ _ _ _ _ Hpt Hst) as (Hr & Hb).
    split; [|done]. unfold build_clusters. by rewrite Hr. }
  split_and!; try done.
  - split.
    + intros (e & He). by apply Hraise in He as (_ & Hex).
    + intros (s & entry & rest & Hpt & Hst). eexists.
      by apply (Hstuck _ _ _ Hpt Hst).
  - intros e He. by apply Hraise in He as (-> & _).
Qed.

Lemma sweep_total fleets entries : ∀ s, sweep fleets s entries ≠ OutOfFuel.
Proof.
  induction entries as [|entry entries IH]; intros s; cbn [sweep]; [done|].
  pose proof (place_fuel fleets s (e_customer entry) 0) as [_ Hp].
  destruct (place fleets 2 s (e_customer entry)); [apply IH|done|done].
Qed.

Lemma build_clusters_total atan2 instance :
  build_clusters atan2 instance ≠ OutOfFuel.
Proof.
  unfold build_clusters.
  pose proof (sweep_total (fleet instance)
                (customer_angles atan2 instance)
                (sweep_init (fleet instance))) as Hs.
  destruct (sweep _ _ _) as [s| |]; [|done|done].
  unfold flush. destruct (current_customers s); [done|].
  by destruct (current_vehicle s).
Qed.

Section VisitFacts.
Variable tb : Tables.

Lemma min_key_elem rest : ∀ best, min_key best rest ∈ best :: rest.
Proof.
  induction rest as [|k rest IH]; intros best; cbn [min_key].
  { apply list_elem_of_here. }
  specialize (IH (if key_lt k best then k else best)).
  apply elem_of_cons in IH as [->|IH].
  - destruct (key_lt _ _); [apply list_elem_of_further|]; apply list_elem_of_here.
  - by do 2 apply list_elem_of_further.
Qed.

Lemma nearest_elem current_node (unvisited : gset Z) next_node :
  nearest tb current_node unvisited = Some next_node →
  next_node ∈ unvisited.
Proof.
  unfold nearest.
  destruct (mapM _ (elements unvisited)) as [keys|] eqn:Ek;
    cbn [mbind option_bind]; [|done].
  destruct keys as [|k rest]; [done|]. intros [= <-].
  apply mapM_Some in Ek.
  pose proof (min_key_elem rest k) as Hin.
  apply list_elem_of_lookup in Hin as [i Hi].
  destruct (Forall2_lookup_r _ _ _ _ _ Ek Hi) as (cid & Hc & Hkey).
  destruct (matrix_at _ _ _ _); cbn [mbind option_bind] in Hkey; [|done].
  inversion Hkey as [Hk]. cbn. apply elem_of_elements.
  apply list_elem_of_lookup. by exists i.
Qed.

(** [size unvisited] turns are enough: more fuel changes nothing. *)
Lemma visit_fuel fuel : ∀ (unvisited : gset Z) route_sequence current_node,
  size unvisited ≤ fuel →
  visit fuel tb unvisited route_sequence current_node
  = visit (size unvisited) tb unvisited route_sequence current_node.
Proof.
  induction fuel as [|fuel IH]; intros u rs cur Hsize.
  { by replace (size u) with 0 by lia. }
  assert (Hlen : length (elements u) = size u) by reflexivity.
  destruct (size u) as [|n] eqn:Esz; cbn [visit].
  { by destruct (elements u). }
  destruct (elements u) as [|x l] eqn:Eu; [done|].
  destruct (nearest tb cur u) as [next|] eqn:En; cbn [mbind option_bind];
    [|done].
  apply nearest_elem in En.
  assert (Hsz : size (u ∖ {[next]}) = n).
  { rewrite size_difference by set_solver. rewrite size_singleton. lia. }
  rewrite IH by lia. by rewrite Hsz.
Qed.
End VisitFacts.


Lemma same_ends_trans (a b c : list Z) :
  same_ends a b → same_ends b c → same_ends a c.
Proof.
  intros (H1 & H2 & H3) (H4 & H5 & H6). split_and!.
  - by rewrite H1.
  - by rewrite H2.
  - by rewrite H3.
Qed.

Lemma descent_same_ends instance distance_data l : ∀ s d,
  descent instance distance_data (s, d) l →
  same_ends (default (s, d) (last l)).1 s.
Proof.
  induction l as [|[s1 d1] l IH]; intros s d; cbn [descent].
  { intros _. by split_and!. }
  intros [(f & mv & m' & _ & Hmv & Ha & _) Hrest]. cbn in Hmv, Ha.
  destruct (candidate_same_ends _ _ _ Hmv) as (cand & Hc & Hends).
  rewrite Ha in Hc. inversion Hc; subst cand.
  specialize (IH _ _ Hrest). rewrite last_cons.
  destruct (last l); cbn in *; by eapply same_ends_trans.
Qed.

(** C9.  Every candidate rvnd_route looks at (apply_two_opt, apply_swap
    or apply_relocate on a generated move) is a permutation of the
    sequence it comes from, with the same first and last element.  So the
    sequence rvnd_route returns is a permutation of the input sequence
    with the same ends, and starts and ends with the depot id 0 when the
    input does. *)
Theorem candidates_keep_nodes_and_ends :
  (∀ f (sequence : list Z) move,
     move ∈ Rvnd.moves_of f sequence →
     ∃ candidate, Rvnd.apply_move f sequence move = Some candidate
                  ∧ same_ends candidate sequence)
  ∧ (∀ (Random : Type) instance distance_data route (rng : Random) m,
       Rvnd.rvnd_route instance distance_data route rng = Some m →
       same_ends (Rvnd.sequence m) (r_sequence route)
       ∧ (head (r_sequence route) = Some 0%Z →
          last (r_sequence route) = Some 0%Z →
          head (Rvnd.sequence m) = Some 0%Z
          ∧ last (Rvnd.sequence m) = Some 0%Z)).
Proof.
  split; [apply candidate_same_ends|].
  intros Random instance distance_data route rng m Hrun.
  assert (Hends : same_ends (Rvnd.sequence m) (r_sequence route)).
  { unfold Rvnd.rvnd_route in Hrun.
    destruct (Rvnd.evaluate_route (r_sequence route) _ _) as [baseline|];
      cbn [mbind option_bind] in Hrun; [|done].
    destruct (Rvnd.search _ _ _ _ _) as [[s' d']|] eqn:Es;
      cbn [mbind option_bind] in Hrun; [|done].
    destruct (search_descent _ _ _ _ _ _ _ Es) as (Hd & Hl & _).
    apply descent_same_ends in Hd. rewrite Hl in Hd. cbn in Hd.
    by rewrite (evaluate_sequence _ _ _ _ Hrun). }
  split; [done|]. destruct Hends as (_ & Hh & Hl).
  intros H0 H1. by rewrite Hh, Hl.
Qed.


(** ** The statements on the worked instances *)

(** The two-customer instance: one cluster of demand 10, customer 1
    visited first (equal distances, lower id), and no move accepted by the
    search since the reversed route is as long. *)
Example corner_clusters :
  build_clusters atan2_linear corner_instance
  = Ok ([corner_cluster], {["van" := 1%Z]}).
Proof. vm_compute. reflexivity. Qed.

Example corner_initial_route :
  sequence <$> nearest_neighbor_route corner_cluster corner_instance
                 corner_distance_data
  = Some [0; 1; 2; 0]%Z.
Proof. vm_compute. reflexivity. Qed.

Example corner_search :
  Rvnd.rvnd_accepted corner_instance corner_distance_data
    {| r_cluster_id := 1; r_vehicle_type := "van";
       r_sequence := [0; 1; 2; 0]%Z |} = []
  ∧ Rvnd.sequence <$>
      Rvnd.rvnd_route corner_instance corner_distance_data
        {| r_cluster_id := 1; r_vehicle_type := "van";
           r_sequence := [0; 1; 2; 0]%Z |} ()
    = Some [0; 1; 2; 0]%Z.
Proof. split; vm_compute; reflexivity. Qed.

Lemma relocate_reinserts_witness :
  (1, 3) ∈ Rvnd.relocate_moves [0; 2; 1; 3; 0]%Z
  ∧ Rvnd.apply_relocate [0; 2; 1; 3; 0]%Z 1 3 = Some [0; 1; 2; 3; 0]%Z.
Proof.
  assert (Hin : (1, 3) ∈ Rvnd.relocate_moves [0; 2; 1; 3; 0]%Z).
  { vm_compute. repeat constructor. }
  split; [exact Hin|].
  destruct (relocate_reinserts _ _ _ Hin) as (_ & node & new & _ & Hnew & _).
  vm_compute. reflexivity.
Defined.

Lemma line_rvnd_run :
  Rvnd.rvnd_route line_instance line_distance_data line_route ()
  = Some line_improved.
Proof. vm_compute. reflexivity. Qed.

Lemma accepted_moves_decrease_witness :
  Rvnd.rvnd_route line_instance line_distance_data line_route ()
  = Some line_improved
  ∧ ∃ baseline,
      Rvnd.evaluate_route (r_sequence line_route) line_instance
        line_distance_data = Some baseline
      ∧ descent line_instance line_distance_data
          (r_sequence line_route, Rvnd.total_distance baseline)
          (Rvnd.rvnd_accepted line_instance line_distance_data line_route)
      ∧ (Rvnd.total_distance line_improved
         <= Rvnd.total_distance baseline)%Q.
Proof.
  split; [exact line_rvnd_run|].
  destruct (accepted_moves_decrease line_instance line_distance_data
              line_route () line_improved line_rvnd_run)
    as (baseline & H1 & H2 & _ & H3).
  exists baseline. exact (conj H1 (conj H2 H3)).
Defined.


Lemma line_nearest_neighbor_run :
  nearest_neighbor_route line_cluster line_instance line_distance_data
  = Some line_initial.
Proof. vm_compute. reflexivity. Qed.

(** On the line instance every time is a whole minute: the stops agree
    on every field, the clock strings included. *)
Lemma nearest_neighbor_route_evaluation_witness :
  nearest_neighbor_route line_cluster line_instance line_distance_data
  = Some line_initial
  ∧ ∃ m,
      Rvnd.evaluate_route (sequence line_initial) line_instance
        line_distance_data = Some m
      ∧ Forall2 same_stop (stops line_initial) (Rvnd.stops m)
      ∧ total_distance line_initial = Rvnd.total_distance m
      ∧ total_tw_violation line_initial = Rvnd.total_tw_violation m
      ∧ ∃ a b,
          stops line_initial !! 1 = Some a
          ∧ Rvnd.stops m !! 1 = Some b
          ∧ arrival_str a = arrival_str b.
Proof.
  split; [exact line_nearest_neighbor_run|].
  destruct (nearest_neighbor_route_evaluation line_cluster line_instance
              line_distance_data line_initial line_nearest_neighbor_run)
    as (m & opens & closes & He & Ho & Hc & _ & Hall & Hd & Hv).
  assert (Hle : (opens ≤ closes)%Z).
  { vm_compute in Ho, Hc. inversion Ho. inversion Hc. lia. }
  exists m. refine (conj He (conj (Hall Hle) (conj Hd (conj Hv _)))).
  destruct (stops line_initial !! 1) as [a|] eqn:Ea;
    [|vm_compute in Ea; discriminate Ea].
  destruct (Forall2_lookup_l _ _ _ _ _ (Hall Hle) Ea)
    as (b & Hb & _ & Hclock).
  exists a, b. refine (conj eq_refl (conj Hb (proj1 Hclock _))).
  vm_compute in Ea. inversion Ea. left. vm_compute. reflexivity.
Defined.

Lemma line_evaluation :
  Rvnd.evaluate_route [0; 1; 2; 3; 0]%Z line_instance line_distance_data
  = Some line_improved.
Proof. vm_compute. reflexivity. Qed.

Lemma window_evaluation :
  Rvnd.evaluate_route [0; 1; 2; 0]%Z window_instance line_distance_data
  = Some window_evaluated.
Proof. vm_compute. reflexivity. Qed.

(** On [window_instance] the vehicle waits at customer 1 and is late at
    customer 2. *)
Lemma evaluate_route_stop_rule_witness :
  Rvnd.evaluate_route [0; 1; 2; 0]%Z window_instance line_distance_data
  = Some window_evaluated
  ∧ (∃ prev stop,
       Rvnd.stops window_evaluated !! 0 = Some prev
       ∧ Rvnd.stops window_evaluated !! 1 = Some stop
       ∧ stop_rule window_instance line_distance_data 0 1 prev stop
       ∧ (0 < wait stop)%Q)
  ∧ (∃ prev stop,
       Rvnd.stops window_evaluated !! 1 = Some prev
       ∧ Rvnd.stops window_evaluated !! 2 = Some stop
       ∧ stop_rule window_instance line_distance_data 1 2 prev stop
       ∧ (0 < violation stop)%Q).
Proof.
  split; [exact window_evaluation|].
  destruct (evaluate_route_stop_rule _ _ _ _ window_evaluation)
    as (_ & Hrule).
  split.
  - destruct (Hrule 0 0%Z 1%Z eq_refl eq_refl)
      as (prev & stop & H1 & H2 & H3).
    exists prev, stop. refine (conj H1 (conj H2 (conj H3 _))).
    vm_compute in H2. inversion H2. vm_compute. reflexivity.
  - destruct (Hrule 1 1%Z 2%Z eq_refl eq_refl)
      as (prev & stop & H1 & H2 & H3).
    exists prev, stop. refine (conj H1 (conj H2 (conj H3 _))).
    vm_compute in H2. inversion H2. vm_compute. reflexivity.
Defined.

Lemma line_build_clusters :
  build_clusters atan2_linear line_instance
  = Ok (line_clusters, {["van" := 2%Z]}).
Proof. vm_compute. reflexivity. Qed.

Lemma clusters_partition_customers_witness :
  build_clusters atan2_linear line_instance
  = Ok (line_clusters, {["van" := 2%Z]})
  ∧ concat (customer_ids <$> line_clusters)
    ≡ₚ cust_id <$> customers line_instance.
Proof.
  split; [exact line_build_clusters|].
  exact (clusters_partition_customers _ _ _ _ line_build_clusters).
Defined.

Lemma cluster_demand_within_capacity_witness :
  build_clusters atan2_linear line_instance
  = Ok (line_clusters, {["van" := 2%Z]})
  ∧ line_cluster ∈ line_clusters
  ∧ ∃ f, f ∈ fleet line_instance ∧ fleet_id f = vehicle_type line_cluster
         ∧ (total_demand line_cluster <= fleet_capacity f)%Q.
Proof.
  assert (Hin : line_cluster ∈ line_clusters) by apply list_elem_of_here.
  split; [exact line_build_clusters|]. split; [exact Hin|].
  exact (proj1 (cluster_demand_within_capacity _ _ _ _ _
                  line_build_clusters Hin)).
Defined.

Lemma heavy_customer_stuck :
  stuck (fleet heavy_instance) (sweep_init (fleet heavy_instance))
    (e_customer heavy_entry).
Proof.
  split; [done|]. intros f Hin [_ Hle].
  apply list_elem_of_singleton in Hin. subst f. cbn in Hle. lra.
Qed.

Lemma capacity_infeasible_iff_witness :
  sweep_point (fleet heavy_instance)
    (customer_angles atan2_linear heavy_instance)
    (sweep_init (fleet heavy_instance)) [heavy_entry]
  ∧ stuck (fleet heavy_instance) (sweep_init (fleet heavy_instance))
      (e_customer heavy_entry)
  ∧ build_clusters atan2_linear heavy_instance
    = Raise (RuntimeError no_vehicle_message).
Proof.
  assert (Hpt : sweep_point (fleet heavy_instance)
                  (customer_angles atan2_linear heavy_instance)
                  (sweep_init (fleet heavy_instance)) [heavy_entry])
    by exact (point_start _ _).
  split; [exact Hpt|]. split; [exact heavy_customer_stuck|].
  exact (proj1 (proj2 (proj2 (capacity_infeasible_iff atan2_linear
                                heavy_instance))
                  _ _ _ Hpt heavy_customer_stuck)).
Defined.

Lemma candidates_keep_nodes_and_ends_witness :
  Rvnd.rvnd_route line_instance line_distance_data line_route ()
  = Some line_improved
  ∧ same_ends (Rvnd.sequence line_improved) (r_sequence line_route).
Proof.
  split; [exact line_rvnd_run|].
  exact (proj1 (proj2 candidates_keep_nodes_and_ends _ _ _ _ _ _
                  line_rvnd_run)).
Defined.


(** C3 as stated fails: for the opening stop nearest_neighbor_route
    computes the violation max(0, depot start - depot end), and
    evaluate_route sets it to 0.  With a depot window from 18:00 to 08:00
    the two opening stops carry 600 and 0. *)
Lemma nn_opening_violation_differs :
  ∃ r m,
    nearest_neighbor_route near_cluster closed_instance line_distance_data
    = Some r
    ∧ Rvnd.evaluate_route (sequence r) closed_instance line_distance_data
      = Some m
    ∧ violation <$> stops r !! 0 = Some 600%Q
    ∧ violation <$> Rvnd.stops m !! 0 = Some 0%Q
    ∧ stops r ≠ Rvnd.stops m.
Proof.
  eexists _, _. split; [vm_compute; reflexivity|].
  split; [vm_compute; reflexivity|].
  split; [vm_compute; reflexivity|].
  split; [vm_compute; reflexivity|]. vm_compute. discriminate.
Qed.

(** Inside the band the clock strings differ: a travel time of 0.005
    minutes is printed with a seconds suffix by the minutes_to_clock of
    sweep_nn.py and without one by that of rvnd.py. *)
Lemma nn_clock_strings_differ :
  ∃ r m,
    nearest_neighbor_route near_cluster near_instance near_distance_data
    = Some r
    ∧ Rvnd.evaluate_route (sequence r) near_instance near_distance_data
      = Some m
    ∧ stops r ≠ Rvnd.stops m.
Proof.
  eexists _, _. split; [vm_compute; reflexivity|].
  split; [vm_compute; reflexivity|]. vm_compute. discriminate.
Qed.

(** ** Further properties of the code *)

Lemma plain_char_facts c :
  plain_char c = true →
  Py.is_space c = false ∧ Ascii.eqb c ":" = false ∧ Ascii.eqb c "+" = false
  ∧ Ascii.eqb c "_" = false.
Proof.
  destruct c as [[] [] [] [] [] [] [] []]; vm_compute; intros H;
    try discriminate H; repeat split.
Qed.

Lemma uint_chars_plain u :
  Forall (λ c, plain_char c = true)
    (list_ascii_of_string (NilEmpty.string_of_uint u)).
Proof. induction u; cbn; constructor; done. Qed.

Lemma digits_of_uint_acc u : ∀ acc : positive,
  Py.digits (list_ascii_of_string (NilEmpty.string_of_uint u))
    (Z.pos acc) true
  = Some (Z.pos (Pos.of_uint_acc u acc)).
Proof.
  induction u; intros acc; cbn [NilEmpty.string_of_uint list_ascii_of_string
    Py.digits Pos.of_uint_acc]; [done|..];
    (change (Py.digit_val _) with (Some 0%Z) ||
     change (Py.digit_val _) with (Some 1%Z) ||
     change (Py.digit_val _) with (Some 2%Z) ||
     change (Py.digit_val _) with (Some 3%Z) ||
     change (Py.digit_val _) with (Some 4%Z) ||
     change (Py.digit_val _) with (Some 5%Z) ||
     change (Py.digit_val _) with (Some 6%Z) ||
     change (Py.digit_val _) with (Some 7%Z) ||
     change (Py.digit_val _) with (Some 8%Z) ||
     change (Py.digit_val _) with (Some 9%Z));
    cbv iota beta; rewrite <- IHu; f_equal; lia.
Qed.

Lemma digits_of_uint u : ∀ b,
  (u = Decimal.Nil → b = true) →
  Py.digits (list_ascii_of_string (NilEmpty.string_of_uint u)) 0 b
  = Some (Z.of_N (Pos.of_uint u)).
Proof.
  induction u; intros b Hb;
    cbn [NilEmpty.string_of_uint list_ascii_of_string Py.digits Pos.of_uint];
    [by rewrite Hb| |..].
  - change (Py.digit_val "0") with (Some 0%Z). cbv iota beta.
    change (10 * 0 + 0)%Z with 0%Z. by apply IHu.
  - change (Py.digit_val "1") with (Some 1%Z). cbv iota beta.
    apply (digits_of_uint_acc u 1).
  - change (Py.digit_val "2") with (Some 2%Z). cbv iota beta.
    apply (digits_of_uint_acc u 2).
  - change (Py.digit_val "3") with (Some 3%Z). cbv iota beta.
    apply (digits_of_uint_acc u 3).
  - change (Py.digit_val "4") with (Some 4%Z). cbv iota beta.
    apply (digits_of_uint_acc u 4).
  - change (Py.digit_val "5") with (Some 5%Z). cbv iota beta.
    apply (digits_of_uint_acc u 5).
  - change (Py.digit_val "6") with (Some 6%Z). cbv iota beta.
    apply (digits_of_uint_acc u 6).
  - change (Py.digit_val "7") with (Some 7%Z). cbv iota beta.
    apply (digits_of_uint_acc u 7).
  - change (Py.digit_val "8") with (Some 8%Z). cbv iota beta.
    apply (digits_of_uint_acc u 8).
  - change (Py.digit_val "9") with (Some 9%Z). cbv iota beta.
    apply (digits_of_uint_acc u 9).
Qed.

Lemma lstrip_plain l :
  Forall (λ c, plain_char c = true) l → Py.lstrip l = l.
Proof.
  destruct l as [|c l]; [done|]. intros H. inversion H as [|? ? Hc _]; subst.
  cbn. by destruct (plain_char_facts c Hc) as (-> & _).
Qed.

Lemma strip_plain l :
  Forall (λ c, plain_char c = true) l → Py.strip l = l.
Proof.
  intros H. unfold Py.strip. rewrite (lstrip_plain l H).
  rewrite lstrip_plain; [apply rev_involutive|].
  by apply List.Forall_rev.
Qed.

Lemma string_of_uint_nonnil u :
  u ≠ Decimal.Nil →
  NilZero.string_of_uint u = NilEmpty.string_of_uint u.
Proof. by destruct u. Qed.

(** Printing an integer and reading it back with [int()]. *)
Lemma int_string_of_int k :
  Py.int (NilZero.string_of_int (Z.to_int k)) = Some k.
Proof.
  unfold Py.int. destruct k as [|p|p]; [done| |].
  - cbn [Z.to_int NilZero.string_of_int].
    rewrite string_of_uint_nonnil by apply Unsigned.to_uint_nonnil.
    rewrite strip_plain by apply uint_chars_plain.
    pose proof (uint_chars_plain (Pos.to_uint p)) as Hpl.
    pose proof (digits_of_uint (Pos.to_uint p) false) as Hd.
    destruct (list_ascii_of_string _) as [|c r] eqn:E.
    { destruct (Pos.to_uint p) eqn:Eu; try discriminate E.
      by destruct (Unsigned.to_uint_nonnil p). }
    inversion Hpl as [|? ? Hc _]; subst.
    destruct (plain_char_facts c Hc) as (_ & _ & Hplus & _). rewrite Hplus.
    destruct (Ascii.eqb c "-") eqn:Em.
    { apply Ascii.eqb_eq in Em. subst c.
      destruct (Pos.to_uint p) eqn:Eu; discriminate E. }
    rewrite Hd; [by rewrite Unsigned.of_to|].
    intros Hn. by destruct (Unsigned.to_uint_nonnil p).
  - cbn [Z.to_int NilZero.string_of_int].
    rewrite string_of_uint_nonnil by apply Unsigned.to_uint_nonnil.
    cbn [list_ascii_of_string].
    rewrite strip_plain
      by (constructor; [done | apply uint_chars_plain]).
    change (Ascii.eqb "-" "-") with true. cbv iota.
    rewrite digits_of_uint; [by rewrite Unsigned.of_to|].
    intros Hn. by destruct (Unsigned.to_uint_nonnil p).
Qed.

Lemma fmt_02d_chars k :
  Forall (λ c, plain_char c = true) (list_ascii_of_string (Py.fmt_02d k)).
Proof.
  assert (H : Forall (λ c, plain_char c = true)
                (list_ascii_of_string (NilZero.string_of_int (Z.to_int k)))).
  { destruct k as [|p|p]; cbn [Z.to_int NilZero.string_of_int].
    - by repeat constructor.
    - rewrite string_of_uint_nonnil by apply Unsigned.to_uint_nonnil.
      apply uint_chars_plain.
    - rewrite string_of_uint_nonnil by apply Unsigned.to_uint_nonnil.
      constructor; [done | apply uint_chars_plain]. }
  unfold Py.fmt_02d. destruct (_ <? 2)%nat; [|done].
  by constructor.
Qed.

Lemma int_fmt_02d k : Py.int (Py.fmt_02d k) = Some k.
Proof.
  pose proof (int_string_of_int k) as Hint.
  unfold Py.fmt_02d.
  destruct (String.length _ <? 2)%nat eqn:El; [|done].
  (* one character: a single digit, printed behind a zero *)
  destruct k as [|p|p]; [done| |].
  - revert Hint El. cbn [Z.to_int NilZero.string_of_int].
    rewrite string_of_uint_nonnil by apply Unsigned.to_uint_nonnil.
    pose proof (digits_of_uint (Pos.to_uint p) true (λ _, eq_refl)) as Hd.
    pose proof (uint_chars_plain (Pos.to_uint p)) as Hpl.
    intros _ _. unfold Py.int. cbn [list_ascii_of_string].
    rewrite strip_plain by (by constructor).
    change (Ascii.eqb "0" "-") with false.
    change (Ascii.eqb "0" "+") with false. cbv iota.
    cbn [Py.digits]. change (Py.digit_val "0") with (Some 0%Z). cbv iota beta.
    change (10 * 0 + 0)%Z with 0%Z. rewrite Hd. by rewrite Unsigned.of_to.
  - exfalso. revert El. cbn [Z.to_int NilZero.string_of_int].
    rewrite string_of_uint_nonnil by apply Unsigned.to_uint_nonnil.
    pose proof (Unsigned.to_uint_nonnil p).
    destruct (Pos.to_uint p); done.
Qed.

Lemma split_colon_plain a b :
  Forall (λ c, plain_char c = true) (list_ascii_of_string a) →
  Forall (λ c, plain_char c = true) (list_ascii_of_string b) →
  Py.split_colon (a +:+ ":" +:+ b) = [a; b].
Proof.
  intros Ha Hb.
  assert (Hsb : Py.split_colon b = [b]).
  { clear Ha. induction b as [|c b IH]; [done|].
    cbn [list_ascii_of_string] in Hb. inversion Hb as [|? ? Hc Hr]; subst.
    cbn [Py.split_colon].
    destruct (plain_char_facts c Hc) as (_ & -> & _). by rewrite IH. }
  induction a as [|c a IH].
  - change (EmptyString +:+ ":" +:+ b) with (String ":" b).
    cbn [Py.split_colon]. change (Ascii.eqb ":" ":") with true. cbv iota.
    by rewrite Hsb.
  - cbn [list_ascii_of_string] in Ha. inversion Ha as [|? ? Hc Hr]; subst.
    change (String c a +:+ ":" +:+ b) with (String c (a +:+ ":" +:+ b)).
    cbn [Py.split_colon].
    destruct (plain_char_facts c Hc) as (_ & -> & _).
    by rewrite IH.
Qed.

Lemma string_length_app (a b : string) :
  String.length (a +:+ b) = (String.length a + String.length b)%nat.
Proof.
  induction a as [|c a IH]; [done|].
  change (String c a +:+ b) with (String c (a +:+ b)). cbn. by rewrite IH.
Qed.

(** X2: the clock strings of the two files differ exactly when the
    fractional part of the value is between a millionth of a second and
    half a second. *)
Theorem clocks_differ_iff (value : Q) :
  Rvnd.minutes_to_clock value ≠ SweepNN.minutes_to_clock value ↔
  (1 # 1000000 <= (value - inject_Z (Qfloor value)) * 60)%Q
  ∧ ((value - inject_Z (Qfloor value)) * 60 <= 1 # 2)%Q.
Proof.
  unfold Rvnd.minutes_to_clock, SweepNN.minutes_to_clock.
  pose proof (seconds_nonneg value) as H0.
  generalize (Py.fmt_02d (Py.floordiv60 value)),
    (Py.fmt_02d (Qfloor (Py.mod60 value))). intros hh mm.
  revert H0. generalize ((value - inject_Z (Qfloor value)) * 60)%Q.
  intros s H0.
  destruct (Py.round s =? 0)%Z eqn:Er;
    [apply Z.eqb_eq in Er | apply Z.eqb_neq in Er];
    (destruct (Py.lt s (1 # 1000000)) eqn:El;
       [apply py_lt_spec in El | apply py_lt_false in El]).
  - split; [done|]. intros [Hlo _]. lra.
  - split; [intros _; split; [done | by apply round_zero]|].
    intros _ Heq. apply (f_equal String.length) in Heq.
    rewrite !string_length_app in Heq. cbn in Heq. lia.
  - exfalso. apply Er. apply round_small; [done | lra].
  - split; [done|]. intros [_ Hhi]. exfalso. apply Er. by apply round_small.
Qed.

Lemma string_app_assoc (a b c : string) : (a +:+ b) +:+ c = a +:+ (b +:+ c).
Proof.
  induction a as [|x a IH]; [done|].
  change ((String x a +:+ b) +:+ c) with (String x ((a +:+ b) +:+ c)).
  by rewrite IH.
Qed.

Lemma list_ascii_app (a b : string) :
  list_ascii_of_string (a +:+ b)
  = list_ascii_of_string a ++ list_ascii_of_string b.
Proof.
  induction a as [|x a IH]; [done|].
  change (String x a +:+ b) with (String x (a +:+ b)).
  cbn [list_ascii_of_string app]. by rewrite IH.
Qed.

Lemma split_colon_once a b :
  Forall (λ c, plain_char c = true) (list_ascii_of_string a) →
  Forall (λ c, Ascii.eqb c ":" = false) (list_ascii_of_string b) →
  Py.split_colon (a +:+ ":" +:+ b) = [a; b].
Proof.
  intros Ha Hb.
  assert (Hsb : Py.split_colon b = [b]).
  { clear Ha. induction b as [|c b IH]; [done|].
    cbn [list_ascii_of_string] in Hb. inversion Hb as [|? ? Hc Hr]; subst.
    cbn [Py.split_colon]. rewrite Hc. by rewrite IH. }
  induction a as [|c a IH].
  - change (EmptyString +:+ ":" +:+ b) with (String ":" b).
    cbn [Py.split_colon]. change (Ascii.eqb ":" ":") with true. cbv iota.
    by rewrite Hsb.
  - cbn [list_ascii_of_string] in Ha. inversion Ha as [|? ? Hc Hr]; subst.
    change (String c a +:+ ":" +:+ b) with (String c (a +:+ ":" +:+ b)).
    cbn [Py.split_colon].
    destruct (plain_char_facts c Hc) as (_ & -> & _).
    by rewrite IH.
Qed.

Lemma digits_stray c l : c ∈ l →
  Py.digit_val c = None → Ascii.eqb c "_" = false →
  ∀ acc after_digit, Py.digits l acc after_digit = None.
Proof.
  intros Hin Hd Hu. induction l as [|x l IH]; [inversion Hin|].
  intros acc after_digit. cbn [Py.digits].
  apply elem_of_cons in Hin. destruct Hin as [<-|Hin].
  - by rewrite Hd, Hu.
  - destruct (Py.digit_val x); [by apply IH|].
    destruct (Ascii.eqb x "_" && after_digit); [by apply IH | done].
Qed.

Lemma lstrip_head c l : Py.is_space c = false → Py.lstrip (c :: l) = c :: l.
Proof. intros H. cbn [Py.lstrip]. by rewrite H. Qed.

(** A string closed by the letter s is no integer literal. *)
Lemma int_seconds_suffix (a : string) :
  Forall (λ c, Py.is_space c = false) (list_ascii_of_string a) →
  Py.int (a +:+ "s") = None.
Proof.
  intros Ha. unfold Py.int. rewrite list_ascii_app.
  change (list_ascii_of_string "s") with ["s"%char].
  set (l := list_ascii_of_string a) in *.
  assert (Py.strip (l ++ ["s"%char]) = l ++ ["s"%char]) as ->.
  { unfold Py.strip.
    assert (Py.lstrip (l ++ ["s"%char]) = l ++ ["s"%char]) as ->.
    { destruct Ha as [|c l' Hc _]; [done|]. by apply lstrip_head. }
    rewrite rev_app_distr. cbn [rev app].
    rewrite lstrip_head by done.
    change ("s"%char :: rev l) with (["s"%char] ++ rev l).
    by rewrite rev_app_distr, rev_involutive. }
  assert (∀ acc b, Py.digits (l ++ ["s"%char]) acc b = None) as Hall.
  { apply (digits_stray "s"); [|done|done].
    apply elem_of_app. right. apply list_elem_of_here. }
  destruct l as [|c l']; [done|].
  change ((c :: l') ++ ["s"%char]) with (c :: (l' ++ ["s"%char])) in *.
  assert (∀ acc b, Py.digits (l' ++ ["s"%char]) acc b = None) as Htail.
  { apply (digits_stray "s"); [|done|done].
    apply elem_of_app. right. apply list_elem_of_here. }
  cbv iota beta.
  destruct (Ascii.eqb c "-"); [by rewrite Htail|].
  destruct (Ascii.eqb c "+"); [by rewrite Htail|].
  apply Hall.
Qed.

Lemma plain_no_space l :
  Forall (λ c, plain_char c = true) l →
  Forall (λ c, Py.is_space c = false) l.
Proof.
  intros H. eapply Forall_impl; [exact H|].
  intros c Hc. by destruct (plain_char_facts c Hc).
Qed.

Lemma plain_no_colon l :
  Forall (λ c, plain_char c = true) l →
  Forall (λ c, Ascii.eqb c ":" = false) l.
Proof.
  intros H. eapply Forall_impl; [exact H|].
  intros c Hc. by destruct (plain_char_facts c Hc) as (_ & ? & _).
Qed.

(** A clock string with a seconds suffix is refused by the parser. *)
Lemma parse_clock_seconds h m s :
  parse_time_to_minutes
    (Py.fmt_02d h +:+ ":" +:+ Py.fmt_02d m +:+ "+" +:+ Py.fmt_02d s +:+ "s")
  = None.
Proof.
  unfold parse_time_to_minutes.
  rewrite split_colon_once; [|apply fmt_02d_chars|].
  - rewrite int_fmt_02d. cbn [mbind option_bind].
    rewrite <- !string_app_assoc, int_seconds_suffix; [done|].
    rewrite !list_ascii_app. apply Forall_app. split.
    + apply Forall_app. split; [apply plain_no_space, fmt_02d_chars|].
      by repeat constructor.
    + apply plain_no_space, fmt_02d_chars.
  - rewrite !list_ascii_app.
    repeat (apply Forall_app; split);
      try (apply plain_no_colon, fmt_02d_chars); by repeat constructor.
Qed.

Lemma Qfloor_unique q k :
  (inject_Z k <= q)%Q → (q < inject_Z (k + 1))%Q → Qfloor q = k.
Proof.
  intros Hle Hlt.
  pose proof (Qfloor_le q) as H1. pose proof (Qlt_floor q) as H2.
  assert (inject_Z k < inject_Z (Qfloor q + 1))%Q as Ha by lra.
  assert (inject_Z (Qfloor q) < inject_Z (k + 1))%Q as Hb by lra.
  rewrite <- Zlt_Qlt in Ha, Hb. lia.
Qed.

Lemma clock_minutes value :
  (Py.floordiv60 value * 60 + Qfloor (Py.mod60 value))%Z = Qfloor value.
Proof.
  unfold Py.mod60. set (h := Py.floordiv60 value).
  assert (Qfloor (value - 60 * inject_Z h) = (Qfloor value - 60 * h)%Z) as ->.
  { pose proof (Qfloor_le value) as H1. pose proof (Qlt_floor value) as H2.
    apply Qfloor_unique.
    - unfold Z.sub. rewrite inject_Z_plus, inject_Z_opp, inject_Z_mult.
      change (inject_Z 60) with 60%Q. lra.
    - replace (Qfloor value - 60 * h + 1)%Z
        with ((Qfloor value + 1) + - (60 * h))%Z by lia.
      rewrite inject_Z_plus, inject_Z_opp, inject_Z_mult.
      change (inject_Z 60) with 60%Q. lra. }
  lia.
Qed.

(** X1: a clock string parses back to the whole minutes it was made from
    exactly when it carries no seconds suffix; with the suffix the parser
    raises. *)
Theorem clock_parses_without_seconds (value : Q) :
  parse_time_to_minutes (Rvnd.minutes_to_clock value)
  = (if (Py.round ((value - inject_Z (Qfloor value)) * 60) =? 0)%Z
     then Some (Qfloor value) else None)
  ∧ parse_time_to_minutes (SweepNN.minutes_to_clock value)
    = (if Py.lt ((value - inject_Z (Qfloor value)) * 60) (1 # 1000000)
       then Some (Qfloor value) else None).
Proof.
  assert (parse_time_to_minutes
            (Py.fmt_02d (Py.floordiv60 value) +:+ ":"
             +:+ Py.fmt_02d (Qfloor (Py.mod60 value)))
          = Some (Qfloor value)) as Hplain.
  { unfold parse_time_to_minutes.
    rewrite split_colon_plain by apply fmt_02d_chars.
    rewrite !int_fmt_02d. cbn [mbind option_bind].
    by rewrite clock_minutes. }
  unfold Rvnd.minutes_to_clock, SweepNN.minutes_to_clock. cbv zeta.
  split.
  - destruct (_ =? 0)%Z; [exact Hplain | apply parse_clock_seconds].
  - destruct (Py.lt _ _); [exact Hplain | apply parse_clock_seconds].
Qed.

Lemma py_max_l a b : (a <= Py.max a b)%Q.
Proof.
  destruct (Qlt_le_dec a b) as [H|H].
  - rewrite py_max_lt by done. lra.
  - rewrite py_max_ge by done. lra.
Qed.

Lemma py_max_r a b : (b <= Py.max a b)%Q.
Proof.
  destruct (Qlt_le_dec a b) as [H|H].
  - rewrite py_max_lt by done. lra.
  - rewrite py_max_ge by done. lra.
Qed.

Section WalkTotals.
Variable tb : Tables.

Lemma walk_step_fields w x w' :
  Rvnd.walk_step tb w x = Some w' →
  ∃ travel distance stop,
    matrix_at (node_index tb) (t_travel_matrix tb) (Rvnd.w_prev_node w) x
      = Some travel
    ∧ matrix_at (node_index tb) (t_distance_matrix tb)
        (Rvnd.w_prev_node w) x = Some distance
    ∧ Rvnd.w_stops w' = Rvnd.w_stops w ++ [stop]
    ∧ node_id stop = x
    ∧ (0 <= wait stop)%Q ∧ (0 <= violation stop)%Q
    ∧ Rvnd.w_total_distance w' = (Rvnd.w_total_distance w + distance)%Q
    ∧ Rvnd.w_travel_time_sum w' = (Rvnd.w_travel_time_sum w + travel)%Q
    ∧ Rvnd.w_violation_sum w'
      = (if (x =? 0)%Z then Rvnd.w_violation_sum w
         else (Rvnd.w_violation_sum w + violation stop)%Q)
    ∧ Rvnd.w_prev_node w' = x.
Proof.
  unfold Rvnd.walk_step.
  destruct (matrix_at _ (t_travel_matrix tb) _ _) as [travel|];
    cbn [mbind option_bind]; [|done].
  destruct (matrix_at _ (t_distance_matrix tb) _ _) as [distance|];
    cbn [mbind option_bind]; [|done].
  destruct (node_window tb x) as [[[tws twe] svc]|];
    cbn [mbind option_bind]; [|done].
  intros [= <-]. eexists travel, distance, _. cbn.
  split_and!; try done; try apply py_max_l.
  by destruct (x =? 0)%Z.
Qed.

Lemma walk_totals rest : ∀ w w',
  Rvnd.walk tb w rest = Some w' →
  leg_sum (node_index tb) (t_distance_matrix tb) (Rvnd.w_prev_node w) rest
    (Rvnd.w_total_distance w) = Some (Rvnd.w_total_distance w')
  ∧ leg_sum (node_index tb) (t_travel_matrix tb) (Rvnd.w_prev_node w) rest
      (Rvnd.w_travel_time_sum w) = Some (Rvnd.w_travel_time_sum w')
  ∧ node_id <$> Rvnd.w_stops w' = (node_id <$> Rvnd.w_stops w) ++ rest.
Proof.
  induction rest as [|x rest IH]; intros w w'; cbn [Rvnd.walk leg_sum].
  { intros [= <-]. by rewrite app_nil_r. }
  destruct (Rvnd.walk_step tb w x) as [w1|] eqn:E1;
    cbn [mbind option_bind]; [|done].
  intros Hw. destruct (IH _ _ Hw) as (Hd & Ht & Hn).
  apply walk_step_fields in E1
    as (travel & distance & stop & -> & -> & Hs & Hid & _ & _
        & Hd1 & Ht1 & _ & Hp).
  cbn [mbind option_bind]. rewrite Hp, Hd1 in Hd. rewrite Hp, Ht1 in Ht.
  split_and!; try done.
  rewrite Hn, Hs, fmap_app, <- app_assoc. cbn. by rewrite Hid.
Qed.

Lemma walk_nonneg rest : ∀ w w',
  Rvnd.walk tb w rest = Some w' →
  Forall (λ stop, (0 <= wait stop)%Q ∧ (0 <= violation stop)%Q)
    (Rvnd.w_stops w) →
  Rvnd.w_violation_sum w = customer_violations (Rvnd.w_stops w) →
  Forall (λ stop, (0 <= wait stop)%Q ∧ (0 <= violation stop)%Q)
    (Rvnd.w_stops w')
  ∧ Rvnd.w_violation_sum w' = customer_violations (Rvnd.w_stops w').
Proof.
  induction rest as [|x rest IH]; intros w w'; cbn [Rvnd.walk].
  { by intros [= <-]. }
  destruct (Rvnd.walk_step tb w x) as [w1|] eqn:E1;
    cbn [mbind option_bind]; [|done].
  intros Hw Hall Hsum.
  apply walk_step_fields in E1
    as (travel & distance & stop & _ & _ & Hs & Hid & Hwait & Hviol
        & _ & _ & Hv & _).
  apply (IH _ _ Hw).
  - rewrite Hs. apply Forall_app. split; [done|]. by constructor.
  - rewrite Hv, Hs. unfold customer_violations.
    rewrite fold_left_app. cbn. rewrite Hid.
    by rewrite Hsum.
Qed.
End WalkTotals.

Lemma customer_violations_nonneg stops :
  Forall (λ stop, (0 <= wait stop)%Q ∧ (0 <= violation stop)%Q) stops →
  (0 <= customer_violations stops)%Q.
Proof.
  unfold customer_violations.
  assert (H : ∀ acc, (0 <= acc)%Q →
            Forall (λ stop, (0 <= wait stop)%Q ∧ (0 <= violation stop)%Q)
              stops →
            (0 <= fold_left (λ acc stop,
                               if (node_id stop =? 0)%Z then acc
                               else (acc + violation stop)%Q) stops acc)%Q).
  { induction stops as [|st stops IH]; intros acc Hacc Hall; [done|].
    inversion Hall as [|? ? [_ Hv] Hrest]; subst. cbn. apply IH; [|done].
    destruct (node_id st =? 0)%Z; lra. }
  apply H. lra.
Qed.

(** X3: a successful evaluation returns the sequence it was given and one
    stop per node of it; the stops carry the nodes of the sequence, except
    that the opening stop is labelled node 0 whatever the first node is. *)
Theorem evaluate_route_shape (sequence : list Z) (instance : Instance)
    (distance_data : DistanceData) (m : Rvnd.Metrics) :
  Rvnd.evaluate_route sequence instance distance_data = Some m →
  Rvnd.sequence m = sequence
  ∧ length (Rvnd.stops m) = length sequence
  ∧ node_id <$> Rvnd.stops m = 0%Z :: tail sequence.
Proof.
  unfold Rvnd.evaluate_route.
  destruct (tables instance distance_data) as [tb|];
    cbn [mbind option_bind]; [|done].
  destruct sequence as [|first rest]; [done|].
  destruct (Rvnd.walk _ _ _) as [w|] eqn:Ew; cbn [mbind option_bind]; [|done].
  intros [= <-]. cbn [Rvnd.sequence Rvnd.stops tail].
  apply walk_totals in Ew as (_ & _ & Hn). cbn in Hn.
  split; [done|]. split; [|done].
  apply (f_equal length) in Hn. rewrite length_fmap in Hn. by rewrite Hn.
Qed.

(** X4: the two edge totals are the sums of the matrix entries along the
    legs. *)
Theorem evaluate_route_leg_sums (sequence : list Z) (instance : Instance)
    (distance_data : DistanceData) (m : Rvnd.Metrics) :
  Rvnd.evaluate_route sequence instance distance_data = Some m →
  ∃ first rest,
    sequence = first :: rest
    ∧ leg_sum (node_index_of distance_data) (distance_matrix distance_data)
        first rest 0 = Some (Rvnd.total_distance m)
    ∧ leg_sum (node_index_of distance_data)
        (travel_time_matrix distance_data) first rest 0
      = Some (Rvnd.total_travel_time m).
Proof.
  unfold Rvnd.evaluate_route.
  destruct (tables instance distance_data) as [tb|] eqn:Et;
    cbn [mbind option_bind]; [|done].
  destruct sequence as [|first rest]; [done|].
  destruct (Rvnd.walk _ _ _) as [w|] eqn:Ew; cbn [mbind option_bind]; [|done].
  intros [= <-]. exists first, rest. split; [done|].
  apply tables_fields in Et as (Hi & Hd & Ht & _).
  apply walk_totals in Ew as (H1 & H2 & _). cbn in H1, H2.
  by rewrite <- Hi, <- Hd, <- Ht.
Qed.

(** X5: waits and violations are never negative, and the violation total
    adds up the violations of the customer stops only. *)
Theorem evaluate_route_penalties (sequence : list Z) (instance : Instance)
    (distance_data : DistanceData) (m : Rvnd.Metrics) :
  Rvnd.evaluate_route sequence instance distance_data = Some m →
  Forall (λ stop, (0 <= wait stop)%Q ∧ (0 <= violation stop)%Q)
    (Rvnd.stops m)
  ∧ Rvnd.total_tw_violation m = customer_violations (Rvnd.stops m)
  ∧ (0 <= Rvnd.total_tw_violation m)%Q.
Proof.
  unfold Rvnd.evaluate_route.
  destruct (tables instance distance_data) as [tb|];
    cbn [mbind option_bind]; [|done].
  destruct sequence as [|first rest]; [done|].
  destruct (Rvnd.walk _ _ _) as [w|] eqn:Ew; cbn [mbind option_bind]; [|done].
  intros [= <-]. cbn [Rvnd.stops Rvnd.total_tw_violation].
  apply walk_nonneg in Ew as (Hall & Hsum).
  - split_and!; try done. rewrite Hsum. by apply customer_violations_nonneg.
  - constructor; [|done]. split; apply Qle_refl.
  - done.
Qed.

Section DictFacts.
Context `{Countable K} {V : Type}.
Implicit Types (l : list (K * V)) (acc : gmap K V).

Lemma dict_fold_lookup l : ∀ acc k v,
  fold_left (λ m kv, <[kv.1 := kv.2]> m) l acc !! k = Some v →
  (k, v) ∈ l ∨ acc !! k = Some v.
Proof.
  induction l as [|[k0 v0] l IH]; intros acc k v; cbn [fold_left].
  { by right. }
  intros [Hin|Hacc]%IH; [left; by apply list_elem_of_further|].
  cbn in Hacc. destruct (decide (k0 = k)) as [->|Hne].
  - rewrite lookup_insert_eq in Hacc. inversion Hacc; subst.
    left. apply list_elem_of_here.
  - rewrite lookup_insert_ne in Hacc by done. by right.
Qed.

Lemma dict_lookup_elem l k v : Py.dict l !! k = Some v → (k, v) ∈ l.
Proof.
  intros [Hin|Hacc]%dict_fold_lookup; [done|].
  by rewrite lookup_empty in Hacc.
Qed.

Lemma dict_lookup_None l k : k ∉ l.*1 → Py.dict l !! k = None.
Proof.
  intros Hnot. destruct (Py.dict l !! k) as [v|] eqn:E; [|done].
  exfalso. apply Hnot. apply dict_lookup_elem in E.
  by apply (list_elem_of_fmap_2 fst) in E.
Qed.
End DictFacts.

Lemma node_index_keys distance_data :
  (map (λ p : nat * Z, (p.2, p.1)) (Py.enumerate (nodes distance_data))).*1
  = nodes distance_data.
Proof.
  unfold Py.enumerate. generalize (nodes distance_data). intros l.
  assert (Hg : ∀ (g : nat → nat),
            (map (λ p : nat * Z, (p.2, p.1))
               (imap (λ idx a, (g idx, a)) l)).*1 = l).
  { induction l as [|a l IH]; intros g; [done|]. cbn. f_equal.
    apply (IH (g ∘ S)). }
  apply (Hg (λ i, i)).
Qed.

Lemma node_index_unknown distance_data x :
  x ∉ nodes distance_data → node_index_of distance_data !! x = None.
Proof.
  intros Hx. apply dict_lookup_None. by rewrite node_index_keys.
Qed.

Lemma customers_by_id_elem instance x c :
  customers_by_id instance !! x = Some c →
  c ∈ customers instance ∧ cust_id c = x.
Proof.
  intros Hc%dict_lookup_elem.
  apply list_elem_of_fmap in Hc as (c' & Heq & Hin). by inversion Heq; subst.
Qed.

Section WalkLookups.
Variable tb : Tables.

Lemma matrix_at_known matrix a b d :
  matrix_at (node_index tb) matrix a b = Some d →
  is_Some (node_index tb !! a) ∧ is_Some (node_index tb !! b)
  ∧ ∃ row, row ∈ matrix ∧ d ∈ row.
Proof.
  unfold matrix_at.
  destruct (node_index tb !! a) as [ia|]; cbn [mbind option_bind]; [|done].
  destruct (node_index tb !! b) as [ib|]; cbn [mbind option_bind]; [|done].
  destruct (matrix !! ia) as [row|] eqn:Er; cbn [mbind option_bind];
    [|done].
  intros Hd. split_and!; try by eexists.
  exists row. split; by eapply list_elem_of_lookup_2.
Qed.

Lemma walk_known rest : ∀ w w',
  Rvnd.walk tb w rest = Some w' →
  (rest ≠ [] → is_Some (node_index tb !! Rvnd.w_prev_node w))
  ∧ Forall (λ x, is_Some (node_index tb !! x)
                 ∧ (x ≠ 0%Z → is_Some (t_customers tb !! x))) rest.
Proof.
  induction rest as [|x rest IH]; intros w w'; cbn [Rvnd.walk]; [done|].
  destruct (Rvnd.walk_step tb w x) as [w1|] eqn:E1;
    cbn [mbind option_bind]; [|done].
  intros Hw. destruct (IH _ _ Hw) as (_ & Hall).
  unfold Rvnd.walk_step in E1.
  destruct (matrix_at _ (t_travel_matrix tb) _ _) as [travel|] eqn:Et;
    cbn [mbind option_bind] in E1; [|done].
  destruct (matrix_at _ (t_distance_matrix tb) _ _) as [distance|];
    cbn [mbind option_bind] in E1; [|done].
  destruct (node_window tb x) as [[[tws twe] svc]|] eqn:Ew;
    cbn [mbind option_bind] in E1; [|done].
  apply matrix_at_known in Et as (Ha & Hb & _).
  split; [done|]. constructor; [|done]. split; [done|].
  intros Hx. unfold node_window in Ew.
  apply Z.eqb_neq in Hx. rewrite Hx in Ew.
  by destruct (t_customers tb !! x).
Qed.
End WalkLookups.

(** X6: a sequence of two or more nodes evaluates only if every node is
    listed in distance_data["nodes"] and every node other than 0 after
    the first is a customer of the instance. *)
Theorem evaluate_route_known_nodes (sequence : list Z) (instance : Instance)
    (distance_data : DistanceData) (m : Rvnd.Metrics) :
  Rvnd.evaluate_route sequence instance distance_data = Some m →
  2 ≤ length sequence →
  (∀ x, x ∈ sequence → x ∈ nodes distance_data)
  ∧ (∀ x, x ∈ tail sequence → x ≠ 0%Z →
          x ∈ cust_id <$> customers instance).
Proof.
  unfold Rvnd.evaluate_route.
  destruct (tables instance distance_data) as [tb|] eqn:Et;
    cbn [mbind option_bind]; [|done].
  destruct sequence as [|first rest]; [done|].
  destruct (Rvnd.walk _ _ _) as [w|] eqn:Ew; cbn [mbind option_bind]; [|done].
  intros _ Hlen. cbn in Hlen.
  apply tables_fields in Et as (Hi & _ & _ & Hc).
  apply walk_known in Ew as (Hfirst & Hall). cbn in Hfirst.
  rewrite Hi in Hfirst. rewrite Forall_forall in Hall.
  assert (Hknown : ∀ x, is_Some (node_index_of distance_data !! x) →
                        x ∈ nodes distance_data).
  { intros x [i Hx]. destruct (decide (x ∈ nodes distance_data)); [done|].
    by rewrite node_index_unknown in Hx. }
  split.
  - intros x [->|Hx]%elem_of_cons.
    + apply Hknown, Hfirst. by destruct rest; [cbn in Hlen; lia|].
    + apply Hknown. rewrite <- Hi. by apply Hall.
  - cbn [tail]. intros x Hx H0. destruct (Hall x Hx) as (_ & Hcust).
    destruct (Hcust H0) as [c Hcx]. rewrite Hc in Hcx.
    apply customers_by_id_elem in Hcx as (Hin & <-).
    by apply list_elem_of_fmap_2.
Qed.

(** X7: the empty sequence is refused; a sequence of one node is never
    looked up and gives the opening stop alone, with all totals zero. *)
Theorem evaluate_route_short (instance : Instance)
    (distance_data : DistanceData) (x : Z) :
  Rvnd.evaluate_route [] instance distance_data = None
  ∧ ∀ tb, tables instance distance_data = Some tb →
      ∃ m opening,
        Rvnd.evaluate_route [x] instance distance_data = Some m
        ∧ Rvnd.stops m = [opening]
        ∧ node_id opening = 0%Z
        ∧ arrival opening = inject_Z (depot_tw_start tb)
        ∧ departure opening
          = (inject_Z (depot_tw_start tb) + depot_service tb)%Q
        ∧ Rvnd.total_distance m = 0%Q
        ∧ Rvnd.total_travel_time m = 0%Q
        ∧ Rvnd.total_tw_violation m = 0%Q.
Proof.
  split.
  - unfold Rvnd.evaluate_route. by destruct (tables _ _).
  - intros tb Ht. unfold Rvnd.evaluate_route. rewrite Ht.
    cbn. eexists _, _. by split_and!.
Qed.

Lemma node_window_service instance distance_data tb x tws twe svc :
  tables instance distance_data = Some tb →
  (0 <= default 0 (depot_service_time (depot instance)))%Q →
  Forall (λ c, (0 <= cust_service_time c)%Q) (customers instance) →
  node_window tb x = Some (tws, twe, svc) →
  (0 <= svc)%Q.
Proof.
  intros Ht Hdepot Hcust. unfold node_window.
  assert (Hs : depot_service tb
               = default 0%Q (depot_service_time (depot instance))).
  { revert Ht. unfold tables.
    destruct (parse_time_to_minutes (tw_start _));
      cbn [mbind option_bind]; [|done].
    destruct (parse_time_to_minutes (tw_end _));
      cbn [mbind option_bind]; [|done].
    by intros [= <-]. }
  apply tables_fields in Ht as (_ & _ & _ & Hc).
  destruct (x =? 0)%Z.
  - intros [= _ _ <-]. by rewrite Hs.
  - rewrite Hc. destruct (customers_by_id instance !! x) as [c|] eqn:Ec;
      cbn [mbind option_bind]; [|done].
    destruct (parse_time_to_minutes (tw_start _));
      cbn [mbind option_bind]; [|done].
    destruct (parse_time_to_minutes (tw_end _));
      cbn [mbind option_bind]; [|done].
    intros [= _ _ <-]. apply customers_by_id_elem in Ec as (Hin & _).
    rewrite Forall_forall in Hcust. by apply Hcust.
Qed.

(** X8: with no negative travel time and no negative service time, time
    never runs backwards along the stops: each stop is left no earlier
    than it is reached, and reached no earlier than the stop before it is
    left. *)
Theorem evaluate_route_chronology (sequence : list Z) (instance : Instance)
    (distance_data : DistanceData) (m : Rvnd.Metrics) :
  Rvnd.evaluate_route sequence instance distance_data = Some m →
  Forall (Forall (λ t, (0 <= t)%Q)) (travel_time_matrix distance_data) →
  (0 <= default 0 (depot_service_time (depot instance)))%Q →
  Forall (λ c, (0 <= cust_service_time c)%Q) (customers instance) →
  Forall (λ stop, (arrival stop <= departure stop)%Q) (Rvnd.stops m)
  ∧ ∀ k a b, Rvnd.stops m !! k = Some a → Rvnd.stops m !! S k = Some b →
             (departure a <= arrival b)%Q.
Proof.
  intros Hev Htravel Hdepot Hcust.
  assert (Hlegs : ∃ tb, tables instance distance_data = Some tb
            ∧ t_travel_matrix tb = travel_time_matrix distance_data
            ∧ length (Rvnd.stops m) = length sequence
            ∧ (∃ opening, Rvnd.stops m !! 0 = Some opening
                 ∧ (arrival opening <= departure opening)%Q)
            ∧ ∀ k prev_node next_node,
                sequence !! k = Some prev_node →
                sequence !! S k = Some next_node →
                ∃ prev stop,
                  Rvnd.stops m !! k = Some prev
                  ∧ Rvnd.stops m !! S k = Some stop
                  ∧ step_rule tb prev_node next_node prev stop).
  { revert Hev. unfold Rvnd.evaluate_route.
    destruct (tables instance distance_data) as [tb|] eqn:Et;
      cbn [mbind option_bind]; [|done].
    destruct sequence as [|first rest]; [done|].
    destruct (Rvnd.walk _ _ _) as [w|] eqn:Ew; cbn [mbind option_bind];
      [|done].
    intros [= <-]. exists tb. cbn [Rvnd.stops].
    split; [done|]. split; [by apply tables_fields in Et as (_ & _ & -> & _)|].
    pose proof (walk_stops _ _ _ _ Ew) as (more & Hm & Hl).
    split; [rewrite Hm; cbn; by rewrite Hl|]. split.
    - rewrite Hm. eexists. split; [done|]. cbn.
      assert (Hs : depot_service tb
                   = default 0%Q (depot_service_time (depot instance))).
      { revert Et. unfold tables.
        destruct (parse_time_to_minutes (tw_start _));
          cbn [mbind option_bind]; [|done].
        destruct (parse_time_to_minutes (tw_end _));
          cbn [mbind option_bind]; [|done].
        by intros [= <-]. }
      rewrite Hs. lra.
    - intros k prev_node next_node Hp Hn.
      eapply (walk_rule tb rest _ _ [] _ Ew) with (k := k); cbn; done. }
  destruct Hlegs as (tb & Ht & Hmat & Hlen & (opening & Ho & Hoa) & Hrule).
  assert (Hstep : ∀ k a b, Rvnd.stops m !! k = Some a →
            Rvnd.stops m !! S k = Some b →
            (departure a <= arrival b)%Q ∧ (arrival b <= departure b)%Q).
  { intros k a b Ha Hb.
    destruct (lookup_lt_is_Some_2 sequence k) as [pn Hpn].
    { apply lookup_lt_Some in Ha. lia. }
    destruct (lookup_lt_is_Some_2 sequence (S k)) as [nn Hnn].
    { apply lookup_lt_Some in Hb. lia. }
    destruct (Hrule k pn nn Hpn Hnn) as (a' & b' & Ha' & Hb' & Hr).
    rewrite Ha in Ha'. rewrite Hb in Hb'. inversion Ha'; inversion Hb'.
    subst a' b'.
    destruct Hr as (travel & tws & twe & svc & Hm & Hw & _ & Harr & _ & _
                    & _ & _ & Hdep).
    pose proof (node_window_service _ _ _ _ _ _ _ Ht Hdepot Hcust Hw) as Hsvc.
    apply matrix_at_known in Hm as (_ & _ & row & Hrow & Hin).
    rewrite Hmat in Hrow. rewrite Forall_forall in Htravel.
    pose proof (proj1 (Forall_forall _ _) (Htravel row Hrow) travel Hin)
      as Htr.
    pose proof (py_max_r tws (departure a + travel)) as Hmax.
    cbv beta in Htr. rewrite <- Harr in Hmax. rewrite Hdep. split; lra. }
  split.
  - apply Forall_lookup. intros k st Hst. destruct k as [|k].
    + rewrite Ho in Hst. by inversion Hst; subst.
    + destruct (lookup_lt_is_Some_2 (Rvnd.stops m) k) as [a Ha].
      { apply lookup_lt_Some in Hst. lia. }
      by destruct (Hstep k a st Ha Hst).
  - intros k a b Ha Hb. by destruct (Hstep k a b Ha Hb).
Qed.

Lemma apply_two_opt_parts (l1 l2 l3 : list Z) i j :
  length l1 = i → length l2 = j + 1 - i →
  i ≤ j + 1 →
  Rvnd.apply_two_opt (l1 ++ l2 ++ l3) i j = l1 ++ rev l2 ++ l3.
Proof.
  intros H1 H2 Hij. unfold Rvnd.apply_two_opt.
  assert (Hd : drop (j + 1) (l1 ++ l2 ++ l3) = l3).
  { rewrite app_assoc. apply drop_app_length'. rewrite length_app. lia. }
  rewrite Hd.
  rewrite take_app_length' by done.
  rewrite drop_app_length' by done.
  by rewrite take_app_length' by done.
Qed.

(** X9: reversing the same segment twice gives the sequence back. *)
Theorem apply_two_opt_involutive (sequence : list Z) (i j : nat) :
  i ≤ j → j < length sequence →
  Rvnd.apply_two_opt (Rvnd.apply_two_opt sequence i j) i j = sequence.
Proof.
  intros Hij Hj.
  rewrite <- (take_drop i sequence) at 1 2.
  rewrite <- (take_drop (j + 1 - i) (drop i sequence)) at 1 2.
  assert (H1 : length (take i sequence) = i) by (rewrite length_take; lia).
  assert (H2 : length (take (j + 1 - i) (drop i sequence)) = j + 1 - i)
    by (rewrite length_take, length_drop; lia).
  rewrite (apply_two_opt_parts _ _ _ i j) by (done || lia).
  rewrite (apply_two_opt_parts _ _ _ i j)
    by (done || lia || (rewrite length_rev; done)).
  rewrite rev_involutive. by rewrite !take_drop.
Qed.

Lemma apply_swap_lookups (sequence s' : list Z) i j :
  Rvnd.apply_swap sequence i j = Some s' →
  i < length sequence ∧ j < length sequence
  ∧ length s' = length sequence
  ∧ s' !! j = sequence !! i
  ∧ (i ≠ j → s' !! i = sequence !! j)
  ∧ ∀ k, k ≠ i → k ≠ j → s' !! k = sequence !! k.
Proof.
  unfold Rvnd.apply_swap.
  destruct (sequence !! j) as [y|] eqn:Ey; cbn [mbind option_bind]; [|done].
  destruct (sequence !! i) as [x|] eqn:Ex; cbn [mbind option_bind]; [|done].
  intros [= <-].
  pose proof (lookup_lt_Some _ _ _ Ex) as Hi.
  pose proof (lookup_lt_Some _ _ _ Ey) as Hj.
  split_and!; try done.
  - by rewrite !length_insert.
  - rewrite list_lookup_insert_eq; [done | by rewrite length_insert].
  - intros Hne. rewrite list_lookup_insert_ne by done.
    by rewrite list_lookup_insert_eq.
  - intros k Hki Hkj. by rewrite !list_lookup_insert_ne.
Qed.

(** X10: apply_swap does not depend on the order of its two indices, and
    swapping the same two positions again gives the sequence back. *)
Theorem apply_swap_involutive (sequence s' : list Z) (i j : nat) :
  Rvnd.apply_swap sequence i j = Some s' →
  Rvnd.apply_swap sequence j i = Some s'
  ∧ Rvnd.apply_swap s' i j = Some sequence.
Proof.
  intros Hs.
  destruct (apply_swap_lookups _ _ _ _ Hs) as (Hi & Hj & Hlen & H1 & H2 & H3).
  destruct (lookup_lt_is_Some_2 sequence i Hi) as [x Hx].
  destruct (lookup_lt_is_Some_2 sequence j Hj) as [y Hy].
  split.
  - revert Hs. unfold Rvnd.apply_swap. rewrite Hx, Hy.
    cbn [mbind option_bind]. intros [= <-]. f_equal.
    destruct (decide (i = j)) as [->|Hne].
    + by rewrite Hx in Hy; inversion Hy; subst.
    + by rewrite list_insert_insert_ne.
  - unfold Rvnd.apply_swap. rewrite H1, Hx. cbn [mbind option_bind].
    destruct (decide (i = j)) as [->|Hne].
    + rewrite H1, Hx. cbn [mbind option_bind]. f_equal.
      rewrite list_insert_insert_eq. apply list_eq. intros k.
      destruct (decide (k = j)) as [->|Hk].
      * rewrite list_lookup_insert_eq by lia. by rewrite Hx.
      * rewrite list_lookup_insert_ne by done. by apply H3.
    + rewrite (H2 Hne), Hy. cbn [mbind option_bind]. f_equal.
      apply list_eq. intros k.
      destruct (decide (k = j)) as [->|Hkj].
      * rewrite list_lookup_insert_eq by (rewrite length_insert; lia).
        done.
      * rewrite list_lookup_insert_ne by done.
        destruct (decide (k = i)) as [->|Hki].
        -- rewrite list_lookup_insert_eq by lia. done.
        -- rewrite list_lookup_insert_ne by done. by apply H3.
Qed.

(** X11: on two neighbouring positions the two-opt move and the swap move
    give the same candidate. *)
Theorem two_opt_adjacent_is_swap (sequence : list Z) (i : nat) :
  i + 1 < length sequence →
  Rvnd.apply_swap sequence i (i + 1)
  = Some (Rvnd.apply_two_opt sequence i (i + 1)).
Proof.
  intros Hlen.
  destruct (lookup_lt_is_Some_2 sequence i) as [x Hx]; [lia|].
  destruct (lookup_lt_is_Some_2 sequence (i + 1)) as [y Hy]; [lia|].
  destruct (split_two i (i + 1) sequence x y) as (l1 & l2 & l3 & -> & H1 & H2);
    [lia | done | done |].
  destruct l2; [|cbn in H2; lia]. cbn [app].
  change (l1 ++ x :: y :: l3) with (l1 ++ [x; y] ++ l3) at 2.
  rewrite (apply_two_opt_parts l1 [x; y] l3 i (i + 1)) by (cbn; lia).
  cbn [app rev].
  unfold Rvnd.apply_swap.
  rewrite !lookup_app_r by lia.
  replace (i + 1 - length l1) with 1 by lia.
  replace (i - length l1) with 0 by lia. cbn [lookup list_lookup mbind option_bind].
  f_equal.
  rewrite (insert_app_r_alt l1 _ i) by lia.
  replace (i - length l1) with 0 by lia. cbn.
  rewrite (insert_app_r_alt l1 _ (i + 1)) by lia.
  replace (i + 1 - length l1) with 1 by lia. done.
Qed.

(** X12: apply_swap raises exactly when one of the two indices is past the
    end, apply_relocate exactly when the source index is; otherwise both
    return a sequence of the same length (a target past the end makes
    apply_relocate append), and so does apply_two_opt when i <= j + 1. *)
Theorem index_errors (sequence : list Z) (i j : nat) :
  (Rvnd.apply_swap sequence i j = None ↔
     length sequence ≤ i ∨ length sequence ≤ j)
  ∧ (Rvnd.apply_relocate sequence i j = None ↔ length sequence ≤ i)
  ∧ (∀ s', Rvnd.apply_swap sequence i j = Some s' →
           length s' = length sequence)
  ∧ (∀ s', Rvnd.apply_relocate sequence i j = Some s' →
           length s' = length sequence)
  ∧ (i ≤ j + 1 →
     length (Rvnd.apply_two_opt sequence i j) = length sequence).
Proof.
  split_and!.
  - unfold Rvnd.apply_swap. split.
    + destruct (sequence !! j) eqn:Ej; cbn [mbind option_bind].
      * destruct (sequence !! i) eqn:Ei; cbn [mbind option_bind]; [done|].
        intros _. left. by apply lookup_ge_None.
      * intros _. right. by apply lookup_ge_None.
    + intros [H|H]; apply lookup_ge_None in H.
      * rewrite H. by destruct (sequence !! j).
      * by rewrite H.
  - unfold Rvnd.apply_relocate. split.
    + destruct (sequence !! i) eqn:Ei; cbn [mbind option_bind]; [done|].
      intros _. by apply lookup_ge_None.
    + intros H. apply lookup_ge_None in H. by rewrite H.
  - intros s' Hs. by apply apply_swap_lookups in Hs as (_ & _ & -> & _).
  - unfold Rvnd.apply_relocate. intros s'.
    destruct (sequence !! i) as [node|] eqn:Ei; cbn [mbind option_bind];
      [|done].
    intros [= <-].
    assert (Hd : length (delete i sequence) = length sequence - 1)
      by (rewrite length_delete; [lia | by eexists]).
    apply lookup_lt_Some in Ei.
    assert (Hk : ∀ k, length (Rvnd.list_insert_at k node (delete i sequence))
                      = length sequence).
    { intros k. unfold Rvnd.list_insert_at.
      rewrite length_app, length_cons, length_take, length_drop. lia. }
    by destruct (i <? j)%nat.
  - intros Hij. unfold Rvnd.apply_two_opt.
    rewrite !length_app, length_rev, !length_take, !length_drop. lia.
Qed.

Lemma short_no_moves f (sequence : list Z) :
  length sequence ≤ 3 → Rvnd.moves_of f sequence = [].
Proof.
  intros Hlen. apply elem_of_nil_inv. intros [i j] Hin.
  destruct f; cbn in Hin.
  - apply two_opt_elem in Hin. lia.
  - apply swap_moves_elem in Hin. lia.
  - apply relocate_moves_elem in Hin. lia.
Qed.

(** X13: a sequence of at most three nodes has no move in any
    neighbourhood, and rvnd_route returns its plain evaluation. *)
Theorem rvnd_route_short (Random : Type) (instance : Instance)
    (distance_data : DistanceData) (route : Route) (rng : Random) :
  length (r_sequence route) ≤ 3 →
  (∀ f, Rvnd.moves_of f (r_sequence route) = [])
  ∧ Rvnd.rvnd_route instance distance_data route rng
    = Rvnd.evaluate_route (r_sequence route) instance distance_data.
Proof.
  intros Hlen. split; [intros f; by apply short_no_moves|].
  unfold Rvnd.rvnd_route.
  destruct (Rvnd.evaluate_route _ _ _) as [baseline|] eqn:Eb;
    cbn [mbind option_bind]; [|done].
  unfold Rvnd.max_iterations. cbn [Rvnd.search].
  unfold Rvnd.NEIGHBORHOOD_FUNCS. cbn [Rvnd.scan_neighborhoods].
  rewrite !short_no_moves by done. cbn. done.
Qed.

Lemma accepted_length instance distance_data n : ∀ s d,
  length (Rvnd.accepted instance distance_data n s d) ≤ n.
Proof.
  induction n as [|n IH]; intros s d; cbn [Rvnd.accepted]; [done|].
  destruct (Rvnd.scan_neighborhoods _ _ _ _ _) as [[|s1 d1]|]; cbn; try lia.
  specialize (IH s1 d1). lia.
Qed.

(** X14: one call of rvnd_route accepts at most max_iterations (100)
    moves, and what it returns is the evaluation of the sequence it
    returns. *)
Theorem rvnd_route_bounded (Random : Type) (instance : Instance)
    (distance_data : DistanceData) (route : Route) (rng : Random) :
  length (Rvnd.rvnd_accepted instance distance_data route) ≤ 100
  ∧ ∀ m, Rvnd.rvnd_route instance distance_data route rng = Some m →
         Rvnd.evaluate_route (Rvnd.sequence m) instance distance_data
         = Some m.
Proof.
  split.
  - unfold Rvnd.rvnd_accepted.
    destruct (Rvnd.evaluate_route _ _ _); [|cbn; lia].
    apply (accepted_length _ _ 100).
  - intros m. unfold Rvnd.rvnd_route.
    destruct (Rvnd.evaluate_route (r_sequence route) _ _);
      cbn [mbind option_bind]; [|done].
    destruct (Rvnd.search _ _ _ _ _) as [[s' d']|];
      cbn [mbind option_bind]; [|done].
    intros Hm. by rewrite (evaluate_sequence _ _ _ _ Hm).
Qed.

Lemma clusters_of_type_snoc k cls cl :
  clusters_of_type k (cls ++ [cl])
  = (clusters_of_type k cls
     + if decide (vehicle_type cl = k) then 1 else 0)%Z.
Proof.
  unfold clusters_of_type. rewrite filter_app, length_app.
  rewrite filter_cons, filter_nil.
  destruct (decide (vehicle_type cl = k)); cbn; lia.
Qed.

Section Books.
Variable fleets : list Fleet.

Lemma emit_books s vehicle :
  sweep_books fleets s →
  (0 < available_units s !!! fleet_id vehicle)%Z →
  cluster_id <$> clusters (emit s vehicle)
  = seqZ 1 (Z.of_nat (length (clusters (emit s vehicle))))
  ∧ (∀ k, available_units (emit s vehicle) !!! k
          = (available_units (sweep_init fleets) !!! k
             - clusters_of_type k (clusters (emit s vehicle)))%Z)
  ∧ (∀ k, (Z.min 0 (available_units (sweep_init fleets) !!! k)
           <= available_units (emit s vehicle) !!! k)%Z).
Proof.
  intros (Hids & Hnext & Hunits & Hmin & _) Hpos.
  unfold emit. cbn [clusters available_units].
  split_and!.
  - rewrite fmap_app, Hids, length_app. cbn [length fmap list_fmap cluster_id].
    rewrite Hnext.
    replace (Z.of_nat (length (clusters s) + 1))
      with (Z.of_nat (length (clusters s)) + 1)%Z by lia.
    rewrite seqZ_app by lia. f_equal.
  - intros k. rewrite clusters_of_type_snoc. cbn [vehicle_type].
    destruct (decide (fleet_id vehicle = k)) as [<-|Hne].
    + rewrite lookup_total_insert_eq. rewrite Hunits. lia.
    + rewrite lookup_total_insert_ne by done. rewrite Hunits. lia.
  - intros k. destruct (decide (fleet_id vehicle = k)) as [<-|Hne].
    + rewrite lookup_total_insert_eq. lia.
    + rewrite lookup_total_insert_ne by done. apply Hmin.
Qed.

Lemma close_cluster_books s vehicle :
  sweep_books fleets s →
  current_customers s ≠ [] →
  current_vehicle s = Some vehicle →
  sweep_books fleets (close_cluster s vehicle).
Proof.
  intros Hb Hne Hveh. pose proof Hb as (_ & Hnext & _ & _ & Hcur).
  destruct (Hcur Hne) as (v & Hv & Hpos). rewrite Hveh in Hv.
  inversion Hv; subst v.
  destruct (emit_books s vehicle Hb Hpos) as (Hids & Hunits & Hmin).
  unfold sweep_books.
  cbn [close_cluster clusters next_cluster_id available_units
       current_customers current_vehicle].
  split_and!; try done.
  cbn [emit clusters]. rewrite length_app. cbn [length]. lia.
Qed.

Lemma add_customer_books s customer f fs :
  sweep_books fleets s →
  feasible_fleets fleets s (current_demand s + cust_demand customer)
    = f :: fs →
  sweep_books fleets
    (add_customer s customer (current_demand s + cust_demand customer)
       (min_capacity f fs)).
Proof.
  intros (Hids & Hnext & Hunits & Hmin & _) Hfeas.
  unfold sweep_books, add_customer.
  cbn [clusters next_cluster_id available_units current_customers
       current_vehicle].
  split_and!; try done.
  intros _. eexists. split; [done|].
  pose proof (min_capacity_elem fs f) as Hin. rewrite <- Hfeas in Hin.
  by apply feasible_fleets_elem in Hin as (_ & Hpos & _).
Qed.

Lemma place_books s customer s' :
  sweep_books fleets s →
  place fleets 2 s customer = Ok s' →
  sweep_books fleets s'.
Proof.
  intros Hb. cbn [place].
  destruct (feasible_fleets fleets s _) as [|f fs] eqn:Ef.
  - destruct (current_customers s) as [|c0 cs] eqn:Ec; [done|].
    destruct (current_vehicle s) as [vehicle|] eqn:Ev; [|done].
    assert (Hne : current_customers s ≠ []) by (by rewrite Ec).
    pose proof (close_cluster_books _ _ Hb Hne Ev) as Hb'.
    destruct (feasible_fleets fleets (close_cluster s vehicle) _)
      as [|f fs] eqn:Ef'; [done|].
    intros [= <-]. by apply add_customer_books.
  - intros [= <-]. by apply add_customer_books.
Qed.

Lemma sweep_books_ok entries : ∀ s s',
  sweep_books fleets s →
  sweep fleets s entries = Ok s' →
  sweep_books fleets s'.
Proof.
  induction entries as [|entry entries IH]; intros s s' Hb; cbn [sweep].
  { by intros [= <-]. }
  destruct (place fleets 2 s (e_customer entry)) as [s1| |] eqn:Ep;
    [|done|done].
  apply IH. by eapply place_books.
Qed.

Lemma sweep_init_books : sweep_books fleets (sweep_init fleets).
Proof.
  unfold sweep_books. split_and!; try done.
  - intros k. unfold clusters_of_type. cbn [sweep_init clusters].
    cbn. lia.
  - intros k. lia.
Qed.
End Books.

(** What build_clusters returns, with the final sweep state. *)
Lemma build_clusters_final atan2 instance cls used :
  build_clusters atan2 instance = Ok (cls, used) →
  ∃ s', clusters s' = cls
        ∧ used = used_units (fleet instance) s'
        ∧ cluster_id <$> cls = seqZ 1 (Z.of_nat (length cls))
        ∧ (∀ k, available_units s' !!! k
                = (available_units (sweep_init (fleet instance)) !!! k
                   - clusters_of_type k cls)%Z)
        ∧ (∀ k, (Z.min 0 (available_units (sweep_init (fleet instance)) !!! k)
                 <= available_units s' !!! k)%Z).
Proof.
  unfold build_clusters.
  destruct (sweep _ _ _) as [s| |] eqn:Es; [|done|done].
  apply (sweep_books_ok _ _ _ _ (sweep_init_books _)) in Es.
  unfold flush.
  destruct (current_customers s) as [|c0 cs] eqn:Ec.
  - intros [= <- <-]. exists s.
    destruct Es as (Hids & _ & Hunits & Hmin & _). by split_and!.
  - destruct (current_vehicle s) as [vehicle|] eqn:Ev; [|done].
    intros [= <- <-]. exists (emit s vehicle).
    pose proof Es as (_ & _ & _ & _ & Hcur).
    destruct Hcur as (v & Hv & Hpos); [by rewrite Ec|].
    rewrite Ev in Hv. inversion Hv; subst v.
    destruct (emit_books _ s vehicle Es Hpos) as (Hids & Hunits & Hmin).
    by split_and!.
Qed.

(** X15: cluster ids count 1, 2, 3, ... in the order of emission, and no
    emitted cluster is empty. *)
Theorem cluster_ids_sequential (atan2 : Q → Q → Q) (instance : Instance)
    (cls : list Cluster) (used : gmap string Z) :
  build_clusters atan2 instance = Ok (cls, used) →
  cluster_id <$> cls = seqZ 1 (Z.of_nat (length cls))
  ∧ Forall (λ cl, customer_ids cl ≠ []) cls.
Proof.
  intros Hb. split.
  - by apply build_clusters_final in Hb as (s' & _ & _ & Hids & _).
  - apply build_clusters_groups in Hb as (groups & Hf & _).
    clear -Hf. induction Hf as [|cl members cls groups Hcl _ IH];
      constructor; [|done].
    destruct Hcl as (-> & _ & Hne & _). by destruct members.
Qed.

Lemma dict_fmap_values `{Countable K} {A V : Type} (key : A → K)
    (val : A → V) (l : list A) :
  Py.dict (map (λ a, (key a, val a)) l)
  = val <$> Py.dict (map (λ a, (key a, a)) l).
Proof.
  unfold Py.dict.
  assert (Hg : ∀ acc : gmap K A,
            fold_left (λ m kv, <[kv.1 := kv.2]> m)
              (map (λ a, (key a, val a)) l) (val <$> acc)
            = val <$> fold_left (λ m kv, <[kv.1 := kv.2]> m)
                        (map (λ a, (key a, a)) l) acc).
  { induction l as [|a l IH]; intros acc; [done|]. cbn.
    rewrite <- IH. by rewrite fmap_insert. }
  rewrite <- Hg. by rewrite fmap_empty.
Qed.

Lemma fleet_by_id_lookup (fleets : list Fleet) k f :
  Py.dict (map (λ fleet, (fleet_id fleet, fleet)) fleets) !! k = Some f →
  f ∈ fleets ∧ fleet_id f = k.
Proof.
  intros Hf%dict_lookup_elem.
  apply list_elem_of_fmap in Hf as (f' & Heq & Hin). by inversion Heq; subst.
Qed.

(** X16: fleet_usage has one entry per fleet id, the number of clusters
    emitted for that id; with fleet ids not repeated, no fleet type is
    used for more clusters than it has units. *)
Theorem fleet_usage_counts (atan2 : Q → Q → Q) (instance : Instance)
    (cls : list Cluster) (used : gmap string Z) :
  build_clusters atan2 instance = Ok (cls, used) →
  (∀ k n, used !! k = Some n ↔
          k ∈ fleet_id <$> fleet instance ∧ n = clusters_of_type k cls)
  ∧ (NoDup (fleet_id <$> fleet instance) →
     ∀ f, f ∈ fleet instance →
          (clusters_of_type (fleet_id f) cls <= Z.max 0 (fleet_units f))%Z).
Proof.
  intros (s' & _ & -> & _ & Hunits & Hmin)%build_clusters_final.
  set (fleets := fleet instance) in *.
  assert (Hinit : ∀ k f,
            Py.dict (map (λ fleet, (fleet_id fleet, fleet)) fleets) !! k
              = Some f →
            available_units (sweep_init fleets) !!! k = fleet_units f).
  { intros k f Hf. cbn [sweep_init available_units].
    rewrite (dict_fmap_values fleet_id fleet_units).
    by rewrite lookup_total_alt, lookup_fmap, Hf. }
  assert (Hused : ∀ k f,
            Py.dict (map (λ fleet, (fleet_id fleet, fleet)) fleets) !! k
              = Some f →
            used_units fleets s' !! k = Some (clusters_of_type k cls)).
  { intros k f Hf. unfold used_units. rewrite lookup_fmap, Hf. cbn.
    destruct (fleet_by_id_lookup _ _ _ Hf) as (_ & ->).
    rewrite Hunits, (Hinit _ _ Hf). f_equal. lia. }
  split.
  - intros k n. split.
    + intros Hk.
      destruct (Py.dict (map (λ fleet, (fleet_id fleet, fleet)) fleets) !! k)
        as [f|] eqn:Ef.
      * rewrite (Hused _ _ Ef) in Hk. inversion Hk; subst.
        destruct (fleet_by_id_lookup _ _ _ Ef) as (Hin & <-).
        split; [by apply list_elem_of_fmap_2 | done].
      * unfold used_units in Hk. by rewrite lookup_fmap, Ef in Hk.
    + intros [Hk ->].
      assert (Hs : is_Some (Py.dict (map (λ fleet, (fleet_id fleet, fleet))
                                       fleets) !! k)).
      { apply dict_lookup_is_Some. right. by rewrite <- list_fmap_compose. }
      destruct Hs as [f Hf]. by apply (Hused _ _ Hf).
  - intros Hnd f Hin.
    assert (Hs : is_Some (Py.dict (map (λ fleet, (fleet_id fleet, fleet))
                                     fleets) !! fleet_id f)).
    { apply dict_lookup_is_Some. right. rewrite <- list_fmap_compose.
      by apply (list_elem_of_fmap_2 fleet_id). }
    destruct Hs as [f' Hf'].
    destruct (fleet_by_id_lookup _ _ _ Hf') as (Hin' & Hid).
    assert (f' = f) as -> by (by eapply NoDup_fmap_elem_eq).
    pose proof (Hunits (fleet_id f)) as Hu.
    pose proof (Hmin (fleet_id f)) as Hm.
    rewrite (Hinit _ _ Hf') in Hu, Hm. lia.
Qed.

Lemma insert_entry_sorted e sorted :
  StronglySorted angle_le sorted →
  StronglySorted angle_le (insert_entry e sorted).
Proof.
  induction 1 as [|h t Hs IH Hall]; cbn [insert_entry].
  { by repeat constructor. }
  destruct (Py.lt (e_angle h) (e_angle e)) eqn:El.
  - apply py_lt_spec in El. constructor; [done|].
    rewrite insert_entry_Permutation. constructor; [|done].
    unfold angle_le. lra.
  - apply py_lt_false in El. constructor; [by constructor|].
    constructor; [done|].
    eapply Forall_impl; [exact Hall|]. unfold angle_le. cbn. intros x Hx. lra.
Qed.

Lemma insert_entry_stable (keep : Entry → bool) e sorted :
  (∀ a b, keep a = true → keep b = true → (e_angle a == e_angle b)%Q) →
  List.filter keep (insert_entry e sorted) = List.filter keep (e :: sorted).
Proof.
  intros Hkeep. induction sorted as [|h t IH]; [done|].
  cbn [insert_entry].
  destruct (Py.lt (e_angle h) (e_angle e)) eqn:El; [|done].
  apply py_lt_spec in El. cbn [List.filter] in *. rewrite IH.
  destruct (keep e) eqn:Ee; [|done].
  destruct (keep h) eqn:Eh; [|done].
  pose proof (Hkeep h e Eh Ee). lra.
Qed.

(** X17: customer_angles is in ascending angle order and keeps the input
    order among customers of equal angle; on success the clusters, put
    end to end, list the customers in exactly that order. *)
Theorem sweep_order (atan2 : Q → Q → Q) (instance : Instance) :
  StronglySorted angle_le (customer_angles atan2 instance)
  ∧ (∀ angle,
       e_customer <$>
         List.filter (λ e, Qeq_bool (e_angle e) angle)
           (customer_angles atan2 instance)
       = List.filter
           (λ c, Qeq_bool (compute_polar_angle atan2 c (depot instance))
                   angle)
           (customers instance))
  ∧ (∀ cls used, build_clusters atan2 instance = Ok (cls, used) →
       concat (customer_ids <$> cls)
       = cust_id <$> (e_customer <$> customer_angles atan2 instance)).
Proof.
  split_and!.
  - unfold customer_angles, sort_by_angle.
    induction (map _ (customers instance)) as [|e l IH]; cbn [foldr].
    + constructor.
    + by apply insert_entry_sorted.
  - intros angle. unfold customer_angles, sort_by_angle.
    induction (customers instance) as [|c l IH]; [done|].
    cbn [map foldr].
    rewrite insert_entry_stable.
    + cbn [List.filter e_angle]. destruct (Qeq_bool _ angle); cbn; by rewrite IH.
    + intros a b Ha Hb. apply Qeq_bool_iff in Ha, Hb. by rewrite Ha, Hb.
  - intros cls used (groups & Hf & Hc)%build_clusters_groups.
    by rewrite (cluster_of_ids _ _ _ Hf), Hc.
Qed.

(** X18: with a two-argument arctangent that stays within [-pi, pi], the
    polar angle lies between 0 and 2 pi, both included: an angle that is
    not negative is returned as it is, and a negative one is moved into
    the upper half turn, between pi and 2 pi.  (Over exact numbers 2 pi
    itself is not reached; the bounds are stated so that they also hold
    of the rounded sum of the code.) *)
Theorem compute_polar_angle_range (atan2 : Q → Q → Q) (customer : Customer)
    (depot : Depot) :
  (- math_pi <= atan2 (cust_y customer - depot_y depot)%Q
                  (cust_x customer - depot_x depot)%Q <= math_pi)%Q →
  (0 <= compute_polar_angle atan2 customer depot <= 2 * math_pi)%Q
  ∧ ((0 <= atan2 (cust_y customer - depot_y depot)%Q
              (cust_x customer - depot_x depot)%Q)%Q →
     compute_polar_angle atan2 customer depot
     = atan2 (cust_y customer - depot_y depot)%Q
         (cust_x customer - depot_x depot)%Q)
  ∧ ((atan2 (cust_y customer - depot_y depot)%Q
        (cust_x customer - depot_x depot)%Q < 0)%Q →
     (math_pi <= compute_polar_angle atan2 customer depot
      <= 2 * math_pi)%Q).
Proof.
  unfold compute_polar_angle.
  generalize (atan2 (cust_y customer - depot_y depot)%Q
                (cust_x customer - depot_x depot)%Q). intros a [Hlo Hhi].
  assert (Hpi : (0 < math_pi)%Q) by done.
  destruct (Py.lt a 0) eqn:El;
    [apply py_lt_spec in El | apply py_lt_false in El].
  - split_and!; [lra | lra | intros H; lra | intros _; lra].
  - split_and!; [lra | lra | done | intros H; lra].
Qed.

Lemma min_capacity_least rest : ∀ best g,
  g ∈ best :: rest →
  (fleet_capacity (min_capacity best rest) <= fleet_capacity g)%Q.
Proof.
  induction rest as [|f rest IH]; intros best g; cbn [min_capacity].
  { intros ->%list_elem_of_singleton. lra. }
  intros Hg.
  assert (Hb : (fleet_capacity
                  (min_capacity
                     (if Py.lt (fleet_capacity f) (fleet_capacity best)
                      then f else best) rest)
                <= fleet_capacity
                     (if Py.lt (fleet_capacity f) (fleet_capacity best)
                      then f else best))%Q)
    by (apply IH, list_elem_of_here).
  apply elem_of_cons in Hg as [->|Hg].
  - destruct (Py.lt _ _) eqn:El;
      [apply py_lt_spec in El | apply py_lt_false in El]; lra.
  - apply elem_of_cons in Hg as [->|Hg].
    + destruct (Py.lt _ _) eqn:El;
        [apply py_lt_spec in El | apply py_lt_false in El]; lra.
    + apply IH. by apply list_elem_of_further.
Qed.

(** X19: after a customer is placed, the vehicle type of the open cluster
    is a tightest fit: it has a unit left and room for the cluster's
    demand, and no fleet type with a unit left and room for that demand
    has a smaller capacity. *)
Theorem place_tightest_fit (fleets : list Fleet) (s s' : Sweep)
    (customer : Customer) :
  place fleets 2 s customer = Ok s' →
  ∃ chosen,
    current_vehicle s' = Some chosen
    ∧ chosen ∈ fleets
    ∧ (0 < available_units s' !!! fleet_id chosen)%Z
    ∧ (current_demand s' <= fleet_capacity chosen)%Q
    ∧ ∀ g, g ∈ fleets →
           (0 < available_units s' !!! fleet_id g)%Z →
           (current_demand s' <= fleet_capacity g)%Q →
           (fleet_capacity chosen <= fleet_capacity g)%Q.
Proof.
  assert (Hadd : ∀ s0 f fs,
            feasible_fleets fleets s0
              (current_demand s0 + cust_demand customer) = f :: fs →
            ∃ chosen,
              current_vehicle
                (add_customer s0 customer
                   (current_demand s0 + cust_demand customer)
                   (min_capacity f fs)) = Some chosen
              ∧ chosen ∈ fleets
              ∧ (0 < available_units s0 !!! fleet_id chosen)%Z
              ∧ (current_demand s0 + cust_demand customer
                 <= fleet_capacity chosen)%Q
              ∧ ∀ g, g ∈ fleets →
                     (0 < available_units s0 !!! fleet_id g)%Z →
                     (current_demand s0 + cust_demand customer
                      <= fleet_capacity g)%Q →
                     (fleet_capacity chosen <= fleet_capacity g)%Q).
  { intros s0 f fs Hfeas. eexists. split; [done|].
    pose proof (min_capacity_elem fs f) as Hin. rewrite <- Hfeas in Hin.
    apply feasible_fleets_elem in Hin as (Hin & Hpos & Hle).
    split_and!; try done.
    intros g Hg Hgpos Hgle. apply min_capacity_least. rewrite <- Hfeas.
    by apply feasible_fleets_elem. }
  cbn [place].
  destruct (feasible_fleets fleets s _) as [|f fs] eqn:Ef.
  - destruct (current_customers s) as [|c0 cs]; [done|].
    destruct (current_vehicle s) as [vehicle|]; [|done].
    destruct (feasible_fleets fleets (close_cluster s vehicle) _)
      as [|f fs] eqn:Ef'; [done|].
    intros [= <-]. by apply Hadd.
  - intros [= <-]. by apply Hadd.
Qed.

Lemma key_lt_false a b : key_lt b a = false ↔ key_le a b.
Proof.
  unfold key_lt, key_le. destruct (b.1 ?= a.1)%Q eqn:E.
  - apply Qeq_alt in E. rewrite Z.ltb_ge. split.
    + intros H. right. split; [by symmetry | done].
    + intros [H|[_ H]]; [lra | done].
  - apply Qlt_alt in E. split; [done|]. intros [H|[H _]]; lra.
  - apply Qgt_alt in E. split; [by left | done].
Qed.

Lemma key_le_refl a : key_le a a.
Proof. right. split; [reflexivity | lia]. Qed.

Lemma key_le_trans a b c : key_le a b → key_le b c → key_le a c.
Proof.
  unfold key_le. intros [H1|[H1 H1']] [H2|[H2 H2']].
  - left. lra.
  - left. lra.
  - left. lra.
  - right. split; [lra | lia].
Qed.

Lemma key_le_total a b : key_le a b ∨ key_le b a.
Proof.
  unfold key_le. destruct (Q_dec a.1 b.1) as [[H|H]|H].
  - left. by left.
  - right. by left.
  - destruct (Z.le_ge_cases a.2 b.2).
    + left. by right.
    + right. right. split; [by symmetry | done].
Qed.

Lemma min_key_least rest : ∀ best k,
  k ∈ best :: rest → key_le (min_key best rest) k.
Proof.
  induction rest as [|k0 rest IH]; intros best k; cbn [min_key].
  { intros ->%list_elem_of_singleton. apply key_le_refl. }
  set (b' := if key_lt k0 best then k0 else best).
  assert (Hb : key_le b' best ∧ key_le b' k0).
  { subst b'. destruct (key_lt k0 best) eqn:E.
    - split; [|apply key_le_refl].
      destruct (key_le_total k0 best) as [H|H]; [done|].
      apply key_lt_false in H. congruence.
    - split; [apply key_le_refl | by apply key_lt_false]. }
  pose proof (IH b' b' (list_elem_of_here _ _)) as Hm.
  intros [->|[->|Hk]%elem_of_cons]%elem_of_cons.
  - eapply key_le_trans; [exact Hm | apply Hb].
  - eapply key_le_trans; [exact Hm | apply Hb].
  - apply IH. by apply list_elem_of_further.
Qed.

Section Visit.
Variable tb : Tables.

Local Abbreviation dist :=
  (matrix_at (node_index tb) (t_distance_matrix tb)).

Lemma nearest_least current_node (unvisited : gset Z) next_node :
  nearest tb current_node unvisited = Some next_node →
  next_node ∈ unvisited
  ∧ ∃ d_next, dist current_node next_node = Some d_next
      ∧ ∀ c, c ∈ unvisited →
          ∃ d_c, dist current_node c = Some d_c
                 ∧ key_le (d_next, next_node) (d_c, c).
Proof.
  intros Hn. split; [by eapply nearest_elem|]. revert Hn.
  unfold nearest.
  destruct (mapM _ (elements unvisited)) as [keys|] eqn:Ek;
    cbn [mbind option_bind]; [|done].
  destruct keys as [|k rest]; [done|]. intros [= <-].
  apply mapM_Some in Ek.
  assert (Hkey : ∀ cid key,
            (d ← dist current_node cid; Some (d, cid)) = Some key →
            dist current_node cid = Some key.1 ∧ key.2 = cid).
  { intros cid key. destruct (dist current_node cid);
      cbn [mbind option_bind]; [|done]. by intros [= <-]. }
  pose proof (min_key_elem rest k) as Hin.
  apply list_elem_of_lookup in Hin as [i Hi].
  destruct (Forall2_lookup_r _ _ _ _ _ Ek Hi) as (cid & Hc & Hm).
  apply Hkey in Hm as (Hd & Hid).
  exists (min_key k rest).1. split; [by rewrite Hid|].
  intros c Hc'. apply elem_of_elements in Hc'.
  apply list_elem_of_lookup in Hc' as [j Hj].
  destruct (Forall2_lookup_l _ _ _ _ _ Ek Hj) as (key & Hk & Hkc).
  apply Hkey in Hkc as (Hdc & Hidc). exists key.1. split; [done|].
  pose proof (min_key_least rest k key) as Hle.
  rewrite <- Hidc. destruct key as [d c']. destruct (min_key k rest).
  apply Hle. by eapply list_elem_of_lookup_2.
Qed.

Lemma visit_members fuel : ∀ (unvisited : gset Z) route_sequence
    current_node visited,
  visit fuel tb unvisited route_sequence current_node = Some visited →
  ∃ more,
    visited = route_sequence ++ more
    ∧ NoDup more
    ∧ (∀ x, x ∈ more ↔ x ∈ unvisited)
    ∧ nearest_first dist current_node more.
Proof.
  induction fuel as [|fuel IH]; intros u rs cur v; cbn [visit].
  - destruct (elements u) eqn:Eu; [|done]. intros [= <-].
    exists []. rewrite app_nil_r. split_and!; try done; [constructor|].
    apply elements_empty_inv in Eu. intros x. split; [by intros ?%elem_of_nil|].
    intros Hx. apply Eu in Hx. by apply elem_of_empty in Hx.
  - destruct (elements u) eqn:Eu.
    { intros [= <-]. exists []. rewrite app_nil_r.
      split_and!; try done; [constructor|].
      apply elements_empty_inv in Eu. intros x.
      split; [by intros ?%elem_of_nil|].
      intros Hx. apply Eu in Hx. by apply elem_of_empty in Hx. }
    destruct (nearest tb cur u) as [next|] eqn:En;
      cbn [mbind option_bind]; [|done].
    intros (more & -> & Hnd & Hmem & Hgreedy)%IH.
    apply nearest_least in En as (Hin & d_next & Hd & Hleast).
    exists (next :: more). split_and!.
    + by rewrite <- app_assoc.
    + constructor; [|done]. intros Hx%Hmem.
      apply elem_of_difference in Hx as [_ Hx]. apply Hx.
      by apply elem_of_singleton.
    + intros x. rewrite elem_of_cons, Hmem, elem_of_difference,
        elem_of_singleton.
      destruct (decide (x = next)) as [->|Hne].
      * split; [by intros _ | by left].
      * split; [by intros [?|[? _]] | by right].
    + cbn [nearest_first]. split; [|done]. exists d_next. split; [done|].
      intros c Hc%Hmem. apply Hleast.
      by apply elem_of_difference in Hc as [Hc _].
Qed.
End Visit.

(** X20: the constructed sequence is the depot, then every member of the
    cluster exactly once, then the depot. *)
Theorem nearest_neighbor_route_visits (cluster : Cluster)
    (instance : Instance) (distance_data : DistanceData) (r : NNRoute) :
  nearest_neighbor_route cluster instance distance_data = Some r →
  ∃ interior,
    sequence r = 0%Z :: interior ++ [0%Z]
    ∧ NoDup interior
    ∧ (∀ x, x ∈ interior ↔ x ∈ customer_ids cluster)
    ∧ route_cluster_id r = cluster_id cluster
    ∧ route_vehicle_type r = vehicle_type cluster.
Proof.
  unfold nearest_neighbor_route.
  destruct (tables instance distance_data) as [tb|];
    cbn [mbind option_bind]; [|done].
  destruct (visit _ _ _ _ _) as [visited|] eqn:Ev;
    cbn [mbind option_bind]; [|done].
  destruct (nn_walk _ _ _) as [nw|]; cbn [mbind option_bind]; [|done].
  intros [= <-]. cbn.
  apply visit_members in Ev as (more & -> & Hnd & Hmem & _).
  exists more. split_and!; try done.
  intros x. rewrite Hmem. apply elem_of_list_to_set.
Qed.

(** X21: the construction is greedy: each node of the interior is, among
    the nodes not yet visited, the nearest to the node before it, the
    lower id winning on equal distance. *)
Theorem nearest_neighbor_route_greedy (cluster : Cluster)
    (instance : Instance) (distance_data : DistanceData) (r : NNRoute) :
  nearest_neighbor_route cluster instance distance_data = Some r →
  ∃ interior,
    sequence r = 0%Z :: interior ++ [0%Z]
    ∧ nearest_first
        (matrix_at (node_index_of distance_data)
           (distance_matrix distance_data))
        0 interior.
Proof.
  unfold nearest_neighbor_route.
  destruct (tables instance distance_data) as [tb|] eqn:Et;
    cbn [mbind option_bind]; [|done].
  destruct (visit _ _ _ _ _) as [visited|] eqn:Ev;
    cbn [mbind option_bind]; [|done].
  destruct (nn_walk _ _ _) as [nw|]; cbn [mbind option_bind]; [|done].
  intros [= <-]. cbn.
  apply visit_members in Ev as (more & -> & _ & _ & Hgreedy).
  apply tables_fields in Et as (Hi & Hd & _).
  exists more. split; [done|]. by rewrite <- Hi, <- Hd.
Qed.

Lemma interior_of_route (l : list Z) a b : interior_of (a :: l ++ [b]) = l.
Proof.
  unfold interior_of. change (drop 1 (a :: l ++ [b])) with (l ++ [b]).
  replace (length (a :: l ++ [b]) - 2) with (length l)
    by (rewrite length_cons, length_app; cbn; lia).
  apply take_app_length.
Qed.

Lemma fold_Qplus_acc l : ∀ acc, (fold_left Qplus l acc == acc + sum_list l)%Q.
Proof.
  unfold sum_list. induction l as [|x l IH]; intros acc; cbn [fold_left].
  { ring. }
  rewrite (IH (acc + x)%Q), (IH (0 + x)%Q). ring.
Qed.

Lemma sum_list_cons x l : (sum_list (x :: l) == x + sum_list l)%Q.
Proof. unfold sum_list at 1. cbn [fold_left]. rewrite fold_Qplus_acc. ring. Qed.

Lemma sum_list_app l1 l2 : (sum_list (l1 ++ l2) == sum_list l1 + sum_list l2)%Q.
Proof.
  induction l1 as [|x l1 IH]; cbn [app].
  - unfold sum_list at 2. cbn. ring.
  - rewrite !sum_list_cons, IH. ring.
Qed.

Lemma sum_list_Permutation l1 l2 :
  l1 ≡ₚ l2 → (sum_list l1 == sum_list l2)%Q.
Proof.
  induction 1 as [|x l1 l2 _ IH|x y l|l1 l2 l3 _ IH1 _ IH2].
  - reflexivity.
  - by rewrite !sum_list_cons, IH.
  - rewrite !sum_list_cons. ring.
  - by rewrite IH1.
Qed.

Lemma sum_demands_sum_list members :
  (sum_demands members == sum_list (cust_demand <$> members))%Q.
Proof.
  unfold sum_demands.
  assert (H : ∀ acc, (fold_left (λ a c, a + cust_demand c) members acc
                      == acc + sum_list (cust_demand <$> members))%Q).
  { induction members as [|c l IH]; intros acc; cbn [fold_left fmap list_fmap].
    - unfold sum_list. cbn. ring.
    - rewrite IH, sum_list_cons. ring. }
  rewrite H. ring.
Qed.

Lemma cluster_demands_total fleets cls : ∀ groups,
  Forall2 (cluster_of fleets) cls groups →
  (sum_list (total_demand <$> cls)
   == sum_list (cust_demand <$> concat groups))%Q.
Proof.
  induction cls as [|cl cls IH]; intros groups Hf; inversion Hf; subst;
    cbn [fmap list_fmap concat].
  { reflexivity. }
  rewrite sum_list_cons, fmap_app, sum_list_app, <- IH by done.
  match goal with H : cluster_of _ _ _ |- _ => destruct H as (_ & -> & _) end.
  by rewrite sum_demands_sum_list.
Qed.

(** X22: the total demand main reports is the demand of all the customers
    of the instance. *)
Theorem main_total_demand (atan2 : Q → Q → Q) (instance : Instance)
    (distance_data : DistanceData) (out : MainOutput) :
  SweepNN.main atan2 instance distance_data = Ok (Some out) →
  (out_total_demand out == sum_list (cust_demand <$> customers instance))%Q.
Proof.
  unfold SweepNN.main.
  destruct (build_clusters atan2 instance) as [[cls usage]| |] eqn:Eb;
    [|done|done].
  destruct (initial_routes cls instance distance_data) as [routes|];
    cbn [mbind option_bind]; [|done].
  intros [= <-]. cbn [out_total_demand].
  apply build_clusters_groups in Eb as (groups & Hf & Hc).
  rewrite (cluster_demands_total _ _ _ Hf), Hc.
  apply sum_list_Permutation, fmap_Permutation, customer_angles_Permutation.
Qed.

Lemma NoDup_concat_part (ls : list (list Z)) l :
  NoDup (concat ls) → l ∈ ls → NoDup l.
Proof.
  induction ls as [|l0 ls IH]; cbn [concat]; [by intros _ ?%elem_of_nil|].
  intros [H0 [_ Hrest]]%NoDup_app [->|Hin]%elem_of_cons; [done|by apply IH].
Qed.

Lemma concat_Permutation (ls1 ls2 : list (list Z)) :
  Forall2 Permutation ls1 ls2 → concat ls1 ≡ₚ concat ls2.
Proof.
  induction 1 as [|l1 l2 ls1 ls2 Hp _ IH]; cbn [concat]; [done|].
  by rewrite Hp, IH.
Qed.

(** X23: main builds one route per cluster, carrying the cluster's id and
    vehicle type; with customer ids not repeated, every customer of the
    instance is an interior node of exactly one route, exactly once. *)
Theorem main_routes_cover_customers (atan2 : Q → Q → Q) (instance : Instance)
    (distance_data : DistanceData) (out : MainOutput) :
  SweepNN.main atan2 instance distance_data = Ok (Some out) →
  total_clusters (out_clusters out) = length (out_routes out)
  ∧ Forall2 (λ cl r, route_cluster_id r = cluster_id cl
                     ∧ route_vehicle_type r = vehicle_type cl)
      (payload_clusters (out_clusters out)) (out_routes out)
  ∧ (NoDup (cust_id <$> customers instance) →
     concat ((λ r, interior_of (sequence r)) <$> out_routes out)
     ≡ₚ cust_id <$> customers instance).
Proof.
  unfold SweepNN.main.
  destruct (build_clusters atan2 instance) as [[cls usage]| |] eqn:Eb;
    [|done|done].
  destruct (initial_routes cls instance distance_data) as [routes|] eqn:Er;
    cbn [mbind option_bind]; [|done].
  intros [= <-].
  cbn [out_clusters out_routes save_clusters total_clusters payload_clusters].
  unfold initial_routes in Er. apply mapM_Some in Er.
  assert (Hshape : Forall2
            (λ cl r, ∃ interior,
               sequence r = 0%Z :: interior ++ [0%Z]
               ∧ NoDup interior
               ∧ (∀ x, x ∈ interior ↔ x ∈ customer_ids cl)
               ∧ route_cluster_id r = cluster_id cl
               ∧ route_vehicle_type r = vehicle_type cl) cls routes).
  { eapply Forall2_impl; [exact Er|]. cbn. intros cl r Hr.
    revert Hr. unfold nearest_neighbor_route.
    destruct (tables instance distance_data) as [tb|];
      cbn [mbind option_bind]; [|done].
    destruct (visit _ _ _ _ _) as [visited|] eqn:Ev;
      cbn [mbind option_bind]; [|done].
    destruct (nn_walk _ _ _) as [nw|]; cbn [mbind option_bind]; [|done].
    intros [= <-]. cbn.
    apply visit_members in Ev as (more & -> & Hnd & Hmem & _).
    exists more. split_and!; try done.
    intros x. rewrite Hmem. apply elem_of_list_to_set. }
  split_and!.
  - by apply Forall2_length in Er.
  - eapply Forall2_impl; [exact Hshape|]. cbn.
    by intros cl r (interior & _ & _ & _ & H1 & H2).
  - intros Hnd.
    apply build_clusters_groups in Eb as (groups & Hf & Hc).
    assert (Hids : concat (customer_ids <$> cls)
                   ≡ₚ cust_id <$> customers instance).
    { rewrite (cluster_of_ids _ _ _ Hf), Hc.
      by rewrite customer_angles_Permutation. }
    rewrite <- Hids. apply concat_Permutation.
    rewrite <- Hids in Hnd.
    assert (Hall : Forall (λ cl, NoDup (customer_ids cl)) cls).
    { apply Forall_forall. intros cl Hcl.
      eapply NoDup_concat_part; [exact Hnd|]. by apply list_elem_of_fmap_2. }
    clear -Hshape Hall.
    induction Hshape as [|cl r cls routes Hr _ IH]; cbn [fmap list_fmap];
      [constructor|].
    inversion Hall as [|? ? Hcl Hrest]; subst.
    constructor; [|by apply IH].
    destruct Hr as (interior & -> & Hndi & Hmem & _).
    rewrite interior_of_route. by apply NoDup_Permutation.
Qed.

Lemma rvnd_route_not_longer {Random : Type} instance distance_data route
    (rng : Random) baseline improved :
  Rvnd.evaluate_route (r_sequence route) instance distance_data
    = Some baseline →
  Rvnd.rvnd_route instance distance_data route rng = Some improved →
  (Rvnd.total_distance improved <= Rvnd.total_distance baseline)%Q.
Proof.
  intros Eb. unfold Rvnd.rvnd_route. rewrite Eb. cbn [mbind option_bind].
  destruct (Rvnd.search _ _ _ _ _) as [[s' d']|] eqn:Es;
    cbn [mbind option_bind]; [|done].
  intros Hf.
  destruct (search_descent _ _ _ _ _ _ _ Es) as (Hd & Hl & Hle).
  destruct (descent_last_evaluated _ _ _ _ _ _ Eb eq_refl Hd) as (m' & H1 & H2).
  rewrite Hl in H1, H2. cbn in H1, H2. rewrite Hf in H1.
  inversion H1; subst m'. by rewrite H2.
Qed.

Lemma main_loop_summary {Random : Type} instance distance_data (rng : Random)
    clusters : ∀ acc acc',
  Rvnd.main_loop instance distance_data rng acc clusters = Some acc' →
  (Rvnd.distance_after acc.2 <= Rvnd.distance_before acc.2)%Q →
  (Rvnd.distance_after acc'.2 <= Rvnd.distance_before acc'.2)%Q
  ∧ ∃ more,
      acc'.1 = acc.1 ++ more
      ∧ Forall2 (λ route res,
                   Rvnd.cluster_id res = r_cluster_id route
                   ∧ Rvnd.vehicle_type res = r_vehicle_type route
                   ∧ Rvnd.evaluate_route (r_sequence route) instance
                       distance_data = Some (Rvnd.baseline res)
                   ∧ Rvnd.rvnd_route instance distance_data route rng
                     = Some (Rvnd.improved res))
          clusters more.
Proof.
  induction clusters as [|route clusters IH]; intros acc acc';
    cbn [Rvnd.main_loop].
  { intros [= <-] Hle. split; [done|]. exists []. rewrite app_nil_r.
    split; [done | constructor]. }
  unfold Rvnd.main_step at 1.
  destruct (Rvnd.evaluate_route _ _ _) as [baseline|] eqn:Eb;
    cbn [mbind option_bind]; [|done].
  destruct (Rvnd.rvnd_route _ _ _ _) as [improved|] eqn:Ei;
    cbn [mbind option_bind]; [|done].
  intros Hloop Hle.
  pose proof (rvnd_route_not_longer _ _ _ _ _ _ Eb Ei) as Hstep.
  apply IH in Hloop as (Hle' & more & Hmore & Hall).
  - split; [done|]. eexists (_ :: more). split.
    + rewrite Hmore. cbn [fst]. by rewrite <- app_assoc.
    + constructor; [|done]. by cbn.
  - cbn. lra.
Qed.

(** X24: main of rvnd.py reports one result per input route, with the
    route's cluster id and vehicle type, its plain evaluation as baseline
    and the result of rvnd_route as improved; the summed distance after
    the search is never above the summed distance before. *)
Theorem rvnd_main_summary (Random : Type) (instance : Instance)
    (distance_data : DistanceData) (clusters : list Route) (rng : Random)
    (out : Rvnd.Output) :
  Rvnd.main instance distance_data clusters rng = Some out →
  (Rvnd.distance_after (Rvnd.summary out)
   <= Rvnd.distance_before (Rvnd.summary out))%Q
  ∧ Forall2 (λ route res,
               Rvnd.cluster_id res = r_cluster_id route
               ∧ Rvnd.vehicle_type res = r_vehicle_type route
               ∧ Rvnd.evaluate_route (r_sequence route) instance
                   distance_data = Some (Rvnd.baseline res)
               ∧ Rvnd.rvnd_route instance distance_data route rng
                 = Some (Rvnd.improved res))
      clusters (Rvnd.routes out).
Proof.
  unfold Rvnd.main.
  destruct (Rvnd.main_loop _ _ _ _ _) as [[results summary]|] eqn:El;
    cbn [mbind option_bind]; [|done].
  intros [= <-]. cbn [Rvnd.summary Rvnd.routes].
  apply main_loop_summary in El as (Hle & more & Hmore & Hall).
  - cbn in Hle, Hmore. subst results. by split.
  - cbn. lra.
Qed.

Section OrderedDictFacts.
Context {V : Type}.
Implicit Types d : list (Z * V).

Lemma od_lookup_keys k d : is_Some (Hasil.od_lookup k d) ↔ k ∈ d.*1.
Proof.
  induction d as [|[k' v] d IH]; cbn [Hasil.od_lookup fmap list_fmap fst].
  - split; [intros [? [=]] | intros H; inversion H].
  - destruct (Z.eqb_spec k k') as [->|Hne].
    + split; [intros _; apply list_elem_of_here | by eexists].
    + rewrite IH, elem_of_cons. cbn. tauto.
Qed.

Lemma od_insert_keys k v d :
  (Hasil.od_insert k v d).*1 = if bool_decide (k ∈ d.*1) then d.*1
                               else d.*1 ++ [k].
Proof.
  induction d as [|[k' v'] d IH]; cbn [Hasil.od_insert fmap list_fmap fst].
  - rewrite bool_decide_eq_false_2; [done | intros H; inversion H].
  - destruct (Z.eqb_spec k k') as [->|Hne].
    + rewrite bool_decide_eq_true_2 by apply list_elem_of_here. done.
    + cbn [fmap list_fmap fst]. fold (@fmap list _ _ _ (@fst Z V)).
      change (list_fmap _ _ fst (Hasil.od_insert k v d))
        with ((Hasil.od_insert k v d).*1).
      change (list_fmap _ _ fst d) with (d.*1).
      rewrite IH. cbn [fst].
      destruct (decide (k ∈ d.*1)) as [Hin|Hout].
      * rewrite !bool_decide_eq_true_2; [done | | done].
        by apply list_elem_of_further.
      * rewrite !bool_decide_eq_false_2; [done | | done].
        rewrite elem_of_cons. tauto.
Qed.

Lemma od_insert_NoDup k v d : NoDup d.*1 → NoDup (Hasil.od_insert k v d).*1.
Proof.
  intros Hnd. rewrite od_insert_keys. case_bool_decide as Hin; [done|].
  apply NoDup_app. split_and!; [done | | apply NoDup_singleton].
  intros x Hx Hx'. apply list_elem_of_singleton in Hx'. by subst.
Qed.

Lemma od_alter_keys f k d : (Hasil.od_alter f k d).*1 = d.*1.
Proof.
  induction d as [|[k' v] d IH]; [done|].
  cbn [Hasil.od_alter]. destruct (k =? k')%Z; [done|].
  cbn [fmap list_fmap fst] in *. by f_equal.
Qed.

Lemma od_alter_split f k d v :
  Hasil.od_lookup k d = Some v →
  ∃ d1 d2, d = d1 ++ (k, v) :: d2
           ∧ Hasil.od_alter f k d = d1 ++ (k, f v) :: d2
           ∧ k ∉ d1.*1.
Proof.
  induction d as [|[k' v'] d IH]; [done|].
  cbn [Hasil.od_lookup Hasil.od_alter].
  destruct (Z.eqb_spec k k') as [->|Hne].
  - intros [= ->]. exists [], d. split_and!; [done | done |].
    intros H; inversion H.
  - intros Hl. destruct (IH Hl) as (d1 & d2 & -> & -> & Hout).
    exists ((k', v') :: d1), d2. split_and!; [done | done |].
    cbn [fmap list_fmap fst]. rewrite elem_of_cons. tauto.
Qed.

Lemma od_insert_fresh k v d :
  Hasil.od_lookup k d = None → Hasil.od_insert k v d = d ++ [(k, v)].
Proof.
  induction d as [|[k' v'] d IH]; [done|].
  cbn [Hasil.od_lookup Hasil.od_insert].
  destruct (k =? k')%Z; [done|]. intros Hl. by rewrite IH.
Qed.

Lemma od_setdefault_lookup k v d :
  ∃ v', Hasil.od_lookup k (Hasil.od_setdefault k v d) = Some v'
        ∧ (Hasil.od_lookup k d = Some v' ∧ Hasil.od_setdefault k v d = d
           ∨ Hasil.od_lookup k d = None ∧ v' = v
             ∧ Hasil.od_setdefault k v d = d ++ [(k, v)]).
Proof.
  unfold Hasil.od_setdefault.
  destruct (Hasil.od_lookup k d) as [v'|] eqn:Hl.
  - exists v'. split; [done | by left].
  - exists v. split; [| right; split_and!; [done | done |]].
    + rewrite od_insert_fresh by done. clear -Hl.
      induction d as [|[k' v'] d IH]; cbn [Hasil.od_lookup app] in *.
      * by rewrite Z.eqb_refl.
      * destruct (k =? k')%Z; [done | auto].
    + by apply od_insert_fresh.
Qed.
End OrderedDictFacts.

(** Booking a route changes one entry: the route's distance and
    customers are added to it, and a missing depot is entered at the end
    with nothing booked. *)
Lemma book_route_split depot_map per_depot route :
  ∃ d1 d2 info base,
    base = d1 ++ (Hasil.route_depot per_depot
                    (default [] (Hasil.route_stops route)), info) :: d2
    ∧ (base = per_depot
       ∨ base = per_depot
                ++ [(Hasil.route_depot per_depot
                       (default [] (Hasil.route_stops route)),
                     Hasil.empty_info depot_map
                       (Hasil.route_depot per_depot
                          (default [] (Hasil.route_stops route))))]
         ∧ Hasil.route_depot per_depot (default [] (Hasil.route_stops route))
           ∉ per_depot.*1)
    ∧ Hasil.book_route depot_map per_depot route
      = d1 ++ (Hasil.route_depot per_depot
                 (default [] (Hasil.route_stops route)),
               {| Hasil.name := Hasil.name info;
                  Hasil.distance :=
                    (Hasil.distance info + booked_distance route)%Q;
                  Hasil.customers :=
                    Hasil.customers info ++ booked_customers route |}) :: d2.
Proof.
  unfold Hasil.book_route.
  set (k := Hasil.route_depot per_depot _).
  set (e := Hasil.empty_info depot_map k).
  destruct (od_setdefault_lookup k e per_depot) as (v' & Hl & Hcase).
  destruct (od_alter_split
              (λ info, {| Hasil.name := Hasil.name info;
                          Hasil.distance :=
                            (Hasil.distance info
                             + default 0%Q (Hasil.route_total_distance route))%Q;
                          Hasil.customers :=
                            Hasil.customers info
                            ++ List.filter (λ nid, negb (nid =? 0)%Z)
                                 (default [] (Hasil.route_sequence route)) |})
              k _ v' Hl) as (d1 & d2 & Hbase & Halter & _).
  exists d1, d2, v', (Hasil.od_setdefault k e per_depot).
  split_and!; [done | | exact Halter].
  destruct Hcase as [[_ ->] | (Hnone & -> & ->)]; [by left | right].
  split; [done|]. intros Hin. apply od_lookup_keys in Hin.
  rewrite Hnone in Hin. by destruct Hin.
Qed.

Lemma summary_distances_app d1 d2 :
  summary_distances (d1 ++ d2) = summary_distances d1 ++ summary_distances d2.
Proof. unfold summary_distances. by rewrite fmap_app. Qed.

Lemma summary_customers_app d1 d2 :
  summary_customers (d1 ++ d2) = summary_customers d1 ++ summary_customers d2.
Proof. unfold summary_customers. by rewrite fmap_app, concat_app. Qed.

Lemma book_route_distance depot_map per_depot route :
  (sum_list (summary_distances (Hasil.book_route depot_map per_depot route))
   == sum_list (summary_distances per_depot) + booked_distance route)%Q.
Proof.
  destruct (book_route_split depot_map per_depot route)
    as (d1 & d2 & info & base & Hbase & Hcase & ->).
  assert (sum_list (summary_distances base)
          == sum_list (summary_distances per_depot))%Q as <-.
  { destruct Hcase as [-> | [-> _]]; [reflexivity|].
    rewrite summary_distances_app, sum_list_app.
    assert (sum_list (summary_distances
              [(Hasil.route_depot per_depot
                  (default [] (Hasil.route_stops route)),
                Hasil.empty_info depot_map
                  (Hasil.route_depot per_depot
                     (default [] (Hasil.route_stops route))))]) == 0)%Q
      as ->; [reflexivity | ring]. }
  rewrite Hbase, !summary_distances_app, !sum_list_app.
  change (summary_distances (?x :: d2))
    with (Hasil.distance x.2 :: summary_distances d2).
  rewrite !sum_list_cons. cbn [snd Hasil.distance]. ring.
Qed.

Lemma book_route_customers depot_map per_depot route :
  summary_customers (Hasil.book_route depot_map per_depot route)
  ≡ₚ summary_customers per_depot ++ booked_customers route.
Proof.
  destruct (book_route_split depot_map per_depot route)
    as (d1 & d2 & info & base & Hbase & Hcase & ->).
  assert (summary_customers base = summary_customers per_depot) as <-.
  { destruct Hcase as [-> | [-> _]]; [done|].
    rewrite summary_customers_app. unfold summary_customers at 2.
    cbn. by rewrite app_nil_r. }
  rewrite Hbase, !summary_customers_app.
  change (summary_customers (?x :: d2))
    with (Hasil.customers x.2 ++ summary_customers d2).
  cbn [snd Hasil.customers].
  rewrite <- !app_assoc. do 2 apply Permutation_app_head.
  apply Permutation_app_comm.
Qed.

Lemma book_route_keys depot_map per_depot route :
  NoDup per_depot.*1 →
  NoDup (Hasil.book_route depot_map per_depot route).*1
  ∧ ((Hasil.book_route depot_map per_depot route).*1 = per_depot.*1
     ∨ per_depot = []
       ∧ (Hasil.book_route depot_map per_depot route).*1 = [0%Z]).
Proof.
  intros Hnd. unfold Hasil.book_route.
  set (k := Hasil.route_depot per_depot _).
  rewrite od_alter_keys.
  unfold Hasil.od_setdefault.
  destruct (Hasil.od_lookup k per_depot) eqn:Hl; [by split; [|left]|].
  split; [by apply od_insert_NoDup|].
  (* the depot chosen is a key unless there is none *)
  assert (per_depot = [] ∧ k = 0%Z) as [-> ->].
  { subst k. unfold Hasil.route_depot in *.
    destruct per_depot as [|[k0 v0] rest].
    - split; [done|].
      destruct (default [] (Hasil.route_stops route)) as [|first ?];
        [done|].
      by destruct (Hasil.stop_node_id first).
    - exfalso. revert Hl.
      set (dd := (k0, v0) :: rest).
      assert (∀ k, k ∈ dd.*1 → Hasil.od_lookup k dd ≠ None) as Hkey.
      { intros k Hk Hn. apply od_lookup_keys in Hk. rewrite Hn in Hk.
        by destruct Hk. }
      assert (Hasil.od_first_key dd = Some k0) as Hfirst by done.
      destruct (default [] (Hasil.route_stops route)) as [|first ?].
      + rewrite Hfirst. cbn [default]. apply Hkey, list_elem_of_here.
      + destruct (Hasil.stop_node_id first) as [n|].
        * case_bool_decide as Hn.
          -- apply Hkey. by apply od_lookup_keys.
          -- rewrite Hfirst. destruct (length dd =? 1)%nat;
               cbn [default]; apply Hkey, list_elem_of_here.
        * rewrite Hfirst. destruct (length dd =? 1)%nat;
            cbn [default]; apply Hkey, list_elem_of_here. }
  right. split; [done|]. done.
Qed.

Lemma per_depot_start_keys depots :
  NoDup (Hasil.per_depot_start depots).*1
  ∧ ∀ k, k ∈ (Hasil.per_depot_start depots).*1 ↔ k ∈ Hasil.depot_ids depots.
Proof.
  unfold Hasil.per_depot_start.
  generalize (Hasil.depot_map depots). intros dm.
  assert (∀ ids d, NoDup d.*1 →
            NoDup (fold_left (λ d did, Hasil.od_insert did
                                         (Hasil.empty_info dm did) d)
                             ids d).*1
            ∧ ∀ k, k ∈ (fold_left (λ d did, Hasil.od_insert did
                                              (Hasil.empty_info dm did) d)
                                  ids d).*1
                   ↔ k ∈ d.*1 ∨ k ∈ ids) as Hgen.
  { induction ids as [|x ids IH]; intros d Hnd; cbn [fold_left].
    - split; [done|]. intros k. rewrite elem_of_nil. tauto.
    - destruct (IH (Hasil.od_insert x (Hasil.empty_info dm x) d)
                  (od_insert_NoDup _ _ _ Hnd)) as [H1 H2].
      split; [done|]. intros k. rewrite H2, od_insert_keys, elem_of_cons.
      case_bool_decide as Hin.
      + split; [tauto|]. intros [?|[->|?]]; auto.
      + rewrite elem_of_app, list_elem_of_singleton. tauto. }
  destruct (Hgen (Hasil.depot_ids depots) [] (NoDup_nil_2)) as [H1 H2].
  split; [done|]. intros k. rewrite H2, elem_of_nil. tauto.
Qed.

Lemma per_depot_start_empty depots :
  Forall (λ item, Hasil.distance item.2 = 0%Q ∧ Hasil.customers item.2 = [])
         (Hasil.per_depot_start depots).
Proof.
  unfold Hasil.per_depot_start.
  generalize (Hasil.depot_map depots). intros dm.
  assert (∀ k v (d : list (Z * Hasil.DepotInfo)) (P : Z * Hasil.DepotInfo → Prop),
            P (k, v) → Forall P d → Forall P (Hasil.od_insert k v d)) as Hins.
  { intros k v d P Hkv. induction 1 as [|[k' v'] d Hx Hd IH];
      cbn [Hasil.od_insert].
    - by constructor.
    - destruct (k =? k')%Z; constructor; auto. }
  assert (∀ ids d,
            Forall (λ item, Hasil.distance item.2 = 0%Q
                            ∧ Hasil.customers item.2 = []) d →
            Forall (λ item, Hasil.distance item.2 = 0%Q
                            ∧ Hasil.customers item.2 = [])
                   (fold_left (λ d did, Hasil.od_insert did
                                          (Hasil.empty_info dm did) d)
                              ids d)) as Hgen.
  { induction ids as [|x ids IH]; intros d Hd; [done|].
    cbn [fold_left]. apply IH, Hins; [by split | done]. }
  apply Hgen. constructor.
Qed.

Lemma sum_list_zeros l : Forall (λ q, q = 0%Q) l → (sum_list l == 0)%Q.
Proof.
  induction 1 as [|x l -> _ IH]; [reflexivity|].
  rewrite sum_list_cons, IH. ring.
Qed.

Lemma insert_item_Permutation item sorted :
  Hasil.insert_item item sorted ≡ₚ item :: sorted.
Proof.
  induction sorted as [|h t IH]; [done|]. cbn [Hasil.insert_item].
  destruct (h.1 <? item.1)%Z; [|done].
  rewrite IH. apply perm_swap.
Qed.

Lemma sorted_items_Permutation per_depot :
  Hasil.sorted_items per_depot ≡ₚ per_depot.
Proof.
  induction per_depot as [|x d IH]; [done|].
  unfold Hasil.sorted_items. cbn [foldr]. rewrite insert_item_Permutation.
  by constructor.
Qed.

Lemma total_all_sum per_depot :
  (Hasil.total_all per_depot == sum_list (summary_distances per_depot))%Q.
Proof.
  unfold Hasil.total_all.
  assert (∀ l acc,
            (fold_left (λ total (item : Z * Hasil.DepotInfo),
                          (total + Hasil.distance item.2)%Q) l acc
             == acc + sum_list (summary_distances l))%Q) as Hfold.
  { induction l as [|x l IH]; intros acc; cbn [fold_left].
    - unfold summary_distances, sum_list. cbn. ring.
    - rewrite IH. unfold summary_distances. cbn [fmap list_fmap].
      rewrite sum_list_cons. ring. }
  rewrite Hfold, Qplus_0_l.
  apply sum_list_Permutation, fmap_Permutation, sorted_items_Permutation.
Qed.

Lemma summary_fold depot_map routes : ∀ per_depot,
  (sum_list (summary_distances
               (fold_left (Hasil.book_route depot_map) routes per_depot))
   == sum_list (summary_distances per_depot)
      + sum_list (booked_distance <$> routes))%Q
  ∧ summary_customers
      (fold_left (Hasil.book_route depot_map) routes per_depot)
    ≡ₚ summary_customers per_depot ++ concat (booked_customers <$> routes).
Proof.
  induction routes as [|r routes IH]; intros per_depot; cbn [fold_left].
  - split.
    + unfold sum_list at 3. cbn. ring.
    + cbn. by rewrite app_nil_r.
  - destruct (IH (Hasil.book_route depot_map per_depot r)) as [H1 H2].
    split.
    + rewrite H1, book_route_distance. cbn [fmap list_fmap].
      rewrite sum_list_cons. ring.
    + rewrite H2, book_route_customers. cbn [fmap list_fmap concat].
      by rewrite <- app_assoc.
Qed.

(** X25: the summary keeps the total distance: the distances booked on the
    depots, and the grand total shown last, add up to the distances of
    the routes (a route without a distance counting 0). *)
Theorem depot_summary_distance points_depots result :
  (sum_list (summary_distances
               (Hasil._build_depot_summary_from_result points_depots result))
   == sum_list (booked_distance <$> routes_of result))%Q
  ∧ (Hasil.total_all
       (Hasil._build_depot_summary_from_result points_depots result)
     == sum_list (booked_distance <$> routes_of result))%Q.
Proof.
  assert (sum_list (summary_distances
               (Hasil._build_depot_summary_from_result points_depots result))
          == sum_list (booked_distance <$> routes_of result))%Q as H.
  { assert (sum_list (summary_distances
                        (Hasil.per_depot_start (default [] points_depots)))
            == 0)%Q as Hstart.
    { apply sum_list_zeros. unfold summary_distances.
      apply Forall_fmap.
      eapply Forall_impl; [apply per_depot_start_empty|].
      intros item [H _]. exact H. }
    unfold Hasil._build_depot_summary_from_result, routes_of.
    destruct result as [routes|]; cbn [mbind option_bind id default].
    - destruct (summary_fold (Hasil.depot_map (default [] points_depots))
                  (default [] routes)
                  (Hasil.per_depot_start (default [] points_depots)))
        as [-> _].
      rewrite Hstart. ring.
    - rewrite Hstart. reflexivity. }
  split; [exact H|]. by rewrite total_all_sum.
Qed.

(** X26: the customers listed under the depots are the nodes of the
    routes' sequences other than 0, each as often as it is visited;
    node 0 is never listed. *)
Theorem depot_summary_customers points_depots result :
  summary_customers
    (Hasil._build_depot_summary_from_result points_depots result)
  ≡ₚ concat (booked_customers <$> routes_of result)
  ∧ 0%Z ∉ summary_customers
            (Hasil._build_depot_summary_from_result points_depots result).
Proof.
  assert (summary_customers
            (Hasil._build_depot_summary_from_result points_depots result)
          ≡ₚ concat (booked_customers <$> routes_of result)) as H.
  { assert (summary_customers
              (Hasil.per_depot_start (default [] points_depots)) = [])
      as Hstart.
    { unfold summary_customers.
      pose proof (per_depot_start_empty (default [] points_depots)) as Hall.
      induction Hall as [|x l [_ Hx] _ IH]; [done|].
      cbn [fmap list_fmap concat]. by rewrite Hx. }
    unfold Hasil._build_depot_summary_from_result, routes_of.
    destruct result as [routes|]; cbn [mbind option_bind id default].
    - destruct (summary_fold (Hasil.depot_map (default [] points_depots))
                  (default [] routes)
                  (Hasil.per_depot_start (default [] points_depots)))
        as [_ ->].
      by rewrite Hstart.
    - by rewrite Hstart. }
  split; [exact H|].
  rewrite H. intros Hin.
  apply list_elem_of_In, in_concat in Hin. destruct Hin as (l & Hl & Hin).
  apply list_elem_of_In, list_elem_of_fmap in Hl. destruct Hl as (r & -> & _).
  unfold booked_customers in Hin. apply filter_In in Hin.
  by destruct Hin as [_ Hin].
Qed.

(** X27: every depot of the input has one entry in the summary, also when
    no route is booked on it, and with at least one depot the summary
    has no other entry; without depots everything is booked on key 0. *)
Theorem depot_summary_keys points_depots result :
  NoDup (Hasil._build_depot_summary_from_result points_depots result).*1
  ∧ (∀ k, k ∈ Hasil.depot_ids (default [] points_depots) →
          k ∈ (Hasil._build_depot_summary_from_result points_depots result).*1)
  ∧ (default [] points_depots ≠ [] →
     ∀ k, k ∈ (Hasil._build_depot_summary_from_result points_depots result).*1
          → k ∈ Hasil.depot_ids (default [] points_depots))
  ∧ (default [] points_depots = [] →
     (Hasil._build_depot_summary_from_result points_depots result).*1
     = if decide (routes_of result = []) then [] else [0%Z]).
Proof.
  set (depots := default [] points_depots).
  destruct (per_depot_start_keys depots) as [Hnd Hkeys].
  assert (∀ routes per_depot,
            NoDup per_depot.*1 →
            NoDup (fold_left (Hasil.book_route (Hasil.depot_map depots))
                             routes per_depot).*1
            ∧ ((fold_left (Hasil.book_route (Hasil.depot_map depots))
                          routes per_depot).*1 = per_depot.*1
               ∨ per_depot = [] ∧ routes ≠ []
                 ∧ (fold_left (Hasil.book_route (Hasil.depot_map depots))
                              routes per_depot).*1 = [0%Z])) as Hfold.
  { induction routes as [|r routes IH]; intros per_depot Hd; cbn [fold_left].
    - split; [done | by left].
    - destruct (book_route_keys (Hasil.depot_map depots) per_depot r Hd)
        as [Hd' Hcase].
      destruct (IH _ Hd') as [Hd'' Hcase'].
      split; [done|].
      destruct Hcase' as [-> | (Hnil & _ & _)].
      + destruct Hcase as [-> | [-> ->]]; [by left | by right].
      + exfalso. destruct Hcase as [Heq | [_ Heq]];
          rewrite Hnil in Heq; [|done].
        destruct (book_route_split (Hasil.depot_map depots) per_depot r)
          as (d1 & d2 & ? & ? & _ & _ & Hb).
        rewrite Hb in Hnil. by destruct d1. }
  unfold Hasil._build_depot_summary_from_result, routes_of.
  fold depots.
  destruct result as [routes|]; cbn [mbind option_bind id].
  - destruct (Hfold (default [] routes) _ Hnd) as [Hnd' Hcase].
    split_and!; [done | | |].
    + intros k Hk. destruct Hcase as [-> | (Hnil & _ & _)].
      * by apply Hkeys.
      * apply Hkeys in Hk. rewrite Hnil in Hk. inversion Hk.
    + intros Hne k Hk. destruct Hcase as [Heq | (Hnil & _ & _)].
      * rewrite Heq in Hk. by apply Hkeys.
      * exfalso. destruct depots as [|d0 ?] eqn:Hd; [done|].
        assert (default (Z.of_nat 0) (Hasil.point_id d0)
                ∈ (Hasil.per_depot_start (d0 :: l)).*1) as Hin.
        { apply Hkeys. apply list_elem_of_here. }
        rewrite Hnil in Hin. inversion Hin.
    + intros ->. destruct (default [] routes) as [|r rs] eqn:Hr.
      * done.
      * rewrite decide_False by done.
        destruct Hcase as [Heq | (_ & _ & Heq)]; [|done].
        exfalso. cbn [fold_left] in Heq.
        change (Hasil.per_depot_start []) with (@nil (Z * Hasil.DepotInfo))
          in *.
        destruct (book_route_keys (Hasil.depot_map []) [] r (NoDup_nil_2))
          as [Hd' [Hc | [_ Hc]]].
        -- destruct (book_route_split (Hasil.depot_map []) [] r)
             as (d1 & d2 & ? & ? & _ & _ & Hb).
           rewrite Hb in Hc. by destruct d1.
        -- destruct (Hfold rs _ Hd') as [_ [Hc' | (Hnil & _ & _)]].
           ++ rewrite Hc', Hc in Heq. done.
           ++ rewrite Hnil in Hc. done.
  - cbn [default]. split_and!; [done | | |].
    + intros k. apply Hkeys.
    + intros _ k. apply Hkeys.
    + intros ->. by rewrite decide_True.
Qed.

(** X28: with one depot every route is booked on it, whatever its stops
    say, in the order of the routes. *)
Theorem depot_summary_single_depot d result :
  Hasil._build_depot_summary_from_result (Some [d]) result
  = [(default 0%Z (Hasil.point_id d),
      {| Hasil.name := default EmptyString (Hasil.point_name d);
         Hasil.distance :=
           fold_left Qplus (booked_distance <$> routes_of result) 0%Q;
         Hasil.customers := concat (booked_customers <$> routes_of result) |})].
Proof.
  unfold Hasil._build_depot_summary_from_result, routes_of.
  cbv zeta.
  change (default [] (Some [d])) with [d].
  set (k := default 0%Z (Hasil.point_id d)).
  set (nm := default EmptyString (Hasil.point_name d)).
  assert (Hasil.depot_map [d] !! k = Some nm) as Hname.
  { unfold Hasil.depot_map, Py.dict. cbn. apply lookup_insert_eq. }
  assert (Hasil.per_depot_start [d]
          = [(k, {| Hasil.name := nm; Hasil.distance := 0;
                    Hasil.customers := [] |})]) as ->.
  { change (Hasil.per_depot_start [d])
      with [(k, Hasil.empty_info (Hasil.depot_map [d]) k)].
    unfold Hasil.empty_info. by rewrite Hname. }
  assert (∀ routes q cs,
            fold_left (Hasil.book_route (Hasil.depot_map [d])) routes
              [(k, {| Hasil.name := nm; Hasil.distance := q;
                      Hasil.customers := cs |})]
            = [(k, {| Hasil.name := nm;
                      Hasil.distance :=
                        fold_left Qplus (booked_distance <$> routes) q;
                      Hasil.customers :=
                        cs ++ concat (booked_customers <$> routes) |})])
    as Hfold.
  { induction routes as [|r routes IH]; intros q cs; cbn [fold_left].
    - cbn. by rewrite app_nil_r.
    - assert (Hasil.route_depot
                [(k, {| Hasil.name := nm; Hasil.distance := q;
                        Hasil.customers := cs |})]
                (default [] (Hasil.route_stops r)) = k) as Hk.
      { unfold Hasil.route_depot.
        destruct (default [] (Hasil.route_stops r)) as [|first ?]; [done|].
        destruct (Hasil.stop_node_id first) as [n|]; [|done].
        case_bool_decide as Hn; [|done].
        cbn [Hasil.od_lookup] in Hn.
        destruct (Z.eqb_spec n k); [done | by destruct Hn]. }
      unfold Hasil.book_route at 2. rewrite Hk.
      unfold Hasil.od_setdefault. cbn [Hasil.od_lookup Hasil.od_alter].
      rewrite Z.eqb_refl. cbn [Hasil.od_alter]. rewrite Z.eqb_refl.
      cbn [Hasil.name Hasil.distance Hasil.customers].
      rewrite IH. cbn [fmap list_fmap concat fold_left].
      by rewrite <- app_assoc. }
  destruct result as [routes|]; cbn [mbind option_bind id].
  - by rewrite Hfold.
  - done.
Qed.

Section FirstImprovement.
Variable instance : Instance.
Variable distance_data : DistanceData.



End FirstImprovement.


(** ** The further statements on the worked instances *)

Lemma evaluate_route_shape_witness :
  Rvnd.evaluate_route [0; 1; 2; 3; 0]%Z line_instance line_distance_data
  = Some line_improved
  ∧ Rvnd.sequence line_improved = [0; 1; 2; 3; 0]%Z
  ∧ length (Rvnd.stops line_improved) = length [0; 1; 2; 3; 0]%Z
  ∧ node_id <$> Rvnd.stops line_improved = 0%Z :: tail [0; 1; 2; 3; 0]%Z.
Proof.
  exact (conj line_evaluation (evaluate_route_shape _ _ _ _ line_evaluation)).
Defined.

Lemma evaluate_route_leg_sums_witness :
  Rvnd.evaluate_route [0; 1; 2; 3; 0]%Z line_instance line_distance_data
  = Some line_improved
  ∧ ∃ first rest,
      [0; 1; 2; 3; 0]%Z = first :: rest
      ∧ leg_sum (node_index_of line_distance_data)
          (distance_matrix line_distance_data) first rest 0
        = Some (Rvnd.total_distance line_improved)
      ∧ leg_sum (node_index_of line_distance_data)
          (travel_time_matrix line_distance_data) first rest 0
        = Some (Rvnd.total_travel_time line_improved).
Proof.
  exact (conj line_evaluation
           (evaluate_route_leg_sums _ _ _ _ line_evaluation)).
Defined.

Lemma evaluate_route_penalties_witness :
  Rvnd.evaluate_route [0; 1; 2; 3; 0]%Z line_instance line_distance_data
  = Some line_improved
  ∧ Forall (λ stop, (0 <= wait stop)%Q ∧ (0 <= violation stop)%Q)
      (Rvnd.stops line_improved)
  ∧ Rvnd.total_tw_violation line_improved
    = customer_violations (Rvnd.stops line_improved)
  ∧ (0 <= Rvnd.total_tw_violation line_improved)%Q.
Proof.
  exact (conj line_evaluation
           (evaluate_route_penalties _ _ _ _ line_evaluation)).
Defined.

Lemma line_route_length : 2 ≤ length [0; 1; 2; 3; 0]%Z.
Proof. cbn. lia. Qed.

Lemma evaluate_route_known_nodes_witness :
  Rvnd.evaluate_route [0; 1; 2; 3; 0]%Z line_instance line_distance_data
  = Some line_improved
  ∧ 2 ≤ length [0; 1; 2; 3; 0]%Z
  ∧ (∀ x, x ∈ [0; 1; 2; 3; 0]%Z → x ∈ nodes line_distance_data)
  ∧ (∀ x, x ∈ tail [0; 1; 2; 3; 0]%Z → x ≠ 0%Z →
          x ∈ cust_id <$> customers line_instance).
Proof.
  exact (conj line_evaluation
           (conj line_route_length
              (evaluate_route_known_nodes _ _ _ _ line_evaluation
                 line_route_length))).
Defined.

Lemma line_tables :
  ∃ tb, tables line_instance line_distance_data = Some tb.
Proof. eexists. vm_compute. reflexivity. Qed.

Lemma evaluate_route_short_witness :
  Rvnd.evaluate_route [] line_instance line_distance_data = None
  ∧ ∃ tb m opening,
      tables line_instance line_distance_data = Some tb
      ∧ Rvnd.evaluate_route [7%Z] line_instance line_distance_data = Some m
      ∧ Rvnd.stops m = [opening]
      ∧ node_id opening = 0%Z
      ∧ Rvnd.total_distance m = 0%Q.
Proof.
  destruct (evaluate_route_short line_instance line_distance_data 7)
    as [Hnil Hone].
  destruct line_tables as [tb Ht].
  destruct (Hone tb Ht) as (m & opening & He & Hs & Hn & _ & _ & Hd & _).
  split; [exact Hnil|]. exists tb, m, opening.
  exact (conj Ht (conj He (conj Hs (conj Hn Hd)))).
Defined.

Lemma line_matrix_nonneg :
  Forall (Forall (λ t, (0 <= t)%Q)) (travel_time_matrix line_distance_data).
Proof. repeat (constructor; try (vm_compute; discriminate)). Qed.

Lemma line_depot_service_nonneg :
  (0 <= default 0 (depot_service_time (depot line_instance)))%Q.
Proof. vm_compute. discriminate. Qed.

Lemma line_service_nonneg :
  Forall (λ c, (0 <= cust_service_time c)%Q) (customers line_instance).
Proof. repeat (constructor; try (vm_compute; discriminate)). Qed.

Lemma evaluate_route_chronology_witness :
  Rvnd.evaluate_route [0; 1; 2; 3; 0]%Z line_instance line_distance_data
  = Some line_improved
  ∧ Forall (Forall (λ t, (0 <= t)%Q)) (travel_time_matrix line_distance_data)
  ∧ (0 <= default 0 (depot_service_time (depot line_instance)))%Q
  ∧ Forall (λ c, (0 <= cust_service_time c)%Q) (customers line_instance)
  ∧ Forall (λ stop, (arrival stop <= departure stop)%Q)
      (Rvnd.stops line_improved).
Proof.
  exact (conj line_evaluation
           (conj line_matrix_nonneg
              (conj line_depot_service_nonneg
                 (conj line_service_nonneg
                    (proj1 (evaluate_route_chronology _ _ _ _
                              line_evaluation line_matrix_nonneg
                              line_depot_service_nonneg
                              line_service_nonneg)))))).
Defined.

Lemma apply_two_opt_involutive_witness :
  1 ≤ 3 ∧ 3 < length [0; 2; 1; 3; 0]%Z
  ∧ Rvnd.apply_two_opt (Rvnd.apply_two_opt [0; 2; 1; 3; 0]%Z 1 3) 1 3
    = [0; 2; 1; 3; 0]%Z.
Proof.
  assert (H1 : 1 ≤ 3) by lia.
  assert (H2 : 3 < length [0; 2; 1; 3; 0]%Z) by (cbn; lia).
  exact (conj H1 (conj H2 (apply_two_opt_involutive _ 1 3 H1 H2))).
Defined.

Lemma apply_swap_involutive_witness :
  Rvnd.apply_swap [0; 2; 1; 3; 0]%Z 1 2 = Some [0; 1; 2; 3; 0]%Z
  ∧ Rvnd.apply_swap [0; 2; 1; 3; 0]%Z 2 1 = Some [0; 1; 2; 3; 0]%Z
  ∧ Rvnd.apply_swap [0; 1; 2; 3; 0]%Z 1 2 = Some [0; 2; 1; 3; 0]%Z.
Proof.
  assert (H : Rvnd.apply_swap [0; 2; 1; 3; 0]%Z 1 2
              = Some [0; 1; 2; 3; 0]%Z) by (vm_compute; reflexivity).
  exact (conj H (apply_swap_involutive _ _ 1 2 H)).
Defined.

Lemma two_opt_adjacent_is_swap_witness :
  1 + 1 < length [0; 2; 1; 3; 0]%Z
  ∧ Rvnd.apply_swap [0; 2; 1; 3; 0]%Z 1 (1 + 1)
    = Some (Rvnd.apply_two_opt [0; 2; 1; 3; 0]%Z 1 (1 + 1)).
Proof.
  assert (H : 1 + 1 < length [0; 2; 1; 3; 0]%Z) by (cbn; lia).
  exact (conj H (two_opt_adjacent_is_swap _ 1 H)).
Defined.

Lemma index_errors_witness :
  Rvnd.apply_swap [0; 2; 1; 3; 0]%Z 1 5 = None
  ∧ Rvnd.apply_relocate [0; 2; 1; 3; 0]%Z 5 1 = None
  ∧ length (Rvnd.apply_two_opt [0; 2; 1; 3; 0]%Z 1 3)
    = length [0; 2; 1; 3; 0]%Z.
Proof.
  destruct (index_errors [0; 2; 1; 3; 0]%Z 1 5) as ([_ Hs] & _).
  destruct (index_errors [0; 2; 1; 3; 0]%Z 5 1) as (_ & [_ Hr] & _).
  destruct (index_errors [0; 2; 1; 3; 0]%Z 1 3) as (_ & _ & _ & _ & Ht).
  assert (H5 : length [0; 2; 1; 3; 0]%Z ≤ 5) by (cbn; lia).
  assert (H13 : 1 ≤ 3 + 1) by lia.
  exact (conj (Hs (or_intror H5)) (conj (Hr H5) (Ht H13))).
Defined.

Lemma rvnd_route_short_witness :
  length (r_sequence {| r_cluster_id := 2; r_vehicle_type := "van";
                        r_sequence := [0; 3; 0]%Z |}) ≤ 3
  ∧ Rvnd.rvnd_route line_instance line_distance_data
      {| r_cluster_id := 2; r_vehicle_type := "van";
         r_sequence := [0; 3; 0]%Z |} ()
    = Rvnd.evaluate_route [0; 3; 0]%Z line_instance line_distance_data.
Proof.
  assert (H : length (r_sequence {| r_cluster_id := 2;
                                    r_vehicle_type := "van";
                                    r_sequence := [0; 3; 0]%Z |}) ≤ 3)
    by (cbn; lia).
  exact (conj H (proj2 (rvnd_route_short unit line_instance
                          line_distance_data _ () H))).
Defined.

Lemma rvnd_route_bounded_witness :
  Rvnd.rvnd_route line_instance line_distance_data line_route ()
  = Some line_improved
  ∧ length (Rvnd.rvnd_accepted line_instance line_distance_data line_route)
    ≤ 100
  ∧ Rvnd.evaluate_route (Rvnd.sequence line_improved) line_instance
      line_distance_data = Some line_improved.
Proof.
  destruct (rvnd_route_bounded unit line_instance line_distance_data
              line_route ()) as [Hlen Heval].
  exact (conj line_rvnd_run (conj Hlen (Heval _ line_rvnd_run))).
Defined.

Lemma cluster_ids_sequential_witness :
  build_clusters atan2_linear line_instance
  = Ok (line_clusters, {["van" := 2%Z]})
  ∧ cluster_id <$> line_clusters
    = seqZ 1 (Z.of_nat (length line_clusters))
  ∧ Forall (λ cl, customer_ids cl ≠ []) line_clusters.
Proof.
  exact (conj line_build_clusters
           (cluster_ids_sequential _ _ _ _ line_build_clusters)).
Defined.

Lemma line_fleet_ids : NoDup (fleet_id <$> fleet line_instance).
Proof. apply NoDup_singleton. Qed.

Lemma fleet_usage_counts_witness :
  build_clusters atan2_linear line_instance
  = Ok (line_clusters, {["van" := 2%Z]})
  ∧ NoDup (fleet_id <$> fleet line_instance)
  ∧ (clusters_of_type (fleet_id van) line_clusters
     <= Z.max 0 (fleet_units van))%Z.
Proof.
  destruct (fleet_usage_counts _ _ _ _ line_build_clusters) as [_ Hunits].
  exact (conj line_build_clusters
           (conj line_fleet_ids
              (Hunits line_fleet_ids van (list_elem_of_here van [])))).
Defined.

Lemma sweep_order_witness :
  build_clusters atan2_linear line_instance
  = Ok (line_clusters, {["van" := 2%Z]})
  ∧ StronglySorted angle_le (customer_angles atan2_linear line_instance)
  ∧ concat (customer_ids <$> line_clusters)
    = cust_id <$> (e_customer <$> customer_angles atan2_linear line_instance).
Proof.
  destruct (sweep_order atan2_linear line_instance) as (Hs & _ & Hc).
  exact (conj line_build_clusters (conj Hs (Hc _ _ line_build_clusters))).
Defined.

Lemma south_angle_bounds :
  (- math_pi
   <= atan2_linear (cust_y (corner_customer 3 0 (-10)) - depot_y plain_depot)%Q
        (cust_x (corner_customer 3 0 (-10)) - depot_x plain_depot)%Q
   <= math_pi)%Q.
Proof. split; vm_compute; discriminate. Qed.

Lemma south_angle_negative :
  (atan2_linear (cust_y (corner_customer 3 0 (-10)) - depot_y plain_depot)%Q
     (cust_x (corner_customer 3 0 (-10)) - depot_x plain_depot)%Q < 0)%Q.
Proof. vm_compute. reflexivity. Qed.

(** A customer straight below the depot: the arctangent is negative,
    the polar angle lies in the upper half turn. *)
Lemma compute_polar_angle_range_witness :
  (- math_pi
   <= atan2_linear (cust_y (corner_customer 3 0 (-10)) - depot_y plain_depot)%Q
        (cust_x (corner_customer 3 0 (-10)) - depot_x plain_depot)%Q
   <= math_pi)%Q
  ∧ (math_pi <= compute_polar_angle atan2_linear (corner_customer 3 0 (-10))
                  plain_depot <= 2 * math_pi)%Q.
Proof.
  exact (conj south_angle_bounds
           (proj2 (proj2 (compute_polar_angle_range _ _ _
                            south_angle_bounds))
              south_angle_negative)).
Defined.

Lemma line_place_run :
  ∃ s', place (fleet line_instance) 2 (sweep_init (fleet line_instance))
          (line_customer 2) = Ok s'.
Proof. eexists. vm_compute. reflexivity. Qed.

Lemma place_tightest_fit_witness :
  ∃ s' chosen,
    place (fleet line_instance) 2 (sweep_init (fleet line_instance))
      (line_customer 2) = Ok s'
    ∧ current_vehicle s' = Some chosen
    ∧ chosen ∈ fleet line_instance
    ∧ (current_demand s' <= fleet_capacity chosen)%Q.
Proof.
  destruct line_place_run as [s' Hs].
  destruct (place_tightest_fit _ _ _ _ Hs) as (chosen & Hv & Hin & _ & Hd & _).
  exists s', chosen. exact (conj Hs (conj Hv (conj Hin Hd))).
Defined.

Lemma nearest_neighbor_route_visits_witness :
  nearest_neighbor_route line_cluster line_instance line_distance_data
  = Some line_initial
  ∧ ∃ interior,
      sequence line_initial = 0%Z :: interior ++ [0%Z]
      ∧ NoDup interior
      ∧ (∀ x, x ∈ interior ↔ x ∈ customer_ids line_cluster).
Proof.
  destruct (nearest_neighbor_route_visits _ _ _ _ line_nearest_neighbor_run)
    as (interior & Hseq & Hnd & Hmem & _).
  split; [exact line_nearest_neighbor_run|].
  exists interior. exact (conj Hseq (conj Hnd Hmem)).
Defined.

Lemma nearest_neighbor_route_greedy_witness :
  nearest_neighbor_route line_cluster line_instance line_distance_data
  = Some line_initial
  ∧ ∃ interior,
      sequence line_initial = 0%Z :: interior ++ [0%Z]
      ∧ nearest_first
          (matrix_at (node_index_of line_distance_data)
             (distance_matrix line_distance_data))
          0 interior.
Proof.
  exact (conj line_nearest_neighbor_run
           (nearest_neighbor_route_greedy _ _ _ _
              line_nearest_neighbor_run)).
Defined.

Lemma line_sweep_main_run :
  ∃ out, SweepNN.main atan2_linear line_instance line_distance_data
         = Ok (Some out).
Proof. eexists. vm_compute. reflexivity. Qed.

Lemma main_total_demand_witness :
  ∃ out,
    SweepNN.main atan2_linear line_instance line_distance_data
    = Ok (Some out)
    ∧ (out_total_demand out
       == sum_list (cust_demand <$> customers line_instance))%Q.
Proof.
  destruct line_sweep_main_run as [out Hout].
  exists out. exact (conj Hout (main_total_demand _ _ _ _ Hout)).
Defined.

Lemma line_customer_ids : NoDup (cust_id <$> customers line_instance).
Proof.
  apply (bool_decide_unpack (NoDup (cust_id <$> customers line_instance))).
  vm_compute. exact I.
Qed.

Lemma main_routes_cover_customers_witness :
  ∃ out,
    SweepNN.main atan2_linear line_instance line_distance_data
    = Ok (Some out)
    ∧ NoDup (cust_id <$> customers line_instance)
    ∧ total_clusters (out_clusters out) = length (out_routes out)
    ∧ concat ((λ r, interior_of (sequence r)) <$> out_routes out)
      ≡ₚ cust_id <$> customers line_instance.
Proof.
  destruct line_sweep_main_run as [out Hout].
  destruct (main_routes_cover_customers _ _ _ _ Hout) as (Hn & _ & Hp).
  exists out.
  exact (conj Hout (conj line_customer_ids
                      (conj Hn (Hp line_customer_ids)))).
Defined.

Lemma line_rvnd_main_run :
  ∃ out, Rvnd.main line_instance line_distance_data [line_route] ()
         = Some out.
Proof. eexists. vm_compute. reflexivity. Qed.

Lemma rvnd_main_summary_witness :
  ∃ out,
    Rvnd.main line_instance line_distance_data [line_route] () = Some out
    ∧ (Rvnd.distance_after (Rvnd.summary out)
       <= Rvnd.distance_before (Rvnd.summary out))%Q.
Proof.
  destruct line_rvnd_main_run as [out Hout].
  exists out.
  exact (conj Hout (proj1 (rvnd_main_summary _ _ _ _ _ _ Hout))).
Defined.

Lemma depot_summary_keys_witness :
  default [] (Some [ {| Hasil.point_id := Some 4%Z;
                        Hasil.point_name := Some "north" |};
                     {| Hasil.point_id := None;
                        Hasil.point_name := None |} ]) ≠ []
  ∧ ∀ k,
      k ∈ (Hasil._build_depot_summary_from_result
             (Some [ {| Hasil.point_id := Some 4%Z;
                        Hasil.point_name := Some "north" |};
                     {| Hasil.point_id := None;
                        Hasil.point_name := None |} ])
             (Some (Some [ {| Hasil.route_total_distance := Some 12%Q;
                              Hasil.route_sequence := Some [0; 5; 6; 0]%Z;
                              Hasil.route_stops := None |} ]))).*1
      → k ∈ Hasil.depot_ids
              (default [] (Some [ {| Hasil.point_id := Some 4%Z;
                                     Hasil.point_name := Some "north" |};
                                  {| Hasil.point_id := None;
                                     Hasil.point_name := None |} ])).
Proof.
  assert (H : default [] (Some [ {| Hasil.point_id := Some 4%Z;
                                    Hasil.point_name := Some "north" |};
                                 {| Hasil.point_id := None;
                                    Hasil.point_name := None |} ]) ≠ [])
    by (cbn; discriminate).
  exact (conj H (proj1 (proj2 (proj2 (depot_summary_keys _ _))) H)).
Defined.



